(** * go-fetch: receipt validation, scoring and the in-memory record store

    A shallow embedding of [server.go].  Go strings are byte strings and are
    modelled by [string] (a sequence of 8-bit [ascii]); [int64] values are
    integers in [Z] with the two's-complement wrap-around written out;
    [float64] values are [spec_float] at precision 53 and maximal exponent
    1024 (IEEE 754 binary64, round to nearest even); the [map[string]any]
    of the store is a [gmap string any]. *)

From Stdlib Require Import ZArith QArith Qround String Ascii List Bool Lia.
From Stdlib Require Import Floats.SpecFloat.
From stdpp Require Import gmap strings.
Import ListNotations.

Local Open Scope string_scope.
Local Open Scope list_scope.
Local Open Scope Z_scope.

(** ** Errors and fallible results *)

(** A Go [error] made by [errors.New]: it is identified by its message. *)
Inductive error : Type :=
| errors_New (msg : string).

(** The outcome of a Go function whose last result is an [error]: either the
    value it produced (the error is [nil]) or the error.  What the functions
    of this program return beside a non-[nil] error is the zero value of the
    type, which no caller reads. *)
Inductive result (A : Type) : Type :=
| Ok (a : A)
| Err (e : error).
Arguments Ok {A} a.
Arguments Err {A} e.

(** [if err != nil { return err }] after a call. *)
Definition bind {A B : Type} (x : result A) (f : A -> result B) : result B :=
  match x with
  | Ok a => f a
  | Err e => Err e
  end.

Notation "'try' x <- c1 ; c2" := (bind c1 (fun x => c2))
  (at level 10, x name, c1 at level 100, c2 at level 200).

Definition is_ok {A : Type} (x : result A) : bool :=
  match x with Ok _ => true | Err _ => false end.

(** The error kinds of the validator and of the store, by the message the
    code gives them. *)
Definition ErrMalformedField : error := errors_New "Field must be a quoted string".
Definition ErrInvalidRetailer : error := errors_New "Invalid retailer name".
Definition ErrInvalidDate : error := errors_New "Invalid date format".
Definition ErrInvalidTime : error := errors_New "Invalid time format".
Definition ErrInvalidAmount : error := errors_New "Invalid amount".
Definition ErrAmountNotFloat : error := errors_New "Amount is not a valid float".
Definition ErrInvalidDescription : error := errors_New "Invalid item description".
Definition ErrCorrupt : error := errors_New "Receipt with given ID was malformed".
Definition ErrNotFound : error := errors_New "No receipt with given ID exists".

(** ** Bytes and strings *)

(** The numeric value of a byte. *)
Definition byte_val (c : ascii) : Z := Z.of_N (N_of_ascii c).

(** [len(s)] *)
Definition len (s : string) : Z := Z.of_nat (String.length s).

(** The double quote character, byte 0x22. *)
Definition dquote : ascii := ascii_of_nat 34.

(** [quoted s] is [s] between two double quotes: the raw JSON text of a string
    value without escapes. *)
Definition quoted (s : string) : string :=
  String dquote (s +:+ String dquote EmptyString).

(** [lo <= b && b <= hi] *)
Definition in_range (lo hi : Z) (b : Z) : bool := (lo <=? b) && (b <=? hi).

Definition is_ascii_digit (c : ascii) : bool := in_range 48 57 (byte_val c).
Definition is_ascii_upper (c : ascii) : bool := in_range 65 90 (byte_val c).
Definition is_ascii_lower (c : ascii) : bool := in_range 97 122 (byte_val c).
Definition is_ascii_letter (c : ascii) : bool := is_ascii_upper c || is_ascii_lower c.

(** ** Regular expressions

    The three patterns of [init] are anchored at both ends ([^...$], no
    multi-line flag), so [MatchString] holds exactly when the whole string
    belongs to the language of the pattern between the anchors.  That body is
    an abstract syntax tree here and matching is by Brzozowski derivatives.
    All the classes used are ASCII only, hence no byte of a multi-byte
    UTF-8 sequence belongs to one, and matching byte by byte agrees with
    Go's matching rune by rune. *)
Inductive regex : Type :=
| Void
| Eps
| Class (f : ascii -> bool)
| Cat (r1 r2 : regex)
| Alt (r1 r2 : regex)
| Star (r : regex).

Definition Plus (r : regex) : regex := Cat r (Star r).

Fixpoint Repeat (n : nat) (r : regex) : regex :=
  match n with
  | O => Eps
  | S n' => Cat r (Repeat n' r)
  end.

Fixpoint nullable (r : regex) : bool :=
  match r with
  | Void => false
  | Eps => true
  | Class _ => false
  | Cat r1 r2 => nullable r1 && nullable r2
  | Alt r1 r2 => nullable r1 || nullable r2
  | Star _ => true
  end.

Fixpoint deriv (a : ascii) (r : regex) : regex :=
  match r with
  | Void => Void
  | Eps => Void
  | Class f => if f a then Eps else Void
  | Cat r1 r2 =>
      if nullable r1 then Alt (Cat (deriv a r1) r2) (deriv a r2)
      else Cat (deriv a r1) r2
  | Alt r1 r2 => Alt (deriv a r1) (deriv a r2)
  | Star r1 => Cat (deriv a r1) (Star r1)
  end.

Fixpoint match_bytes (r : regex) (s : list ascii) : bool :=
  match s with
  | [] => nullable r
  | a :: s' => match_bytes (deriv a r) s'
  end.

(** [re.MatchString(s)] for a pattern [^re$]. *)
Definition MatchString (re : regex) (s : string) : bool :=
  match_bytes re (list_ascii_of_string s).

(** The language of a regular expression. *)
Inductive lang : regex -> list ascii -> Prop :=
| lang_eps : lang Eps []
| lang_class f a : f a = true -> lang (Class f) [a]
| lang_cat r1 r2 s1 s2 : lang r1 s1 -> lang r2 s2 -> lang (Cat r1 r2) (s1 ++ s2)
| lang_alt_l r1 r2 s : lang r1 s -> lang (Alt r1 r2) s
| lang_alt_r r1 r2 s : lang r2 s -> lang (Alt r1 r2) s
| lang_star_nil r : lang (Star r) []
| lang_star_cons r a s1 s2 :
    lang r (a :: s1) -> lang (Star r) s2 -> lang (Star r) (a :: s1 ++ s2).

(** The character classes of the patterns. *)

(** [\w]: [0-9A-Za-z_] *)
Definition class_word (c : ascii) : bool :=
  is_ascii_digit c || is_ascii_letter c || (byte_val c =? 95).

(** [\s]: tab, line feed, form feed, carriage return, space *)
Definition class_space (c : ascii) : bool :=
  (byte_val c =? 9) || (byte_val c =? 10) || (byte_val c =? 12)
  || (byte_val c =? 13) || (byte_val c =? 32).

(** [\d]: [0-9] *)
Definition class_digit (c : ascii) : bool := is_ascii_digit c.

(** [[\w\s&\-]] *)
Definition class_retailer (c : ascii) : bool :=
  class_word c || class_space c || (byte_val c =? 38) || (byte_val c =? 45).

(** [[\w\s\-]] *)
Definition class_description (c : ascii) : bool :=
  class_word c || class_space c || (byte_val c =? 45).

(** [\.] *)
Definition class_dot (c : ascii) : bool := byte_val c =? 46.

(** [regexp.MustCompile("^[\\w\\s&\\-]+$")] *)
Definition retailerRegex : regex := Plus (Class class_retailer).

(** [regexp.MustCompile("^[\\w\\s\\-]+$")] *)
Definition descriptionRegex : regex := Plus (Class class_description).

(** [regexp.MustCompile("^\\d+\\.\\d{2}$")] *)
Definition twoDecimalFloatRegex : regex :=
  Cat (Plus (Class class_digit)) (Cat (Class class_dot) (Repeat 2 (Class class_digit))).

(** ** Quoted strings *)

(** [s[i]] when [0 <= i < len(s)] *)
Definition byte_at (s : string) (i : Z) : option ascii :=
  if i <? 0 then None else String.get (Z.to_nat i) s.

Definition byte_is (s : string) (i : Z) (c : ascii) : bool :=
  match byte_at s i with
  | Some b => Ascii.eqb b c
  | None => false
  end.

(** [s[lo:hi]] when [0 <= lo <= hi <= len(s)] *)
Definition slice (s : string) (lo hi : Z) : string :=
  substring (Z.to_nat lo) (Z.to_nat (hi - lo)) s.

(** Returns true if the length of the given string is at least 2 and it is
    wrapped in double quotes. *)
Definition isQuotedString (s : string) : bool :=
  (2 <=? len s) && byte_is s 0 dquote && byte_is s (len s - 1) dquote.

(** Converts the byte slice to a string, checks that it is surrounded by
    double quotes and returns the substring between them. *)
Definition obtainQuotedString (data : string) : result string :=
  let str := data in
  if negb (isQuotedString str) then Err ErrMalformedField
  else Ok (slice str 1 (len str - 1)).

(** ** 64-bit integers *)

Definition int64_min : Z := - 2 ^ 63.
Definition int64_max : Z := 2 ^ 63 - 1.

(** Reduction of an integer to the [int64] it is congruent to modulo 2^64. *)
Definition wrap64 (z : Z) : Z := (z + 2 ^ 63) mod 2 ^ 64 - 2 ^ 63.

(** [a + b] on [int64] *)
Definition add64 (a b : Z) : Z := wrap64 (a + b).

Definition is_int64 (z : Z) : bool := (int64_min <=? z) && (z <=? int64_max).

(** ** 64-bit floating point *)

Definition float64 : Type := spec_float.
Definition prec : Z := 53.
Definition emax : Z := 1024.

Definition f64_mul : float64 -> float64 -> float64 := SFmul prec emax.
Definition f64_eqb : float64 -> float64 -> bool := SFeqb.
Definition f64_ltb : float64 -> float64 -> bool := SFltb.

(** The float whose value is exactly [m * 2^e] (sign [s]), in canonical form,
    for [m] of at most 53 bits and [e] at least the least exponent: the
    mantissa is shifted left as far as the format allows. *)
Definition float64_of_scaled (s : bool) (m e : Z) : float64 :=
  match m with
  | Zpos p =>
      let sh := Z.min (prec - Zdigits2 m) (e - emin prec emax) in
      if 0 <=? sh then S754_finite s (Z.to_pos (Z.shiftl m sh)) (e - sh)
      else S754_finite s p e
  | _ => S754_zero s
  end.

(** The float nearest to the rational [k / d] ([0 <= k], ties to even): the
    quotient is computed with enough bits and rounded once. *)
Definition float64_of_ratio (k : Z) (d : positive) : float64 :=
  match k with
  | Zpos p => SFdiv prec emax (S754_finite false p 0) (S754_finite false d 0)
  | _ => S754_zero false
  end.

(** The constants [0.2], [0.25] and [1e-4] as [float64]. *)
Definition const_0_2 : float64 := S754_finite false 7205759403792794 (-55).
Definition const_0_25 : float64 := S754_finite false 4503599627370496 (-54).
Definition const_1e_4 : float64 := S754_finite false 7378697629483821 (-66).

(** [math.Abs] *)
Definition math_Abs : float64 -> float64 := SFabs.

(** [math.Trunc]: the integer part; zeros, infinities and NaN are returned
    unchanged. *)
Definition math_Trunc (x : float64) : float64 :=
  match x with
  | S754_finite s m e =>
      if 0 <=? e then x else float64_of_scaled s (Z.shiftr (Zpos m) (- e)) 0
  | _ => x
  end.

(** [math.Ceil]: the least integer value greater than or equal to [x]; zeros,
    infinities and NaN are returned unchanged. *)
Definition math_Ceil (x : float64) : float64 :=
  match x with
  | S754_finite s m e =>
      if 0 <=? e then x
      else if s then float64_of_scaled true (Z.shiftr (Zpos m) (- e)) 0
      else float64_of_scaled false (- ((- Zpos m) / 2 ^ (- e))) 0
  | _ => x
  end.

(** [math.Mod]: the remainder of [x / y], with the sign of [x] and a magnitude
    less than that of [y]; it is computed exactly.  [Mod(±Inf, y)],
    [Mod(NaN, y)], [Mod(x, 0)] and [Mod(x, NaN)] are NaN and [Mod(x, ±Inf)]
    is [x]. *)
Definition math_Mod (x y : float64) : float64 :=
  match x, y with
  | S754_nan, _ | _, S754_nan => S754_nan
  | S754_infinity _, _ => S754_nan
  | _, S754_zero _ => S754_nan
  | _, S754_infinity _ => x
  | S754_zero _, _ => x
  | S754_finite sx mx ex, S754_finite _ my ey =>
      let e0 := Z.min ex ey in
      let X := Z.shiftl (Zpos mx) (ex - e0) in
      let Y := Z.shiftl (Zpos my) (ey - e0) in
      float64_of_scaled sx (X mod Y) e0
  end.

(** The integer part of a finite float, as an integer. *)
Definition float64_trunc_Z (s : bool) (m : positive) (e : Z) : Z :=
  let n := if 0 <=? e then Z.shiftl (Zpos m) e else Z.shiftr (Zpos m) (- e) in
  if s then - n else n.

(** The exact value of a finite float as a rational (0 for the others). *)
Definition float64_value (x : float64) : Q :=
  match x with
  | S754_finite s m e =>
      let n := if s then Zneg m else Zpos m in
      if 0 <=? e then inject_Z (n * 2 ^ e) else Qmake n (Z.to_pos (2 ^ (- e)))
  | _ => inject_Z 0
  end.

(** ** What the Go implementation leaves to the platform or to the Unicode
    tables

    - [unicode.IsLetter] and [unicode.IsDigit] on the runes from 0x80 on
      (the tables of the Unicode version the program is built with);
    - the slow path of [strings.TrimSpace], taken at the first non-ASCII byte
      met from either end: [TrimFunc(s, unicode.IsSpace)] and
      [TrimRightFunc(s, unicode.IsSpace)];
    - the result of converting to [int64] a [float64] that is NaN, infinite
      or out of the range of [int64], which the language leaves to the
      implementation. *)
Record GoRuntime : Type := {
  unicode_IsLetter_high : Z -> bool;
  unicode_IsDigit_high : Z -> bool;
  strings_TrimFunc_IsSpace : string -> string;
  strings_TrimRightFunc_IsSpace : string -> string;
  int64_of_unrepresentable : float64 -> Z
}.

(** [int64(f)]: the integer part of [f] when [int64] can hold it. *)
Definition int64_of_float64 (rt : GoRuntime) (f : float64) : Z :=
  match f with
  | S754_zero _ => 0
  | S754_finite s m e =>
      let v := float64_trunc_Z s m e in
      if is_int64 v then v else wrap64 (int64_of_unrepresentable rt f)
  | _ => wrap64 (int64_of_unrepresentable rt f)
  end.

(** ** Library functions of the validator *)

(** [c - '0'] *)
Definition digit_val (c : ascii) : Z := byte_val c - 48.

(** The value of a sequence of decimal digits read after [acc]. *)
Fixpoint decimal_value (acc : Z) (s : list ascii) : Z :=
  match s with
  | [] => acc
  | c :: s' => decimal_value (10 * acc + digit_val c) s'
  end.

(** Splits at the first [.]: the bytes before it and, when there is one, the
    bytes after it. *)
Fixpoint split_dot (s : list ascii) : list ascii * option (list ascii) :=
  match s with
  | [] => ([], None)
  | c :: s' =>
      if class_dot c then ([], Some s')
      else let '(i, f) := split_dot s' in (c :: i, f)
  end.

(** [strconv.ParseFloat(s, 64)] on plain decimal numerals [digits.digits],
    the only ones that reach it behind [twoDecimalFloatRegex]: the nearest
    [float64], ties to even, and a range error when that is infinite.  Any
    other text is a syntax error here; the Go function reads more notations
    (signs, exponents, hexadecimal, infinities, NaN). *)
Definition strconv_ParseFloat (s : string) : result float64 :=
  match split_dot (list_ascii_of_string s) with
  | (i, Some f) =>
      if negb (forallb is_ascii_digit (i ++ f)) || (length (i ++ f) =? 0)%nat
      then Err (errors_New "strconv.ParseFloat: invalid syntax")
      else
        match float64_of_ratio (decimal_value 0 (i ++ f)) (Z.to_pos (10 ^ Z.of_nat (length f))) with
        | S754_infinity _ => Err (errors_New "strconv.ParseFloat: value out of range")
        | v => Ok v
        end
  | (_, None) => Err (errors_New "strconv.ParseFloat: invalid syntax")
  end.

(** [getnum] of package [time]: a number of one or two digits at the head of
    [s] (of exactly two when [fixed]) and the rest of [s]. *)
Definition getnum (s : list ascii) (fixed : bool) : option (Z * list ascii) :=
  match s with
  | c0 :: rest =>
      if is_ascii_digit c0 then
        match rest with
        | c1 :: rest' =>
            if is_ascii_digit c1 then Some (digit_val c0 * 10 + digit_val c1, rest')
            else if fixed then None else Some (digit_val c0, rest)
        | [] => if fixed then None else Some (digit_val c0, rest)
        end
      else None
  | [] => None
  end.

(** [skip] of package [time] for a one-byte prefix that is not a space. *)
Definition skip1 (s : list ascii) (c : ascii) : option (list ascii) :=
  match s with
  | c0 :: rest => if Ascii.eqb c0 c then Some rest else None
  | [] => None
  end.

(** [isLeap] and [daysIn] of package [time]. *)
Definition isLeap (year : Z) : bool :=
  (year mod 4 =? 0) && (negb (year mod 100 =? 0) || (year mod 400 =? 0)).

Definition daysIn (month year : Z) : Z :=
  if month =? 2 then (if isLeap year then 29 else 28)
  else 30 + Z.land (month + Z.shiftr month 3) 1.

(** What the program reads of a [time.Time]: its civil date and clock, in
    UTC. *)
Record time_Time : Type := {
  Year : Z; Month : Z; Day : Z; Hour : Z; Minute : Z
}.

(** [time.Parse("2006-01-02", s)]: a four-digit year, a two-digit month in
    1..12 and a two-digit day that exists in that month, with [-] between
    them and nothing after; the time of day is midnight. *)
Definition time_Parse_date (s : string) : option time_Time :=
  match list_ascii_of_string s with
  | y0 :: y1 :: y2 :: y3 :: v1 =>
      if negb (forallb is_ascii_digit [y0; y1; y2; y3]) then None else
      let year := decimal_value 0 [y0; y1; y2; y3] in
      match skip1 v1 "-"%char with
      | None => None
      | Some v2 =>
          match getnum v2 true with
          | None => None
          | Some (month, v3) =>
              if (month <=? 0) || (12 <? month) then None else
              match skip1 v3 "-"%char with
              | None => None
              | Some v4 =>
                  match getnum v4 true with
                  | None => None
                  | Some (day, v5) =>
                      if negb (length v5 =? 0)%nat then None
                      else if (day <? 1) || (daysIn month year <? day) then None
                      else Some {| Year := year; Month := month; Day := day;
                                   Hour := 0; Minute := 0 |}
                  end
              end
          end
      end
  | _ => None
  end.

(** [time.Parse("15:04", s)]: an hour of one or two digits below 24, [:], a
    two-digit minute below 60 and nothing after; the date is January 1 of
    year 0. *)
Definition time_Parse_clock (s : string) : option time_Time :=
  match getnum (list_ascii_of_string s) false with
  | None => None
  | Some (hour, v1) =>
      if (hour <? 0) || (24 <=? hour) then None else
      match skip1 v1 ":"%char with
      | None => None
      | Some v2 =>
          match getnum v2 true with
          | None => None
          | Some (min, v3) =>
              if (min <? 0) || (60 <=? min) then None
              else if negb (length v3 =? 0)%nat then None
              else Some {| Year := 0; Month := 1; Day := 1; Hour := hour; Minute := min |}
          end
      end
  end.

(** ** Library functions of the scoring engine *)

(** [utf8.RuneError], U+FFFD. *)
Definition RuneError : Z := 65533.

(** A continuation byte, 0x80 to 0xBF. *)
Definition is_cont (b : Z) : bool := in_range 128 191 b.

(** [utf8.DecodeRuneInString] at a first byte [b0] followed by [rest]: the
    rune and the number of bytes after [b0] that belong to it.  Input that
    is not the shortest UTF-8 encoding of a rune yields [RuneError] and
    width 1. *)
Definition DecodeRune (b0 : Z) (rest : list Z) : Z * nat :=
  if b0 <? 128 then (b0, 0%nat)
  else if in_range 194 223 b0 then
    match rest with
    | b1 :: _ =>
        if is_cont b1 then (Z.lor (Z.shiftl (Z.land b0 31) 6) (Z.land b1 63), 1%nat)
        else (RuneError, 0%nat)
    | _ => (RuneError, 0%nat)
    end
  else if in_range 224 239 b0 then
    match rest with
    | b1 :: b2 :: _ =>
        let lo := if b0 =? 224 then 160 else 128 in
        let hi := if b0 =? 237 then 159 else 191 in
        if in_range lo hi b1 && is_cont b2 then
          (Z.lor (Z.lor (Z.shiftl (Z.land b0 15) 12) (Z.shiftl (Z.land b1 63) 6))
                 (Z.land b2 63), 2%nat)
        else (RuneError, 0%nat)
    | _ => (RuneError, 0%nat)
    end
  else if in_range 240 244 b0 then
    match rest with
    | b1 :: b2 :: b3 :: _ =>
        let lo := if b0 =? 240 then 144 else 128 in
        let hi := if b0 =? 244 then 143 else 191 in
        if in_range lo hi b1 && is_cont b2 && is_cont b3 then
          (Z.lor (Z.lor (Z.lor (Z.shiftl (Z.land b0 7) 18) (Z.shiftl (Z.land b1 63) 12))
                        (Z.shiftl (Z.land b2 63) 6))
                 (Z.land b3 63), 3%nat)
        else (RuneError, 0%nat)
    | _ => (RuneError, 0%nat)
    end
  else (RuneError, 0%nat).

(** The runes a [for _, char := range s] loop visits, in order; [pending]
    counts the bytes still to pass that belong to the rune just decoded. *)
Fixpoint range_runes (pending : nat) (s : list Z) : list Z :=
  match s with
  | [] => []
  | b :: s' =>
      match pending with
      | S k => range_runes k s'
      | O => let '(r, w) := DecodeRune b s' in r :: range_runes w s'
      end
  end.

(** The runes of [range s]. *)
Definition runes_of (s : string) : list Z :=
  range_runes 0 (map byte_val (list_ascii_of_string s)).

(** The letters and the digits among the runes below 0x80. *)
Definition is_letter_rune (r : Z) : bool := in_range 65 90 r || in_range 97 122 r.
Definition is_digit_rune (r : Z) : bool := in_range 48 57 r.

(** [unicode.IsLetter] *)
Definition unicode_IsLetter (rt : GoRuntime) (r : Z) : bool :=
  if r <? 128 then is_letter_rune r else unicode_IsLetter_high rt r.

(** [unicode.IsDigit] *)
Definition unicode_IsDigit (rt : GoRuntime) (r : Z) : bool :=
  if r <? 128 then is_digit_rune r else unicode_IsDigit_high rt r.

(** [asciiSpace] of package [strings]: tab, line feed, vertical tab, form
    feed, carriage return, space. *)
Definition asciiSpace (c : ascii) : bool :=
  in_range 9 13 (byte_val c) || (byte_val c =? 32).

(** [c < utf8.RuneSelf] *)
Definition is_ascii (c : ascii) : bool := byte_val c <? 128.

(** The second loop of [strings.TrimSpace], on the reversed bytes: [stop]
    moves down over ASCII spaces. *)
Fixpoint trim_stop (rt : GoRuntime) (rev_s : list ascii) : string :=
  match rev_s with
  | [] => EmptyString
  | c :: rev_s' =>
      if negb (is_ascii c) then
        strings_TrimRightFunc_IsSpace rt (string_of_list_ascii (rev rev_s))
      else if asciiSpace c then trim_stop rt rev_s'
      else string_of_list_ascii (rev rev_s)
  end.

(** The first loop of [strings.TrimSpace]: [start] moves up over ASCII
    spaces. *)
Fixpoint trim_start (rt : GoRuntime) (s : list ascii) : string :=
  match s with
  | [] => EmptyString
  | c :: s' =>
      if negb (is_ascii c) then
        strings_TrimFunc_IsSpace rt (string_of_list_ascii s)
      else if asciiSpace c then trim_start rt s'
      else trim_stop rt (rev s)
  end.

(** [strings.TrimSpace] *)
Definition strings_TrimSpace (rt : GoRuntime) (s : string) : string :=
  trim_start rt (list_ascii_of_string s).

(** ** Schemas and their validating decoders *)

Definition Retailer : Type := string.
Definition Date : Type := time_Time.
Definition Time : Type := time_Time.
Definition Amount : Type := float64.
Definition Description : Type := string.

Record Item : Type := {
  Item_Description : Description;
  Item_Price : Amount
}.

Record Receipt : Type := {
  Receipt_Retailer : Retailer;
  Receipt_PurchaseDate : Date;
  Receipt_PurchaseTime : Time;
  Receipt_Items : list Item;
  Receipt_Total : Amount
}.

(** Each [UnmarshalJSON] method returns the value it stores through its
    receiver when it returns a [nil] error. *)

Definition Retailer_UnmarshalJSON (data : string) : result Retailer :=
  try str <- obtainQuotedString data;
  if negb (MatchString retailerRegex str) then Err ErrInvalidRetailer
  else Ok str.

Definition Date_UnmarshalJSON (data : string) : result Date :=
  try str <- obtainQuotedString data;
  match time_Parse_date str with
  | None => Err ErrInvalidDate
  | Some parsedDate => Ok parsedDate
  end.

Definition Time_UnmarshalJSON (data : string) : result Time :=
  try str <- obtainQuotedString data;
  match time_Parse_clock str with
  | None => Err ErrInvalidTime
  | Some parsedTime => Ok parsedTime
  end.

Definition Amount_UnmarshalJSON (data : string) : result Amount :=
  try str <- obtainQuotedString data;
  if negb (MatchString twoDecimalFloatRegex str) then Err ErrInvalidAmount
  else
    match strconv_ParseFloat str with
    | Err _ => Err ErrAmountNotFloat
    | Ok value => Ok value
    end.

Definition Description_UnmarshalJSON (data : string) : result Description :=
  try str <- obtainQuotedString data;
  if negb (MatchString descriptionRegex str) then Err ErrInvalidDescription
  else Ok str.

(** The members of a receipt document, each with the raw text of its value
    as [json.Unmarshal] hands it to the decoders above, or [None] when the
    document does not give the member. *)
Record RawItem : Type := {
  raw_shortDescription : option string;
  raw_price : option string
}.

Record RawReceipt : Type := {
  raw_retailer : option string;
  raw_purchaseDate : option string;
  raw_purchaseTime : option string;
  raw_items : option (list RawItem);
  raw_total : option string
}.

(** The zero [time.Time]: January 1 of year 1, 00:00 UTC. *)
Definition zero_Time : time_Time :=
  {| Year := 1; Month := 1; Day := 1; Hour := 0; Minute := 0 |}.

(** A member that is given is decoded; one that is not leaves the field at
    the zero value of its type. *)
Definition member {A : Type} (decode : string -> result A) (zero : A)
    (m : option string) : result A :=
  match m with
  | Some data => decode data
  | None => Ok zero
  end.

(** [json.Unmarshal] into an [Item]: the first decoder that fails fails the
    whole. *)
Definition Item_Unmarshal (raw : RawItem) : result Item :=
  try d <- member Description_UnmarshalJSON EmptyString (raw_shortDescription raw);
  try p <- member Amount_UnmarshalJSON (S754_zero false) (raw_price raw);
  Ok {| Item_Description := d; Item_Price := p |}.

Fixpoint Items_Unmarshal (raws : list RawItem) : result (list Item) :=
  match raws with
  | [] => Ok []
  | raw :: raws' =>
      try i <- Item_Unmarshal raw;
      try rest <- Items_Unmarshal raws';
      Ok (i :: rest)
  end.

(** [json.Unmarshal] into a fresh [ProcessReceiptRequestBody], for an object
    that gives each member once at most. *)
Definition Receipt_Unmarshal (raw : RawReceipt) : result Receipt :=
  try retailer <- member Retailer_UnmarshalJSON EmptyString (raw_retailer raw);
  try date <- member Date_UnmarshalJSON zero_Time (raw_purchaseDate raw);
  try time <- member Time_UnmarshalJSON zero_Time (raw_purchaseTime raw);
  try items <- match raw_items raw with
               | Some raws => Items_Unmarshal raws
               | None => Ok []
               end;
  try total <- member Amount_UnmarshalJSON (S754_zero false) (raw_total raw);
  Ok {| Receipt_Retailer := retailer; Receipt_PurchaseDate := date;
        Receipt_PurchaseTime := time; Receipt_Items := items;
        Receipt_Total := total |}.

(** A validly-constructed receipt is one the decoders produce. *)
Definition valid_receipt (r : Receipt) : Prop :=
  exists raw, Receipt_Unmarshal raw = Ok r.

(** ** The scoring engine and the record store *)

Section Runtime.

Variable rt : GoRuntime.

Definition alphanumericRetailerPoints (r : Receipt) : Z :=
  fold_left
    (fun points char =>
       if unicode_IsLetter rt char || unicode_IsDigit rt char
       then add64 points 1 else points)
    (runes_of (Receipt_Retailer r)) 0.

Definition totalRoundDollarAmountPoints (r : Receipt) : Z :=
  if f64_eqb (Receipt_Total r) (math_Trunc (Receipt_Total r)) then 50 else 0.

Definition totalMultipleOf25CentsPoints (r : Receipt) : Z :=
  if f64_ltb (math_Abs (math_Mod (Receipt_Total r) const_0_25)) const_1e_4
  then 25 else 0.

Definition every2ItemsPoints (r : Receipt) : Z :=
  wrap64 (5 * (Z.of_nat (length (Receipt_Items r)) / 2)).

Definition itemDescriptionLengthsPoints (r : Receipt) : Z :=
  fold_left
    (fun points item =>
       let trimmedDescription := strings_TrimSpace rt (Item_Description item) in
       if Z.rem (len trimmedDescription) 3 =? 0
       then add64 points (int64_of_float64 rt (math_Ceil (f64_mul (Item_Price item) const_0_2)))
       else points)
    (Receipt_Items r) 0.

Definition purchaseDayOddPoints (r : Receipt) : Z :=
  if Z.rem (Day (Receipt_PurchaseDate r)) 2 =? 1 then 6 else 0.

Definition purchaseTimeBetween2And4Points (r : Receipt) : Z :=
  let purchaseHour := Hour (Receipt_PurchaseTime r) in
  if (14 <=? purchaseHour) && (purchaseHour <? 16) then 10 else 0.

Definition computeReceiptPoints (r : Receipt) : Z :=
  add64 (add64 (add64 (add64 (add64 (add64
    (alphanumericRetailerPoints r)
    (totalRoundDollarAmountPoints r))
    (totalMultipleOf25CentsPoints r))
    (every2ItemsPoints r))
    (itemDescriptionLengthsPoints r))
    (purchaseDayOddPoints r))
    (purchaseTimeBetween2And4Points r).

Record ReceiptRow : Type := {
  Row_Receipt : Receipt;
  ReceiptId : string;
  Points : Z
}.

(** A value of interface type [any]: a [ReceiptRow] or a value of some other
    dynamic type. *)
Inductive any : Type :=
| any_ReceiptRow (row : ReceiptRow)
| any_other (type_name : string).

(** The store; its lock orders the calls, which are taken one at a time
    here. *)
Record xDB : Type := {
  Data : gmap string any
}.

Definition NewXDB : xDB := {| Data := ∅ |}.

Definition ReceiptTableName : string := "receipt".

(** [uuid] is the identifier [uuid.NewString()] draws for this call. *)
Definition writeReceipt (db : xDB) (uuid : string) (r : Receipt) : result string * xDB :=
  let receiptId := uuid in
  let row := {| Row_Receipt := r; ReceiptId := receiptId;
                Points := computeReceiptPoints r |} in
  (Ok receiptId,
   {| Data := <[ReceiptTableName +:+ "." +:+ receiptId := any_ReceiptRow row]> (Data db) |}).

Definition getReceiptPoints (db : xDB) (receiptId : string) : result Z :=
  let key := ReceiptTableName +:+ "." +:+ receiptId in
  match Data db !! key with
  | Some value =>
      match value with
      | any_ReceiptRow receiptRow => Ok (Points receiptRow)
      | _ => Err ErrCorrupt
      end
  | None => Err ErrNotFound
  end.

End Runtime.

(** * The request handlers

    The two routes under [/receipts/] as functions of the store and of the
    request.  A handler's answer is what it hands to [http.Error] or to
    [w.Write]; requests are taken one at a time, so the package-level [err]
    holds the error of the step just run when it is tested.  In the last
    step of each handler [err] is declared anew inside the closure: the
    error of [json.Marshal] or of [w.Write] stays there, and the test that
    closes the handler reads the package-level [err], which the step before
    left [nil]; that test never fires and has no branch here.
    [timer.WithTimer] (from the [goutils] module) is taken to run the
    function it is given once and return. *)

(** [strings.Split(s, sep)] for a separator [sep] of one byte: the segments
    of [s] between consecutive separators, one more than there are
    separators. *)
Fixpoint strings_Split (s : string) (sep : ascii) : list string :=
  match s with
  | EmptyString => [EmptyString]
  | String c s' =>
      let segments := strings_Split s' sep in
      if Ascii.eqb c sep then EmptyString :: segments
      else String c (hd EmptyString segments) :: tl segments
  end.

(** The third segment of the path; indexing a shorter list of segments is a
    run-time panic, [None] here. *)
Definition getReceiptIDFromURLPath (path : string) : option string :=
  let pathSegments := strings_Split path "/" in
  nth_error pathSegments 2.

(** What the handlers read of an [*http.Request]: the method, the path of
    the URL and what [io.ReadAll(request.Body)] returns. *)
Record Request : Type := {
  Method : string;
  URL_Path : string;
  Body : result string
}.

(** The two response schemas, as the values given to [json.Marshal]. *)
Inductive ResponseBody : Type :=
| ProcessReceiptsResponseBody (id : string)
| ReceiptsPointsResponseBody (points : Z).

(** The answer of a handler: nothing written (the server then replies 200
    with an empty body), [http.Error(w, error, code)], [w.Write] of the
    marshalled value [v] (status 200), or a run-time panic. *)
Inductive Response : Type :=
| NoResponse
| http_Error (error : string) (code : Z)
| w_Write_Marshal (v : ResponseBody)
| Panic.

Definition http_MethodGet : string := "GET".
Definition http_MethodPost : string := "POST".
Definition http_StatusBadRequest : Z := 400.
Definition http_StatusNotFound : Z := 404.

(** The error of [json.Unmarshal] on a body it cannot decode as a receipt
    document; the program never reads its message. *)
Definition ErrJSON : error := errors_New "encoding/json: the body is not a receipt document".

(** [pathSegments[i] == s], behind a test of [len(pathSegments)]. *)
Definition segment_is (pathSegments : list string) (i : nat) (s : string) : bool :=
  match nth_error pathSegments i with
  | Some segment => String.eqb segment s
  | None => false
  end.

Section Handlers.

Variable rt : GoRuntime.

(** The scan of [json.Unmarshal] over the bytes of a body: the members of
    the receipt document it finds, each with the raw text of its value, or
    [None] when the bytes are not a JSON document of that shape. *)
Variable json_members : string -> option RawReceipt.

(** Reads the entirety of the request's body and unmarshals it. *)
Definition readUnmarshalRequestBody (request : Request) : result Receipt :=
  try requestBodyBytes <- Body request;
  match json_members requestBodyBytes with
  | None => Err ErrJSON
  | Some raw => Receipt_Unmarshal raw
  end.

(** [uuid] is the identifier [uuid.NewString()] draws if the request reaches
    [writeReceipt]. *)
Definition receiptsProcessHandler (db : xDB) (uuid : string) (r : Request) : Response * xDB :=
  if negb (String.eqb (Method r) http_MethodPost)
  then (http_Error "The receipt is invalid." http_StatusBadRequest, db)
  else
    match readUnmarshalRequestBody r with
    | Err _ => (http_Error "The receipt is invalid." http_StatusBadRequest, db)
    | Ok b =>
        match writeReceipt rt db uuid b with
        | (Err _, db') => (http_Error "The receipt is invalid." http_StatusBadRequest, db')
        | (Ok receiptId, db') =>
            (w_Write_Marshal (ProcessReceiptsResponseBody receiptId), db')
        end
    end.

Definition receiptsPointsHandler (db : xDB) (r : Request) : Response :=
  if negb (String.eqb (Method r) http_MethodGet)
  then http_Error "No receipt found for that ID." http_StatusNotFound
  else
    match getReceiptIDFromURLPath (URL_Path r) with
    | None => Panic
    | Some receiptId =>
        match getReceiptPoints db receiptId with
        | Err _ => http_Error "No receipt found for that ID." http_StatusNotFound
        | Ok receiptPoints => w_Write_Marshal (ReceiptsPointsResponseBody receiptPoints)
        end
    end.

Definition receiptsSubresourceHandler (db : xDB) (uuid : string) (r : Request)
  : Response * xDB :=
  let pathSegments := strings_Split (URL_Path r) "/" in
  if (length pathSegments =? 3)%nat && segment_is pathSegments 2 "process"
  then receiptsProcessHandler db uuid r
  else if (length pathSegments =? 4)%nat && segment_is pathSegments 3 "points"
  then (receiptsPointsHandler db r, db)
  else (NoResponse, db).

End Handlers.

(** * Vocabulary of the statements *)

(** A raw value that is not a quoted string: shorter than two bytes, or
    without a double quote at one end. *)
Definition not_quoted (data : string) : Prop :=
  len data < 2 \/ byte_at data 0 <> Some dquote
  \/ byte_at data (len data - 1) <> Some dquote.

(** A numeral made of one digit or more, a point and exactly two digits. *)
Definition two_decimal_numeral (s : string) : Prop :=
  exists (i : list ascii) (d1 d2 : ascii),
    list_ascii_of_string s = i ++ ["."%char; d1; d2]
    /\ i <> [] /\ forallb is_ascii_digit i = true
    /\ is_ascii_digit d1 = true /\ is_ascii_digit d2 = true.

(** The shape [YYYY-MM-DD]: four digits, two digits and two digits, with a
    hyphen between them. *)
Definition date_layout (s : string) : Prop :=
  exists y0 y1 y2 y3 m0 m1 d0 d1 : ascii,
    list_ascii_of_string s = [y0; y1; y2; y3; "-"; m0; m1; "-"; d0; d1]%char
    /\ forallb is_ascii_digit [y0; y1; y2; y3; m0; m1; d0; d1] = true.

(** The decoder rejects the member, which the document gives. *)
Definition rejected {A : Type} (decode : string -> result A) (m : option string) : Prop :=
  exists data, m = Some data /\ is_ok (decode data) = false.

(** Some member of the document, or of one of its items, is rejected. *)
Definition field_rejected (raw : RawReceipt) : Prop :=
  rejected Retailer_UnmarshalJSON (raw_retailer raw)
  \/ rejected Date_UnmarshalJSON (raw_purchaseDate raw)
  \/ rejected Time_UnmarshalJSON (raw_purchaseTime raw)
  \/ rejected Amount_UnmarshalJSON (raw_total raw)
  \/ exists raws i,
       raw_items raw = Some raws /\ In i raws
       /\ (rejected Description_UnmarshalJSON (raw_shortDescription i)
           \/ rejected Amount_UnmarshalJSON (raw_price i)).

(** The key of the record of an identifier. *)
Definition receipt_key (receiptId : string) : string :=
  ReceiptTableName +:+ "." +:+ receiptId.

(** The stores reached from the empty one by calls of [writeReceipt], with
    the identifiers those calls returned, latest first. *)
Inductive reachable (rt : GoRuntime) : xDB -> list string -> Prop :=
| reachable_new : reachable rt NewXDB []
| reachable_write db ids uuid r :
    reachable rt db ids ->
    reachable rt (snd (writeReceipt rt db uuid r)) (uuid :: ids).

(** A run of calls of [writeReceipt], each with the identifier drawn for
    it. *)
Fixpoint writeReceipts (rt : GoRuntime) (db : xDB) (calls : list (string * Receipt)) : xDB :=
  match calls with
  | [] => db
  | (uuid, r) :: calls' => writeReceipts rt (snd (writeReceipt rt db uuid r)) calls'
  end.

(** A runtime to evaluate examples with: an unrepresentable float converts
    to the least [int64], as on amd64; the examples are ASCII text, so the
    Unicode parts are never consulted. *)
Definition example_runtime : GoRuntime := {|
  unicode_IsLetter_high := fun _ => false;
  unicode_IsDigit_high := fun _ => false;
  strings_TrimFunc_IsSpace := fun s => s;
  strings_TrimRightFunc_IsSpace := fun s => s;
  int64_of_unrepresentable := fun _ => int64_min
|}.

(** The sum of a list of integers. *)
Fixpoint sumZ (l : list Z) : Z :=
  match l with
  | [] => 0
  | x :: l' => x + sumZ l'
  end.

(** The condition of the alphanumeric rule on a rune. *)
Definition is_alnum_rune (rt : GoRuntime) (char : Z) : bool :=
  unicode_IsLetter rt char || unicode_IsDigit rt char.

(** A byte in [A-Za-z0-9]. *)
Definition is_ascii_alnum (c : ascii) : bool := is_ascii_letter c || is_ascii_digit c.

(** [x] is a number or an infinity of sign [s] (not NaN). *)
Definition has_sign (s : bool) (x : float64) : Prop :=
  match x with
  | S754_zero s' | S754_infinity s' | S754_finite s' _ _ => s' = s
  | S754_nan => False
  end.

(** A decoded amount is a finite number, zero or positive. *)
Definition is_amount (x : float64) : Prop :=
  match x with
  | S754_zero false | S754_finite false _ _ => True
  | _ => False
  end.

(** The value of a float in units of 2^-1074, the least positive [float64]
    (0 for infinities and NaN): an integer for every binary64 datum. *)
Definition units (x : float64) : Z :=
  match x with
  | S754_finite s m e => (if s then - Zpos m else Zpos m) * 2 ^ (e - emin prec emax)
  | _ => 0
  end.

(** [x] is a binary64 datum: its mantissa and exponent are those of the
    format (at most 53 bits, normalised unless the exponent is the least). *)
Definition is_binary64 (x : float64) : bool := valid_binary prec emax x.

(** The canonical exponent of a [float64] whose value lies below [2^x]. *)
Definition fexp64 (x : Z) : Z := fexp prec emax x.

(** The least integer above the exact value of [p]. *)
Definition ceiling_of (p : float64) : Z := Qceiling (float64_value p).

(** [p] is a number and [int64] holds its ceiling. *)
Definition ceil_fits (p : float64) : bool :=
  match p with
  | S754_zero _ => true
  | S754_finite _ _ _ => is_int64 (ceiling_of p)
  | _ => false
  end.

(** The trimmed description has a length that is a multiple of 3. *)
Definition qualifies (rt : GoRuntime) (item : Item) : bool :=
  Z.rem (len (strings_TrimSpace rt (Item_Description item))) 3 =? 0.

(** [price * 0.2] in [float64]. *)
Definition item_product (item : Item) : float64 := f64_mul (Item_Price item) const_0_2.

(** The amounts the rule adds, as exact ceilings. *)
Definition item_ceilings (rt : GoRuntime) (items : list Item) : list Z :=
  map (fun item => if qualifies rt item then ceiling_of (item_product item) else 0) items.

(** Every item the rule counts has a ceiling that [int64] holds. *)
Definition ceilings_fit (rt : GoRuntime) (items : list Item) : Prop :=
  Forall (fun item => qualifies rt item = true -> ceil_fits (item_product item) = true) items.

(** A receipt around a list of items, for the statements about single
    items. *)
Definition receipt_of_items (items : list Item) : Receipt := {|
  Receipt_Retailer := "Target";
  Receipt_PurchaseDate := {| Year := 2022; Month := 1; Day := 1; Hour := 0; Minute := 0 |};
  Receipt_PurchaseTime := {| Year := 0; Month := 1; Day := 1; Hour := 13; Minute := 1 |};
  Receipt_Items := items;
  Receipt_Total := S754_zero false
|}.

(** The [float64] nearest to 25.25 (which is exact) and to 25.26. *)
Definition amount_25_25 : Amount := S754_finite false 7107243161944064 (-48).
Definition amount_25_26 : Amount := S754_finite false 7110057911711171 (-48).

(** The item Emils Cheese Pizza at 12.25, as a document and decoded. *)
Definition emils_raw : RawItem := {|
  raw_shortDescription := Some (quoted "Emils Cheese Pizza");
  raw_price := Some (quoted "12.25")
|}.

Definition emils_item : Item := {|
  Item_Description := "Emils Cheese Pizza";
  Item_Price := S754_finite false 6896136929411072 (-49)
|}.

(** The [float64] nearest to 100000000000000000000000.00, an amount the
    pattern admits and whose fifth is beyond [int64]; an item at that
    price. *)
Definition huge_price : Amount := S754_finite false 5960464477539062 24.

Definition huge_item : Item := {| Item_Description := "abc"; Item_Price := huge_price |}.

(** The amount 5.00. *)
Definition amount_5_00 : Amount := S754_finite false 5629499534213120 (-50).

(** An item with a blank description at the price above. *)
Definition blank_huge_item : Item := {| Item_Description := "   "; Item_Price := huge_price |}.

(** The seven contributions as unbounded integers, the description-length
    one with exact ceilings. *)
Definition exact_points (rt : GoRuntime) (r : Receipt) : Z :=
  Z.of_nat (length (List.filter (is_alnum_rune rt) (runes_of (Receipt_Retailer r))))
  + totalRoundDollarAmountPoints r
  + totalMultipleOf25CentsPoints r
  + 5 * (Z.of_nat (length (Receipt_Items r)) / 2)
  + sumZ (item_ceilings rt (Receipt_Items r))
  + purchaseDayOddPoints r
  + purchaseTimeBetween2And4Points r.

(** A receipt with two items, decoded from its document. *)
Definition target_raw : RawReceipt := {|
  raw_retailer := Some (quoted "Target");
  raw_purchaseDate := Some (quoted "2022-01-01");
  raw_purchaseTime := Some (quoted "13:01");
  raw_items := Some [ {| raw_shortDescription := Some (quoted "Mountain Dew 12PK");
                         raw_price := Some (quoted "6.49") |};
                      emils_raw ];
  raw_total := Some (quoted "35.35")
|}.

(** That receipt as the decoders build it. *)
Definition target_receipt : Receipt := {|
  Receipt_Retailer := "Target";
  Receipt_PurchaseDate := {| Year := 2022; Month := 1; Day := 1; Hour := 0; Minute := 0 |};
  Receipt_PurchaseTime := {| Year := 0; Month := 1; Day := 1; Hour := 13; Minute := 1 |};
  Receipt_Items := [ {| Item_Description := "Mountain Dew 12PK";
                        Item_Price := S754_finite false 7307090395408630 (-50) |};
                     emils_item ];
  Receipt_Total := S754_finite false 4975070213360845 (-47)
|}.

(** A document with two items at 40000000000000000000.00 each: every field
    is accepted, each item adds 8000000000000000000, and their sum is beyond
    the greatest [int64]. *)
Definition overflow_raw : RawReceipt := {|
  raw_retailer := Some (quoted "M&M Corner Market");
  raw_purchaseDate := Some (quoted "2022-03-20");
  raw_purchaseTime := Some (quoted "14:33");
  raw_items := Some [ {| raw_shortDescription := Some (quoted "abc");
                         raw_price := Some (quoted "40000000000000000000.00") |};
                      {| raw_shortDescription := Some (quoted "abc");
                         raw_price := Some (quoted "40000000000000000000.00") |} ];
  raw_total := Some (quoted "25.26")
|}.

(** That receipt as the decoders build it. *)
Definition overflow_receipt : Receipt := {|
  Receipt_Retailer := "M&M Corner Market";
  Receipt_PurchaseDate := {| Year := 2022; Month := 3; Day := 20; Hour := 0; Minute := 0 |};
  Receipt_PurchaseTime := {| Year := 0; Month := 1; Day := 1; Hour := 14; Minute := 33 |};
  Receipt_Items := [ {| Item_Description := "abc";
                        Item_Price := S754_finite false 4882812500000000 13 |};
                     {| Item_Description := "abc";
                        Item_Price := S754_finite false 4882812500000000 13 |} ];
  Receipt_Total := amount_25_26
|}.

(** The shape [H:MM] or [HH:MM] of a clock text, with the numbers its digits
    spell. *)
Definition clock_layout (s : string) (hour minute : Z) : Prop :=
  exists (h : list ascii) (m0 m1 : ascii),
    list_ascii_of_string s = h ++ [":"; m0; m1]%char
    /\ (length h = 1 \/ length h = 2)%nat
    /\ forallb is_ascii_digit (h ++ [m0; m1]) = true
    /\ hour = decimal_value 0 h /\ minute = decimal_value 0 [m0; m1].

(** The shape [YYYY-MM-DD] of a date text, with the numbers its digits
    spell. *)
Definition date_fields (s : string) (year month day : Z) : Prop :=
  exists y0 y1 y2 y3 m0 m1 d0 d1 : ascii,
    list_ascii_of_string s = [y0; y1; y2; y3; "-"; m0; m1; "-"; d0; d1]%char
    /\ forallb is_ascii_digit [y0; y1; y2; y3; m0; m1; d0; d1] = true
    /\ year = decimal_value 0 [y0; y1; y2; y3]
    /\ month = decimal_value 0 [m0; m1]
    /\ day = decimal_value 0 [d0; d1].

(** The amount a numeral writes, in hundredths: the number its digits spell
    when the point is left out. *)
Definition cents (s : string) : Z :=
  decimal_value 0 (List.filter is_ascii_digit (list_ascii_of_string s)).

(** The [float64] 1. *)
Definition const_1 : float64 := S754_finite false 4503599627370496 (-52).

(** The amount 100.00. *)
Definition amount_100_00 : Amount := S754_finite false 7036874417766400 (-46).

(** A receipt with other items, and one with another total. *)
Definition with_items (r : Receipt) (items : list Item) : Receipt := {|
  Receipt_Retailer := Receipt_Retailer r;
  Receipt_PurchaseDate := Receipt_PurchaseDate r;
  Receipt_PurchaseTime := Receipt_PurchaseTime r;
  Receipt_Items := items;
  Receipt_Total := Receipt_Total r
|}.

Definition with_total (r : Receipt) (total : Amount) : Receipt := {|
  Receipt_Retailer := Receipt_Retailer r;
  Receipt_PurchaseDate := Receipt_PurchaseDate r;
  Receipt_PurchaseTime := Receipt_PurchaseTime r;
  Receipt_Items := Receipt_Items r;
  Receipt_Total := total
|}.

(** The document that gives no member, and the receipt decoded from it:
    every field at the zero value of its type. *)
Definition empty_raw : RawReceipt := {|
  raw_retailer := None; raw_purchaseDate := None; raw_purchaseTime := None;
  raw_items := None; raw_total := None
|}.

Definition empty_receipt : Receipt := {|
  Receipt_Retailer := EmptyString;
  Receipt_PurchaseDate := zero_Time;
  Receipt_PurchaseTime := zero_Time;
  Receipt_Items := [];
  Receipt_Total := S754_zero false
|}.

(** A text without [/]. *)
Definition no_slash (s : string) : bool :=
  forallb (fun c => negb (Ascii.eqb c "/")) (list_ascii_of_string s).

(** The handler ran into a run-time panic. *)
Definition panics (w : Response) : bool :=
  match w with Panic => true | _ => false end.

(** The bytes of the document of [target_raw], and a scan that knows this
    one document, to evaluate examples with. *)
Definition target_json : string :=
  "{" +:+ quoted "retailer" +:+ ":" +:+ quoted "Target" +:+ ","
  +:+ quoted "purchaseDate" +:+ ":" +:+ quoted "2022-01-01" +:+ ","
  +:+ quoted "purchaseTime" +:+ ":" +:+ quoted "13:01" +:+ ","
  +:+ quoted "items" +:+ ":[{"
  +:+ quoted "shortDescription" +:+ ":" +:+ quoted "Mountain Dew 12PK" +:+ ","
  +:+ quoted "price" +:+ ":" +:+ quoted "6.49" +:+ "},{"
  +:+ quoted "shortDescription" +:+ ":" +:+ quoted "Emils Cheese Pizza" +:+ ","
  +:+ quoted "price" +:+ ":" +:+ quoted "12.25" +:+ "}],"
  +:+ quoted "total" +:+ ":" +:+ quoted "35.35" +:+ "}".

Definition example_json_members (body : string) : option RawReceipt :=
  if String.eqb body target_json then Some target_raw else None.


Definition example_get (id : string) : Request :=
  {| Method := "GET"; URL_Path := "/receipts/" +:+ id +:+ "/points";
     Body := Ok EmptyString |}.

(** * Properties *)

(** Facts about the byte classes are linear arithmetic on byte values. *)
Ltac unfold_classes :=
  unfold class_retailer, class_description, class_word, class_space, class_digit,
    is_ascii_alnum, is_ascii_digit, is_ascii_letter, is_ascii_upper, is_ascii_lower,
    is_ascii, asciiSpace, in_range in *.

Ltac class_arith := unfold_classes; lia.

(** ** Quoted strings *)

Lemma len_nonneg (s : string) : 0 <= len s.
Proof. unfold len. lia. Qed.

Lemma length_append (s t : string) :
  String.length (s +:+ t) = (String.length s + String.length t)%nat.
Proof. induction s as [|c s IH]; simpl; [reflexivity | now rewrite IH]. Qed.

Lemma len_quoted (s : string) : len (quoted s) = len s + 2.
Proof. unfold len, quoted. simpl. rewrite length_append. simpl. lia. Qed.

Lemma get_append_end (s : string) (c : ascii) (t : string) :
  String.get (String.length s) (s +:+ String c t) = Some c.
Proof. induction s as [|a s IH]; simpl; [reflexivity | exact IH]. Qed.

Lemma substring_append_start (s t : string) :
  substring 0 (String.length s) (s +:+ t) = s.
Proof.
  induction s as [|a s IH]; simpl.
  - destruct t; reflexivity.
  - now rewrite IH.
Qed.

Lemma isQuotedString_quoted (s : string) : isQuotedString (quoted s) = true.
Proof.
  unfold isQuotedString. rewrite len_quoted.
  assert (H2 : (2 <=? len s + 2) = true) by (pose proof (len_nonneg s); lia).
  rewrite H2. simpl.
  unfold byte_is, byte_at.
  assert (Hlt : (len s + 2 - 1 <? 0) = false) by (pose proof (len_nonneg s); lia).
  rewrite Hlt.
  replace (Z.to_nat (len s + 2 - 1)) with (S (String.length s)) by (unfold len; lia).
  unfold quoted. simpl. rewrite get_append_end.
  apply Ascii.eqb_refl.
Qed.

Lemma obtainQuotedString_quoted (s : string) : obtainQuotedString (quoted s) = Ok s.
Proof.
  unfold obtainQuotedString. rewrite isQuotedString_quoted. simpl.
  unfold slice. rewrite len_quoted.
  replace (Z.to_nat (len s + 2 - 1 - 1)) with (String.length s) by (unfold len; lia).
  unfold quoted. simpl. now rewrite substring_append_start.
Qed.

Lemma byte_is_false (s : string) (i : Z) (c : ascii) :
  byte_at s i <> Some c -> byte_is s i c = false.
Proof.
  unfold byte_is. destruct (byte_at s i) as [b|]; [|reflexivity].
  intros H. destruct (Ascii.eqb b c) eqn:E; [|reflexivity].
  apply Ascii.eqb_eq in E. congruence.
Qed.

Lemma byte_is_true (s : string) (i : Z) (c : ascii) :
  byte_is s i c = true -> byte_at s i = Some c.
Proof.
  unfold byte_is. destruct (byte_at s i) as [b|]; [|discriminate].
  intros E. apply Ascii.eqb_eq in E. now subst.
Qed.

Lemma not_quoted_iff (data : string) :
  not_quoted data <-> isQuotedString data = false.
Proof.
  unfold not_quoted, isQuotedString. split.
  - intros [H | [H | H]].
    + replace (2 <=? len data) with false by lia. reflexivity.
    + rewrite (byte_is_false _ _ _ H). now rewrite andb_false_r.
    + rewrite (byte_is_false _ _ _ H). now rewrite andb_false_r.
  - intros H. destruct (2 <=? len data) eqn:E1; [|left; lia].
    destruct (byte_is data 0 dquote) eqn:E2.
    + destruct (byte_is data (len data - 1) dquote) eqn:E3; [discriminate|].
      right. right. intros Hc. unfold byte_is in E3. rewrite Hc in E3.
      now rewrite Ascii.eqb_refl in E3.
    + right. left. intros Hc. unfold byte_is in E2. rewrite Hc in E2.
      now rewrite Ascii.eqb_refl in E2.
Qed.

Lemma obtainQuotedString_not_quoted (data : string) :
  not_quoted data -> obtainQuotedString data = Err ErrMalformedField.
Proof.
  intros H. apply not_quoted_iff in H. unfold obtainQuotedString. now rewrite H.
Qed.

Lemma obtainQuotedString_Ok (data str : string) :
  obtainQuotedString data = Ok str -> isQuotedString data = true.
Proof.
  unfold obtainQuotedString. destruct (isQuotedString data); [reflexivity | discriminate].
Qed.

(** ** The matcher decides the language of the pattern *)

Lemma lang_class_inv (f : ascii -> bool) (s : list ascii) :
  lang (Class f) s -> exists a, s = [a] /\ f a = true.
Proof. intros H. inversion H; subst. eauto. Qed.

Lemma lang_cat_inv (r1 r2 : regex) (s : list ascii) :
  lang (Cat r1 r2) s -> exists s1 s2, s = s1 ++ s2 /\ lang r1 s1 /\ lang r2 s2.
Proof. intros H. inversion H; subst. eauto. Qed.

Lemma lang_alt_inv (r1 r2 : regex) (s : list ascii) :
  lang (Alt r1 r2) s -> lang r1 s \/ lang r2 s.
Proof. intros H. inversion H; subst; auto. Qed.

Lemma lang_star_inv (r : regex) (a : ascii) (s : list ascii) :
  lang (Star r) (a :: s) ->
  exists s1 s2, s = s1 ++ s2 /\ lang r (a :: s1) /\ lang (Star r) s2.
Proof. intros H. inversion H; subst. eauto. Qed.

Lemma lang_cat_cons (r1 r2 : regex) (a : ascii) (s1 s2 : list ascii) :
  lang r1 (a :: s1) -> lang r2 s2 -> lang (Cat r1 r2) (a :: s1 ++ s2).
Proof. intros H1 H2. change (a :: s1 ++ s2) with ((a :: s1) ++ s2). now constructor. Qed.

Lemma lang_cat_nil_l (r1 r2 : regex) (s : list ascii) :
  lang r1 [] -> lang r2 s -> lang (Cat r1 r2) s.
Proof. intros H1 H2. change s with ([] ++ s). now constructor. Qed.

Lemma nullable_lang (r : regex) : nullable r = true <-> lang r [].
Proof.
  induction r as [| | f | r1 IH1 r2 IH2 | r1 IH1 r2 IH2 | r IH]; simpl.
  - split; [discriminate | intros H; inversion H].
  - split; [intros _; constructor | reflexivity].
  - split; [discriminate | intros H; inversion H].
  - rewrite andb_true_iff, IH1, IH2. split.
    + intros [H1 H2]. now apply lang_cat_nil_l.
    + intros H. apply lang_cat_inv in H as (s1 & s2 & E & H1 & H2).
      symmetry in E. apply app_eq_nil in E as [-> ->]. now split.
  - rewrite orb_true_iff, IH1, IH2. split.
    + intros [H | H]; [now apply lang_alt_l | now apply lang_alt_r].
    + apply lang_alt_inv.
  - split; [intros _; constructor | reflexivity].
Qed.

Lemma deriv_lang (r : regex) (a : ascii) (s : list ascii) :
  lang (deriv a r) s <-> lang r (a :: s).
Proof.
  revert s.
  induction r as [| | f | r1 IH1 r2 IH2 | r1 IH1 r2 IH2 | r IH]; intros s; simpl.
  - split; intros H; inversion H.
  - split; intros H; inversion H.
  - destruct (f a) eqn:Ef; split; intros H.
    + inversion H; subst. now constructor.
    + apply lang_class_inv in H as (b & E & Hb). injection E as -> ->. constructor.
    + inversion H.
    + apply lang_class_inv in H as (b & E & Hb). injection E as -> ->. congruence.
  - assert (Hl : lang (Cat (deriv a r1) r2) s -> lang (Cat r1 r2) (a :: s)).
    { intros H. apply lang_cat_inv in H as (s1 & s2 & -> & H1 & H2).
      apply lang_cat_cons; [now apply IH1 | assumption]. }
    assert (Hr : lang (Cat r1 r2) (a :: s) ->
                 lang (Cat (deriv a r1) r2) s \/ (lang r1 [] /\ lang (deriv a r2) s)).
    { intros H. apply lang_cat_inv in H as (s1 & s2 & E & H1 & H2).
      destruct s1 as [|b s1]; simpl in E.
      - right. subst s2. split; [assumption | now apply IH2].
      - injection E as -> ->. left. constructor; [now apply IH1 | assumption]. }
    destruct (nullable r1) eqn:En; split.
    + intros H. apply lang_alt_inv in H as [H | H].
      * now apply Hl.
      * apply lang_cat_nil_l; [now apply nullable_lang | now apply IH2].
    + intros H. destruct (Hr H) as [H1 | [_ H2]].
      * now apply lang_alt_l.
      * now apply lang_alt_r.
    + exact Hl.
    + intros H. destruct (Hr H) as [H1 | [H1 _]]; [assumption|].
      apply nullable_lang in H1. congruence.
  - split; intros H.
    + apply lang_alt_inv in H as [H | H].
      * apply lang_alt_l. now apply IH1.
      * apply lang_alt_r. now apply IH2.
    + apply lang_alt_inv in H as [H | H].
      * apply lang_alt_l. now apply IH1.
      * apply lang_alt_r. now apply IH2.
  - split; intros H.
    + apply lang_cat_inv in H as (s1 & s2 & -> & H1 & H2).
      constructor; [now apply IH | assumption].
    + apply lang_star_inv in H as (s1 & s2 & -> & H1 & H2).
      constructor; [now apply IH | assumption].
Qed.

Lemma match_bytes_lang (r : regex) (s : list ascii) :
  match_bytes r s = true <-> lang r s.
Proof.
  revert r. induction s as [|a s IH]; intros r; simpl.
  - apply nullable_lang.
  - rewrite IH. apply deriv_lang.
Qed.

Lemma lang_star_class (f : ascii -> bool) (s : list ascii) :
  lang (Star (Class f)) s <-> forallb f s = true.
Proof.
  split.
  - induction s as [s IH] using (induction_ltof1 _ (@length ascii)); unfold ltof in IH.
    destruct s as [|a s]; [reflexivity|].
    intros H. apply lang_star_inv in H as (s1 & s2 & -> & H1 & H2).
    apply lang_class_inv in H1 as (b & E & Hb). injection E as -> ->.
    simpl. rewrite Hb. simpl. apply IH; [simpl; lia | assumption].
  - induction s as [|a s IH]; simpl; intros H.
    + constructor.
    + apply andb_true_iff in H as [Ha Hs].
      apply (lang_star_cons (Class f) a [] s); [now constructor | now apply IH].
Qed.

Lemma lang_plus_class (f : ascii -> bool) (s : list ascii) :
  lang (Plus (Class f)) s <-> s <> [] /\ forallb f s = true.
Proof.
  unfold Plus. split.
  - intros H. apply lang_cat_inv in H as (s1 & s2 & -> & H1 & H2).
    apply lang_class_inv in H1 as (b & -> & Hb). simpl. split; [discriminate|].
    apply lang_star_class in H2. now rewrite Hb, H2.
  - intros [Hne H]. destruct s as [|a s]; [congruence|]. simpl in H.
    apply andb_true_iff in H as [Ha Hs].
    apply (lang_cat (Class f) (Star (Class f)) [a] s);
      [now constructor | now apply lang_star_class].
Qed.

Lemma MatchString_plus_class (f : ascii -> bool) (s : string) :
  MatchString (Plus (Class f)) s = true
  <-> s <> EmptyString /\ forallb f (list_ascii_of_string s) = true.
Proof.
  unfold MatchString. rewrite match_bytes_lang, lang_plus_class.
  destruct s; simpl; split; intros [H1 H2]; split; try assumption; congruence.
Qed.

(** ** The formats the patterns and the date layout accept *)

Lemma byte_val_inj (c : ascii) (n : N) :
  byte_val c = Z.of_N n -> c = ascii_of_N n.
Proof.
  unfold byte_val. intros H. apply N2Z.inj in H. rewrite <- H.
  symmetry. apply ascii_N_embedding.
Qed.

Lemma class_dot_eq (c : ascii) : class_dot c = true <-> c = "."%char.
Proof.
  unfold class_dot. split.
  - intros H. apply Z.eqb_eq in H. now apply (byte_val_inj c 46).
  - now intros ->.
Qed.

Lemma lang_eps_inv (s : list ascii) : lang Eps s -> s = [].
Proof. intros H. now inversion H. Qed.

Lemma MatchString_twoDecimalFloatRegex (s : string) :
  MatchString twoDecimalFloatRegex s = true <-> two_decimal_numeral s.
Proof.
  unfold MatchString, twoDecimalFloatRegex, two_decimal_numeral.
  rewrite match_bytes_lang. simpl Repeat. split.
  - intros H.
    apply lang_cat_inv in H as (i & s2 & -> & Hi & H).
    apply lang_cat_inv in H as (s3 & s4 & -> & Hdot & H).
    apply lang_cat_inv in H as (s5 & s6 & -> & Hd1 & H).
    apply lang_cat_inv in H as (s7 & s8 & -> & Hd2 & H).
    apply lang_eps_inv in H as ->.
    apply lang_class_inv in Hdot as (c & -> & Hc). apply class_dot_eq in Hc as ->.
    apply lang_class_inv in Hd1 as (d1 & -> & Hd1).
    apply lang_class_inv in Hd2 as (d2 & -> & Hd2).
    apply lang_plus_class in Hi as [Hne Hi].
    exists i, d1, d2. repeat split; assumption.
  - intros (i & d1 & d2 & -> & Hne & Hi & Hd1 & Hd2).
    constructor; [now apply lang_plus_class|].
    apply (lang_cat _ _ ["."%char] [d1; d2]); [now constructor|].
    apply (lang_cat _ _ [d1] [d2]); [now constructor|].
    apply (lang_cat _ _ [d2] []); [now constructor | constructor].
Qed.

Lemma getnum_fixed (s : list ascii) (n : Z) (rest : list ascii) :
  getnum s true = Some (n, rest) ->
  exists c0 c1, s = c0 :: c1 :: rest
                /\ is_ascii_digit c0 = true /\ is_ascii_digit c1 = true
                /\ n = digit_val c0 * 10 + digit_val c1.
Proof.
  destruct s as [|c0 [|c1 s]]; simpl; try discriminate.
  - destruct (is_ascii_digit c0); discriminate.
  - destruct (is_ascii_digit c0) eqn:E0; [|discriminate].
    destruct (is_ascii_digit c1) eqn:E1; [|discriminate].
    intros H. injection H as <- <-. exists c0, c1. auto.
Qed.

Lemma skip1_Some (s : list ascii) (c : ascii) (rest : list ascii) :
  skip1 s c = Some rest -> s = c :: rest.
Proof.
  destruct s as [|c0 s]; simpl; [discriminate|].
  destruct (Ascii.eqb c0 c) eqn:E; [|discriminate].
  apply Ascii.eqb_eq in E. intros H. injection H as <-. now subst.
Qed.

Lemma time_Parse_date_layout (s : string) (t : time_Time) :
  time_Parse_date s = Some t -> date_layout s.
Proof.
  unfold time_Parse_date, date_layout.
  destruct (list_ascii_of_string s) as [|y0 [|y1 [|y2 [|y3 v1]]]]; try discriminate.
  destruct (forallb is_ascii_digit [y0; y1; y2; y3]) eqn:Ey; [|discriminate].
  cbn [negb].
  destruct (skip1 v1 "-"%char) as [v2|] eqn:E1; [|discriminate].
  apply skip1_Some in E1 as ->.
  destruct (getnum v2 true) as [[month v3]|] eqn:E2; [|discriminate].
  apply getnum_fixed in E2 as (m0 & m1 & -> & Hm0 & Hm1 & _).
  destruct ((month <=? 0) || (12 <? month)); [discriminate|].
  destruct (skip1 v3 "-"%char) as [v4|] eqn:E3; [|discriminate].
  apply skip1_Some in E3 as ->.
  destruct (getnum v4 true) as [[day v5]|] eqn:E4; [|discriminate].
  apply getnum_fixed in E4 as (d0 & d1 & -> & Hd0 & Hd1 & _).
  destruct v5 as [|c v5]; [|discriminate].
  intros _. exists y0, y1, y2, y3, m0, m1, d0, d1. split; [reflexivity|].
  simpl in Ey |- *. rewrite !andb_true_iff in Ey.
  destruct Ey as (-> & -> & -> & -> & _). now rewrite Hm0, Hm1, Hd0, Hd1.
Qed.

(** ** What the decoders accept *)

Lemma Retailer_UnmarshalJSON_quoted (s : string) :
  Retailer_UnmarshalJSON (quoted s) =
  if MatchString retailerRegex s then Ok s else Err ErrInvalidRetailer.
Proof.
  unfold Retailer_UnmarshalJSON. rewrite obtainQuotedString_quoted. simpl.
  now destruct (MatchString retailerRegex s).
Qed.

Lemma Description_UnmarshalJSON_quoted (s : string) :
  Description_UnmarshalJSON (quoted s) =
  if MatchString descriptionRegex s then Ok s else Err ErrInvalidDescription.
Proof.
  unfold Description_UnmarshalJSON. rewrite obtainQuotedString_quoted. simpl.
  now destruct (MatchString descriptionRegex s).
Qed.

Lemma Amount_UnmarshalJSON_quoted (s : string) :
  Amount_UnmarshalJSON (quoted s) =
  if MatchString twoDecimalFloatRegex s then
    match strconv_ParseFloat s with
    | Err _ => Err ErrAmountNotFloat
    | Ok value => Ok value
    end
  else Err ErrInvalidAmount.
Proof.
  unfold Amount_UnmarshalJSON. rewrite obtainQuotedString_quoted. simpl.
  now destruct (MatchString twoDecimalFloatRegex s).
Qed.

Lemma Date_UnmarshalJSON_quoted (s : string) :
  Date_UnmarshalJSON (quoted s) =
  match time_Parse_date s with
  | None => Err ErrInvalidDate
  | Some parsedDate => Ok parsedDate
  end.
Proof.
  unfold Date_UnmarshalJSON. now rewrite obtainQuotedString_quoted.
Qed.

Lemma forallb_false_In {A : Type} (f : A -> bool) (l : list A) (x : A) :
  In x l -> f x = false -> forallb f l = false.
Proof.
  intros Hin Hx. destruct (forallb f l) eqn:E; [|reflexivity].
  rewrite forallb_forall in E. specialize (E x Hin). congruence.
Qed.

Lemma Retailer_rejects_byte (s : string) (c : ascii) :
  In c (list_ascii_of_string s) -> class_retailer c = false ->
  Retailer_UnmarshalJSON (quoted s) = Err ErrInvalidRetailer.
Proof.
  intros Hin Hc. rewrite Retailer_UnmarshalJSON_quoted.
  destruct (MatchString retailerRegex s) eqn:E; [|reflexivity].
  apply MatchString_plus_class in E as [_ E].
  now rewrite (forallb_false_In _ _ _ Hin Hc) in E.
Qed.

Lemma Amount_rejects_format (s : string) :
  ~ two_decimal_numeral s -> Amount_UnmarshalJSON (quoted s) = Err ErrInvalidAmount.
Proof.
  intros H. rewrite Amount_UnmarshalJSON_quoted.
  destruct (MatchString twoDecimalFloatRegex s) eqn:E; [|reflexivity].
  now apply MatchString_twoDecimalFloatRegex in E.
Qed.

Lemma Date_rejects_layout (s : string) :
  ~ date_layout s -> Date_UnmarshalJSON (quoted s) = Err ErrInvalidDate.
Proof.
  intros H. rewrite Date_UnmarshalJSON_quoted.
  destruct (time_Parse_date s) as [t|] eqn:E; [|reflexivity].
  now apply time_Parse_date_layout in E.
Qed.

Lemma list_ascii_of_string_append (s t : string) :
  list_ascii_of_string (s +:+ t) = list_ascii_of_string s ++ list_ascii_of_string t.
Proof. induction s as [|c s IH]; simpl; [reflexivity | now rewrite IH]. Qed.

Lemma bind_Ok {A B : Type} (x : result A) (f : A -> result B) (b : B) :
  bind x f = Ok b -> exists a, x = Ok a /\ f a = Ok b.
Proof. destruct x as [a|e]; simpl; [eauto | discriminate]. Qed.

Lemma Item_Unmarshal_Ok (raw : RawItem) (i : Item) :
  Item_Unmarshal raw = Ok i ->
  member Description_UnmarshalJSON EmptyString (raw_shortDescription raw)
  = Ok (Item_Description i)
  /\ member Amount_UnmarshalJSON (S754_zero false) (raw_price raw) = Ok (Item_Price i).
Proof.
  unfold Item_Unmarshal. intros H.
  apply bind_Ok in H as (d & Hd & H). apply bind_Ok in H as (p & Hp & H).
  injection H as <-. now split.
Qed.

Lemma Items_Unmarshal_Ok (raws : list RawItem) (items : list Item) :
  Items_Unmarshal raws = Ok items ->
  Forall2 (fun raw i => Item_Unmarshal raw = Ok i) raws items.
Proof.
  revert items. induction raws as [|raw raws IH]; simpl; intros items H.
  - injection H as <-. constructor.
  - apply bind_Ok in H as (i & Hi & H). apply bind_Ok in H as (rest & Hrest & H).
    injection H as <-. constructor; [assumption | now apply IH].
Qed.

Lemma Receipt_Unmarshal_Ok (raw : RawReceipt) (r : Receipt) :
  Receipt_Unmarshal raw = Ok r ->
  member Retailer_UnmarshalJSON EmptyString (raw_retailer raw) = Ok (Receipt_Retailer r)
  /\ member Date_UnmarshalJSON zero_Time (raw_purchaseDate raw) = Ok (Receipt_PurchaseDate r)
  /\ member Time_UnmarshalJSON zero_Time (raw_purchaseTime raw) = Ok (Receipt_PurchaseTime r)
  /\ match raw_items raw with
     | Some raws => Items_Unmarshal raws
     | None => Ok []
     end = Ok (Receipt_Items r)
  /\ member Amount_UnmarshalJSON (S754_zero false) (raw_total raw) = Ok (Receipt_Total r).
Proof.
  unfold Receipt_Unmarshal. intros H.
  apply bind_Ok in H as (x1 & H1 & H). apply bind_Ok in H as (x2 & H2 & H).
  apply bind_Ok in H as (x3 & H3 & H). apply bind_Ok in H as (x4 & H4 & H).
  apply bind_Ok in H as (x5 & H5 & H). injection H as <-. simpl. auto.
Qed.

Lemma rejected_not_Ok {A : Type} (decode : string -> result A) (zero : A)
    (m : option string) (a : A) :
  rejected decode m -> member decode zero m = Ok a -> False.
Proof.
  intros (data & -> & H) E. simpl in E. now rewrite E in H.
Qed.

Lemma field_rejected_no_receipt (raw : RawReceipt) :
  field_rejected raw -> is_ok (Receipt_Unmarshal raw) = false.
Proof.
  intros H. destruct (Receipt_Unmarshal raw) as [r|e] eqn:E; [|reflexivity].
  exfalso. apply Receipt_Unmarshal_Ok in E as (H1 & H2 & H3 & H4 & H5).
  destruct H as [H | [H | [H | [H | (raws & i & Hraws & Hin & H)]]]];
    eauto using rejected_not_Ok.
  rewrite Hraws in H4. apply Items_Unmarshal_Ok in H4.
  assert (Hex : exists it, Item_Unmarshal i = Ok it).
  { clear - H4 Hin. induction H4 as [|x y l l' Hxy _ IH]; [destruct Hin|].
    destruct Hin as [-> | Hin]; [eauto | now apply IH]. }
  destruct Hex as (it & Hit). apply Item_Unmarshal_Ok in Hit as [Hd Hp].
  destruct H as [H | H]; eauto using rejected_not_Ok.
Qed.

(** ** C7: fields that are not quoted strings *)

(** C7. A raw field value that is not a quoted string (fewer than two bytes,
    or no double quote at its first or last byte) makes each of the five
    string-typed decoders (retailer, date, time, amount, description) fail
    with the malformed-field error, whatever its content: the check comes
    before the pattern or layout of the field is looked at. *)
Theorem unquoted_field_is_malformed (data : string) :
  not_quoted data ->
  Retailer_UnmarshalJSON data = Err ErrMalformedField
  /\ Date_UnmarshalJSON data = Err ErrMalformedField
  /\ Time_UnmarshalJSON data = Err ErrMalformedField
  /\ Amount_UnmarshalJSON data = Err ErrMalformedField
  /\ Description_UnmarshalJSON data = Err ErrMalformedField.
Proof.
  intros H. apply obtainQuotedString_not_quoted in H.
  unfold Retailer_UnmarshalJSON, Date_UnmarshalJSON, Time_UnmarshalJSON,
    Amount_UnmarshalJSON, Description_UnmarshalJSON.
  rewrite H. simpl. repeat split.
Qed.

Lemma unquoted_field_is_malformed_witness :
  not_quoted "12.50"
  /\ Amount_UnmarshalJSON "12.50" = Err ErrMalformedField
  /\ Date_UnmarshalJSON "12.50" = Err ErrMalformedField.
Proof.
  assert (H : not_quoted "12.50").
  { right. left. vm_compute. discriminate. }
  split; [exact H|].
  destruct (unquoted_field_is_malformed "12.50" H) as (_ & Hd & _ & Ha & _).
  split; assumption.
Defined.

(** ** C8: rejection of ill-formed amounts, retailers and dates *)

(** C8. The validator refuses, with the error of the field's format: every
    amount that is not made of digits, a point and exactly two digits, such
    as 3.5; every retailer name with a byte outside letters, digits,
    underscore, whitespace, ampersand and hyphen, such as one that holds an
    at sign; every purchase date that is not of the shape YYYY-MM-DD, such as
    01-01-2022.  A document with a rejected field yields no receipt. *)
Theorem invalid_input_rejected :
  (forall s, ~ two_decimal_numeral s ->
             Amount_UnmarshalJSON (quoted s) = Err ErrInvalidAmount)
  /\ (forall s c, In c (list_ascii_of_string s) -> class_retailer c = false ->
                  Retailer_UnmarshalJSON (quoted s) = Err ErrInvalidRetailer)
  /\ (forall s, ~ date_layout s ->
                Date_UnmarshalJSON (quoted s) = Err ErrInvalidDate)
  /\ Amount_UnmarshalJSON (quoted "3.5") = Err ErrInvalidAmount
  /\ (forall s t, Retailer_UnmarshalJSON (quoted (s +:+ "@" +:+ t)) = Err ErrInvalidRetailer)
  /\ Date_UnmarshalJSON (quoted "01-01-2022") = Err ErrInvalidDate
  /\ (forall raw, field_rejected raw -> is_ok (Receipt_Unmarshal raw) = false).
Proof.
  split; [exact Amount_rejects_format|].
  split; [exact Retailer_rejects_byte|].
  split; [exact Date_rejects_layout|].
  split; [reflexivity|].
  split.
  { intros s t. apply (Retailer_rejects_byte _ "@"%char); [|reflexivity].
    rewrite list_ascii_of_string_append. apply in_or_app. right. now left. }
  split; [reflexivity|].
  exact field_rejected_no_receipt.
Qed.

Lemma invalid_input_rejected_witness :
  ~ two_decimal_numeral "3.5"
  /\ Amount_UnmarshalJSON (quoted "3.5") = Err ErrInvalidAmount
  /\ ~ date_layout "01-01-2022"
  /\ Date_UnmarshalJSON (quoted "01-01-2022") = Err ErrInvalidDate
  /\ Retailer_UnmarshalJSON (quoted "Tar@get") = Err ErrInvalidRetailer.
Proof.
  assert (Ha : ~ two_decimal_numeral "3.5").
  { intros H. apply MatchString_twoDecimalFloatRegex in H. vm_compute in H. discriminate. }
  assert (Hd : ~ date_layout "01-01-2022").
  { intros (y0 & y1 & y2 & y3 & m0 & m1 & d0 & d1 & E & H).
    simpl in E. inversion E. }
  destruct invalid_input_rejected as (Hamount & Hretailer & Hdate & _).
  split; [exact Ha|]. split; [exact (Hamount "3.5" Ha)|].
  split; [exact Hd|]. split; [exact (Hdate "01-01-2022" Hd)|].
  apply (Hretailer "Tar@get" "@"%char); [|reflexivity].
  simpl. tauto.
Defined.

(** ** The record store *)

Section Store.

Variable rt : GoRuntime.

Lemma receipt_key_inj (a b : string) : receipt_key a = receipt_key b -> a = b.
Proof. unfold receipt_key. simpl. intros H. now injection H. Qed.

Lemma getReceiptPoints_lookup (db : xDB) (receiptId : string) :
  getReceiptPoints db receiptId =
  match Data db !! receipt_key receiptId with
  | Some (any_ReceiptRow receiptRow) => Ok (Points receiptRow)
  | Some _ => Err ErrCorrupt
  | None => Err ErrNotFound
  end.
Proof. reflexivity. Qed.

Lemma writeReceipt_Data (db : xDB) (uuid : string) (r : Receipt) :
  Data (snd (writeReceipt rt db uuid r)) =
  <[receipt_key uuid :=
      any_ReceiptRow {| Row_Receipt := r; ReceiptId := uuid;
                        Points := computeReceiptPoints rt r |}]> (Data db).
Proof. reflexivity. Qed.

Lemma getReceiptPoints_write_same (db : xDB) (uuid : string) (r : Receipt) :
  getReceiptPoints (snd (writeReceipt rt db uuid r)) uuid = Ok (computeReceiptPoints rt r).
Proof.
  rewrite getReceiptPoints_lookup, writeReceipt_Data.
  now rewrite lookup_insert_eq.
Qed.

Lemma getReceiptPoints_write_other (db : xDB) (uuid id : string) (r : Receipt) :
  uuid <> id ->
  getReceiptPoints (snd (writeReceipt rt db uuid r)) id = getReceiptPoints db id.
Proof.
  intros Hne. rewrite !getReceiptPoints_lookup, writeReceipt_Data.
  rewrite lookup_insert_ne; [reflexivity|].
  intros E. apply receipt_key_inj in E. contradiction.
Qed.

Lemma getReceiptPoints_writes_other
  (calls : list (string * Receipt)) (db : xDB) (id : string) :
  Forall (fun call => fst call <> id) calls ->
  getReceiptPoints (writeReceipts rt db calls) id = getReceiptPoints db id.
Proof.
  revert db. induction calls as [|[uuid r] calls IH]; intros db H; simpl.
  - reflexivity.
  - inversion H as [|? ? Hne Hrest]; subst. simpl in Hne.
    rewrite IH by assumption. now apply getReceiptPoints_write_other.
Qed.

(** Every value a reachable store holds is a row with the score of its
    receipt, under the key of an identifier that was returned. *)
Lemma reachable_rows (db : xDB) (ids : list string) :
  reachable rt db ids ->
  forall k v, Data db !! k = Some v ->
    exists row, v = any_ReceiptRow row
                /\ Points row = computeReceiptPoints rt (Row_Receipt row)
                /\ k = receipt_key (ReceiptId row) /\ In (ReceiptId row) ids.
Proof.
  induction 1 as [|db ids uuid r Hreach IH]; intros k v Hk.
  - simpl in Hk. now rewrite lookup_empty in Hk.
  - rewrite writeReceipt_Data in Hk.
    destruct (decide (receipt_key uuid = k)) as [<- | Hne].
    + rewrite lookup_insert_eq in Hk. injection Hk as <-.
      eexists. split; [reflexivity|]. simpl. auto.
    + rewrite lookup_insert_ne in Hk by assumption.
      destruct (IH k v Hk) as (row & -> & Hp & -> & Hin).
      exists row. simpl. auto.
Qed.

(** ** C1: a submitted receipt is found with its score *)

(** C1. Submitting a receipt returns an identifier, and looking that
    identifier up in the resulting store succeeds with exactly the value of
    the scoring function on the receipt; this holds for every receipt and
    every store, and it still holds after any further submissions whose
    identifiers differ from it. *)
Theorem submit_then_lookup
  (db : xDB) (uuid : string) (r : Receipt)
  (later : list (string * Receipt)) :
  Forall (fun call => fst call <> uuid) later ->
  exists id db',
    writeReceipt rt db uuid r = (Ok id, db')
    /\ getReceiptPoints db' id = Ok (computeReceiptPoints rt r)
    /\ getReceiptPoints (writeReceipts rt db' later) id = Ok (computeReceiptPoints rt r).
Proof.
  intros Hlater. exists uuid, (snd (writeReceipt rt db uuid r)).
  split; [reflexivity|].
  split; [apply getReceiptPoints_write_same|].
  rewrite getReceiptPoints_writes_other by assumption.
  apply getReceiptPoints_write_same.
Qed.

(** ** C6: unknown identifiers *)

(** C6. Looking up an identifier whose key holds no record fails with the
    not-found error, so no point value comes back; in a store reached by
    submissions, an identifier that no submission returned is not found, and
    a lookup that succeeds is for an identifier that one returned. *)
Theorem unknown_id_not_found :
  (forall db id, Data db !! receipt_key id = None ->
                 getReceiptPoints db id = Err ErrNotFound)
  /\ (forall db ids id, reachable rt db ids -> ~ In id ids ->
                        getReceiptPoints db id = Err ErrNotFound)
  /\ (forall db ids id p, reachable rt db ids ->
                          getReceiptPoints db id = Ok p -> In id ids).
Proof.
  assert (Hin : forall db ids id, reachable rt db ids ->
                  is_Some (Data db !! receipt_key id) -> In id ids).
  { intros db ids id Hreach [v Hv].
    destruct (reachable_rows db ids Hreach _ _ Hv) as (row & _ & _ & Hk & Hrow).
    apply receipt_key_inj in Hk. now subst. }
  split; [|split].
  - intros db id H. rewrite getReceiptPoints_lookup. now rewrite H.
  - intros db ids id Hreach Hnot. rewrite getReceiptPoints_lookup.
    destruct (Data db !! receipt_key id) as [v|] eqn:E; [|reflexivity].
    exfalso. apply Hnot. apply (Hin db); [assumption | now exists v].
  - intros db ids id p Hreach Hp. rewrite getReceiptPoints_lookup in Hp.
    destruct (Data db !! receipt_key id) as [v|] eqn:E; [|discriminate].
    apply (Hin db); [assumption | now exists v].
Qed.

(** ** C9: the corrupt branch *)

(** C9. In every store reached from the empty one by submissions, every value
    in the table is a receipt row that holds its receipt and the score
    computed for it; hence a lookup never fails with the corrupt error: it
    succeeds with a point total or fails with the not-found error. *)
Theorem corrupt_unreachable (db : xDB) (ids : list string) :
  reachable rt db ids ->
  (forall k v, Data db !! k = Some v ->
     exists row, v = any_ReceiptRow row
                 /\ Points row = computeReceiptPoints rt (Row_Receipt row))
  /\ (forall id, getReceiptPoints db id <> Err ErrCorrupt)
  /\ (forall id, (exists p, getReceiptPoints db id = Ok p)
                 \/ getReceiptPoints db id = Err ErrNotFound).
Proof.
  intros Hreach.
  assert (Hrows := reachable_rows db ids Hreach).
  split; [|split].
  - intros k v Hk. destruct (Hrows k v Hk) as (row & Hv & Hp & _). eauto.
  - intros id. rewrite getReceiptPoints_lookup.
    destruct (Data db !! receipt_key id) as [v|] eqn:E; [|discriminate].
    destruct (Hrows _ _ E) as (row & -> & _). discriminate.
  - intros id. rewrite getReceiptPoints_lookup.
    destruct (Data db !! receipt_key id) as [v|] eqn:E; [|now right].
    destruct (Hrows _ _ E) as (row & -> & _). left. eauto.
Qed.

End Store.

(** The corrupt branch is live code: a table that holds a value of another
    type, which no submission stores, takes it. *)
Lemma corrupt_branch_taken :
  getReceiptPoints {| Data := {[receipt_key "x" := any_other "string"]} |} "x" = Err ErrCorrupt.
Proof. rewrite getReceiptPoints_lookup. simpl. now rewrite lookup_singleton_eq. Qed.

(** ** 64-bit sums *)

Lemma wrap64_id (z : Z) : is_int64 z = true -> wrap64 z = z.
Proof.
  unfold is_int64, int64_min, int64_max, wrap64. intros H.
  apply andb_true_iff in H as [H1 H2].
  rewrite Z.mod_small; lia.
Qed.

Lemma wrap64_is_int64 (z : Z) : is_int64 (wrap64 z) = true.
Proof.
  unfold is_int64, int64_min, int64_max, wrap64.
  pose proof (Z.mod_pos_bound (z + 2 ^ 63) (2 ^ 64) ltac:(lia)). lia.
Qed.

Lemma wrap64_add_l (a b : Z) : wrap64 (wrap64 a + b) = wrap64 (a + b).
Proof.
  unfold wrap64. f_equal.
  replace ((a + 2 ^ 63) mod 2 ^ 64 - 2 ^ 63 + b + 2 ^ 63)
    with ((a + 2 ^ 63) mod 2 ^ 64 + b) by lia.
  rewrite Zplus_mod_idemp_l. f_equal. lia.
Qed.

Lemma wrap64_add_r (a b : Z) : wrap64 (a + wrap64 b) = wrap64 (a + b).
Proof. rewrite (Z.add_comm a), wrap64_add_l. f_equal. lia. Qed.

Lemma wrap64_idem (a : Z) : wrap64 (wrap64 a) = wrap64 a.
Proof. apply wrap64_id, wrap64_is_int64. Qed.

(** A loop that adds [g x] to an [int64] accumulator for the elements that
    satisfy [c] ends with the sum of those amounts, reduced modulo 2^64. *)
Lemma fold_add64 {A : Type} (c : A -> bool) (g : A -> Z) (l : list A) (a : Z) :
  fold_left (fun acc x => if c x then add64 acc (g x) else acc) l (wrap64 a) =
  wrap64 (a + sumZ (map (fun x => if c x then g x else 0) l)).
Proof.
  revert a. induction l as [|x l IH]; intros a; simpl.
  - f_equal. lia.
  - destruct (c x).
    + unfold add64 at 2. rewrite wrap64_add_l, IH. f_equal. lia.
    + rewrite IH. f_equal.
Qed.

Lemma sumZ_indicator {A : Type} (c : A -> bool) (l : list A) :
  sumZ (map (fun x => if c x then 1 else 0) l) = Z.of_nat (length (List.filter c l)).
Proof.
  induction l as [|x l IH]; [reflexivity|].
  cbn [map sumZ List.filter]. destruct (c x); cbn [length]; lia.
Qed.

Lemma sumZ_nonneg (l : list Z) : Forall (fun x => 0 <= x) l -> 0 <= sumZ l.
Proof. induction 1; simpl; lia. Qed.

(** ** The alphanumeric rule *)

Lemma range_runes_ascii (l : list ascii) :
  forallb is_ascii l = true ->
  range_runes 0 (map byte_val l) = map byte_val l.
Proof.
  induction l as [|c l IH]; simpl; [reflexivity|].
  intros H. apply andb_true_iff in H as [Hc Hl].
  unfold DecodeRune. unfold is_ascii in Hc. rewrite Hc. now rewrite IH.
Qed.

Lemma class_retailer_ascii (c : ascii) : class_retailer c = true -> is_ascii c = true.
Proof. class_arith. Qed.

Lemma class_description_ascii (c : ascii) : class_description c = true -> is_ascii c = true.
Proof. class_arith. Qed.

Lemma forallb_impl {A : Type} (f g : A -> bool) (l : list A) :
  (forall x, f x = true -> g x = true) -> forallb f l = true -> forallb g l = true.
Proof.
  intros Hfg. rewrite !forallb_forall. auto.
Qed.

Lemma Retailer_UnmarshalJSON_Ok (data : string) (s : Retailer) :
  Retailer_UnmarshalJSON data = Ok s ->
  s <> EmptyString /\ forallb class_retailer (list_ascii_of_string s) = true.
Proof.
  unfold Retailer_UnmarshalJSON. intros H. apply bind_Ok in H as (str & _ & H).
  destruct (MatchString retailerRegex str) eqn:E; simpl in H; [|discriminate].
  injection H as <-. now apply MatchString_plus_class.
Qed.

Lemma Description_UnmarshalJSON_Ok (data : string) (s : Description) :
  Description_UnmarshalJSON data = Ok s ->
  s <> EmptyString /\ forallb class_description (list_ascii_of_string s) = true.
Proof.
  unfold Description_UnmarshalJSON. intros H. apply bind_Ok in H as (str & _ & H).
  destruct (MatchString descriptionRegex str) eqn:E; simpl in H; [|discriminate].
  injection H as <-. now apply MatchString_plus_class.
Qed.

Lemma alphanumericRetailerPoints_count (rt : GoRuntime) (r : Receipt) :
  alphanumericRetailerPoints rt r =
  wrap64 (Z.of_nat (length (List.filter (is_alnum_rune rt) (runes_of (Receipt_Retailer r))))).
Proof.
  unfold alphanumericRetailerPoints.
  change 0 with (wrap64 0) at 1.
  rewrite (fold_add64 (is_alnum_rune rt) (fun _ => 1)).
  now rewrite sumZ_indicator.
Qed.

Lemma filter_length_le {A : Type} (f : A -> bool) (l : list A) :
  (length (List.filter f l) <= length l)%nat.
Proof. induction l as [|x l IH]; simpl; [lia | destruct (f x); simpl; lia]. Qed.

Lemma filter_alnum_ascii (rt : GoRuntime) (l : list ascii) :
  forallb is_ascii l = true ->
  length (List.filter (is_alnum_rune rt) (map byte_val l)) = length (List.filter is_ascii_alnum l).
Proof.
  induction l as [|c l IH]; simpl; [reflexivity|].
  intros H. apply andb_true_iff in H as [Hc Hl].
  assert (E : is_alnum_rune rt (byte_val c) = is_ascii_alnum c).
  { unfold is_alnum_rune, unicode_IsLetter, unicode_IsDigit. unfold is_ascii in Hc.
    now rewrite Hc. }
  rewrite E. destruct (is_ascii_alnum c); simpl; now rewrite IH.
Qed.

Lemma string_length_list (s : string) :
  String.length s = length (list_ascii_of_string s).
Proof. induction s as [|c s IH]; simpl; [reflexivity | now rewrite IH]. Qed.

Lemma alphanumericRetailerPoints_ascii (rt : GoRuntime) (r : Receipt) :
  forallb is_ascii (list_ascii_of_string (Receipt_Retailer r)) = true ->
  len (Receipt_Retailer r) <= int64_max ->
  alphanumericRetailerPoints rt r =
  Z.of_nat (length (List.filter is_ascii_alnum (list_ascii_of_string (Receipt_Retailer r)))).
Proof.
  intros Hascii Hlen. rewrite alphanumericRetailerPoints_count.
  unfold runes_of. rewrite range_runes_ascii by assumption.
  rewrite filter_alnum_ascii by assumption.
  apply wrap64_id.
  pose proof (filter_length_le is_ascii_alnum (list_ascii_of_string (Receipt_Retailer r))) as Hle.
  unfold len in Hlen. rewrite string_length_list in Hlen.
  unfold is_int64, int64_min, int64_max in *. lia.
Qed.

Lemma alphanumericRetailerPoints_MM_Corner_Market (rt : GoRuntime) (r : Receipt) :
  Receipt_Retailer r = "M&M Corner Market" -> alphanumericRetailerPoints rt r = 14.
Proof.
  intros Hr. rewrite alphanumericRetailerPoints_ascii; rewrite Hr.
  - reflexivity.
  - reflexivity.
  - vm_compute. discriminate.
Qed.

(** C3. The alphanumeric rule gives one point for each rune of the
    retailer name that is a letter or a digit (counted modulo 2^64); for a
    validated name, whose bytes are all ASCII, that is the number of bytes in
    [A-Za-z0-9], the other bytes the pattern admits (underscore, whitespace,
    ampersand, hyphen) giving none; and the name M&M Corner Market, which has
    14 letters, gives exactly 14. *)
Theorem alphanumeric_retailer_rule (rt : GoRuntime) :
  (forall r, alphanumericRetailerPoints rt r =
             wrap64 (Z.of_nat (length (List.filter (is_alnum_rune rt)
                                              (runes_of (Receipt_Retailer r))))))
  /\ (forall r data,
        Retailer_UnmarshalJSON data = Ok (Receipt_Retailer r) ->
        len (Receipt_Retailer r) <= int64_max ->
        alphanumericRetailerPoints rt r =
        Z.of_nat (length (List.filter is_ascii_alnum
                                 (list_ascii_of_string (Receipt_Retailer r)))))
  /\ (forall c, class_retailer c = true ->
                is_ascii_alnum c = false <->
                (class_space c = true \/ c = "_"%char \/ c = "&"%char \/ c = "-"%char))
  /\ (forall r, Receipt_Retailer r = "M&M Corner Market" ->
                alphanumericRetailerPoints rt r = 14).
Proof.
  split; [apply alphanumericRetailerPoints_count|].
  split.
  { intros r data Hok Hlen. apply alphanumericRetailerPoints_ascii; [|assumption].
    apply Retailer_UnmarshalJSON_Ok in Hok as [_ Hok].
    exact (forallb_impl _ _ _ class_retailer_ascii Hok). }
  split.
  { intros c Hc. split.
    - intros Hn.
      destruct (class_space c) eqn:Es; [now left | right].
      assert (Hv : byte_val c = 95 \/ byte_val c = 38 \/ byte_val c = 45).
      { revert Hc Hn Es. unfold class_retailer. intros Hc Hn Es.
        rewrite Es in Hc. class_arith. }
      destruct Hv as [Hv | [Hv | Hv]].
      + left. exact (byte_val_inj c 95 Hv).
      + right. left. exact (byte_val_inj c 38 Hv).
      + right. right. exact (byte_val_inj c 45 Hv).
    - intros [Hs | [-> | [-> | ->]]]; try reflexivity.
      class_arith. }
  apply alphanumericRetailerPoints_MM_Corner_Market.
Qed.

Lemma alphanumeric_retailer_rule_witness :
  Retailer_UnmarshalJSON (quoted "M&M Corner Market") = Ok "M&M Corner Market"
  /\ alphanumericRetailerPoints example_runtime
       {| Receipt_Retailer := "M&M Corner Market";
          Receipt_PurchaseDate := {| Year := 2022; Month := 3; Day := 20; Hour := 0; Minute := 0 |};
          Receipt_PurchaseTime := {| Year := 0; Month := 1; Day := 1; Hour := 14; Minute := 33 |};
          Receipt_Items := [];
          Receipt_Total := S754_zero false |} = 14.
Proof.
  split; [reflexivity|].
  destruct (alphanumeric_retailer_rule example_runtime) as (_ & Hvalid & _ & _).
  rewrite (Hvalid _ (quoted "M&M Corner Market")).
  - reflexivity.
  - reflexivity.
  - vm_compute. discriminate.
Defined.

(** That name does not give 15 points: it has 14 letters. *)
Lemma alphanumeric_retailer_not_15 :
  exists r, Receipt_Retailer r = "M&M Corner Market"
            /\ forall rt, alphanumericRetailerPoints rt r <> 15.
Proof.
  exists {| Receipt_Retailer := "M&M Corner Market";
            Receipt_PurchaseDate := {| Year := 2022; Month := 3; Day := 20; Hour := 0; Minute := 0 |};
            Receipt_PurchaseTime := {| Year := 0; Month := 1; Day := 1; Hour := 14; Minute := 33 |};
            Receipt_Items := [];
            Receipt_Total := S754_zero false |}.
  split; [reflexivity|].
  intros rt. rewrite alphanumericRetailerPoints_MM_Corner_Market by reflexivity.
  discriminate.
Qed.

(** ** Signs of rounded results *)

Lemma shr_1_nonneg (mrs : shr_record) : 0 <= shr_m mrs -> 0 <= shr_m (shr_1 mrs).
Proof.
  destruct mrs as [m r s]. simpl.
  destruct m as [|p|p]; [| destruct p | destruct p]; simpl; lia.
Qed.

Lemma iter_pos_invariant {A : Type} (P : A -> Prop) (f : A -> A) :
  (forall x, P x -> P (f x)) -> forall n x, P x -> P (SpecFloat.iter_pos f n x).
Proof.
  intros Hf. induction n as [n IH | n IH |]; intros x Hx; simpl; auto.
Qed.

Lemma shr_nonneg (mrs : shr_record) (e n : Z) :
  0 <= shr_m mrs -> 0 <= shr_m (fst (shr mrs e n)).
Proof.
  intros H. unfold shr. destruct n as [|p|p]; simpl; try assumption.
  apply (iter_pos_invariant (fun x => 0 <= shr_m x)); [apply shr_1_nonneg | assumption].
Qed.

Lemma shr_record_of_loc_m (m : Z) (l : location) : shr_m (shr_record_of_loc m l) = m.
Proof. destruct l as [|[| |]]; reflexivity. Qed.

Lemma shr_fexp_nonneg (m e : Z) (l : location) :
  0 <= m -> 0 <= shr_m (fst (shr_fexp prec emax m e l)).
Proof.
  intros H. unfold shr_fexp. apply shr_nonneg. now rewrite shr_record_of_loc_m.
Qed.

Lemma round_nearest_even_nonneg (m : Z) (l : location) :
  0 <= m -> 0 <= round_nearest_even m l.
Proof.
  intros H. unfold round_nearest_even.
  destruct l as [|[| |]]; try lia. destruct (Z.even m); lia.
Qed.

Lemma binary_round_aux_sign (s : bool) (m e : Z) (l : location) :
  0 <= m -> has_sign s (binary_round_aux prec emax s m e l).
Proof.
  intros H. unfold binary_round_aux.
  pose proof (shr_fexp_nonneg m e l H) as H1.
  destruct (shr_fexp prec emax m e l) as [mrs' e'] eqn:E1. simpl in H1.
  pose proof (shr_fexp_nonneg _ e' loc_Exact
                (round_nearest_even_nonneg _ (loc_of_shr_record mrs') H1)) as H2.
  destruct (shr_fexp prec emax _ e' loc_Exact) as [mrs'' e''] eqn:E2. simpl in H2.
  destruct (shr_m mrs'') as [|p|p]; simpl; [reflexivity | | lia].
  destruct (e'' <=? emax - prec); reflexivity.
Qed.

Lemma SFdiv_core_binary_nonneg (m1 m2 : positive) (e1 e2 : Z) :
  0 <= fst (fst (SFdiv_core_binary prec emax (Zpos m1) e1 (Zpos m2) e2)).
Proof.
  unfold SFdiv_core_binary.
  set (s := _ - _ - _).
  set (m' := match s with Z0 => _ | Zpos _ => _ | Zneg _ => _ end).
  assert (Hm : 0 <= m').
  { subst m'. destruct s; [lia | | lia]. apply Z.shiftl_nonneg. lia. }
  pose proof (Z_div_mod m' (Zpos m2) ltac:(lia)) as Hdiv.
  destruct (Z.div_eucl m' (Zpos m2)) as [q r]. simpl.
  destruct Hdiv as [Hq Hr]. nia.
Qed.

Lemma float64_of_ratio_sign (k : Z) (d : positive) :
  has_sign false (float64_of_ratio k d).
Proof.
  unfold float64_of_ratio. destruct k as [|p|p]; try reflexivity.
  unfold SFdiv.
  pose proof (SFdiv_core_binary_nonneg p d 0 0) as H.
  destruct (SFdiv_core_binary prec emax (Zpos p) 0 (Zpos d) 0) as [[mz ez] lz].
  simpl in H. now apply binary_round_aux_sign.
Qed.

Lemma f64_mul_sign (x y : float64) :
  is_amount x -> is_amount y -> has_sign false (f64_mul x y).
Proof.
  intros Hx Hy. unfold f64_mul.
  destruct x as [[|]|sx| |[|] mx ex]; try contradiction;
    destruct y as [[|]|sy| |[|] my ey]; try contradiction; simpl; try reflexivity.
  apply binary_round_aux_sign. lia.
Qed.

Lemma strconv_ParseFloat_amount (s : string) (v : float64) :
  strconv_ParseFloat s = Ok v -> is_amount v.
Proof.
  unfold strconv_ParseFloat.
  destruct (split_dot (list_ascii_of_string s)) as [i [f|]]; [|discriminate].
  destruct (negb _ || _); [discriminate|].
  pose proof (float64_of_ratio_sign
                (decimal_value 0 (i ++ f)) (Z.to_pos (10 ^ Z.of_nat (length f)))) as H.
  destruct (float64_of_ratio _ _) as [sx|sx| |sx mx ex]; try discriminate;
    intros E; injection E as <-; simpl in H |- *; now subst.
Qed.

Lemma Amount_UnmarshalJSON_Ok (data : string) (v : Amount) :
  Amount_UnmarshalJSON data = Ok v -> is_amount v.
Proof.
  unfold Amount_UnmarshalJSON. intros H. apply bind_Ok in H as (str & _ & H).
  destruct (MatchString twoDecimalFloatRegex str); simpl in H; [|discriminate].
  destruct (strconv_ParseFloat str) as [value|e] eqn:E; [|discriminate].
  injection H as <-. now apply strconv_ParseFloat_amount in E.
Qed.

(** ** Ceilings and their conversion to [int64] *)

Lemma int64_of_float64_finite
  (rt : GoRuntime) (s : bool) (m : positive) (e : Z) (v : Z) :
  float64_trunc_Z s m e = v -> is_int64 v = true ->
  int64_of_float64 rt (S754_finite s m e) = v.
Proof.
  intros <- H. unfold int64_of_float64. cbv zeta. now rewrite H.
Qed.

Lemma int64_of_float64_scaled (rt : GoRuntime) (s : bool) (n : Z) :
  0 <= n -> is_int64 (if s then - n else n) = true ->
  int64_of_float64 rt (float64_of_scaled s n 0) = (if s then - n else n).
Proof.
  intros Hn Hfit. unfold float64_of_scaled.
  destruct n as [|p|p]; [now destruct s | | lia].
  set (sh := Z.min (prec - Zdigits2 (Zpos p)) (0 - emin prec emax)).
  destruct (0 <=? sh) eqn:Esh.
  - assert (Hsh : 0 <= sh) by lia.
    assert (Hpos : 0 < Z.shiftl (Zpos p) sh).
    { rewrite Z.shiftl_mul_pow2 by assumption.
      pose proof (Z.pow_pos_nonneg 2 sh ltac:(lia) Hsh). lia. }
    apply int64_of_float64_finite; [|assumption].
    unfold float64_trunc_Z. rewrite Z2Pos.id by assumption.
    f_equal.
    destruct (0 <=? 0 - sh) eqn:E0.
    + assert (H : sh = 0) by lia. rewrite H. now rewrite !Z.shiftl_0_r.
    + replace (- (0 - sh)) with sh by lia.
      rewrite Z.shiftr_shiftl_l by lia. replace (sh - sh) with 0 by lia.
      apply Z.shiftl_0_r.
  - apply int64_of_float64_finite; [|assumption].
    unfold float64_trunc_Z. simpl (0 <=? 0). cbn iota. now rewrite Z.shiftl_0_r.
Qed.

Lemma two_power_pos (k : Z) : 0 <= k -> Zpos (Z.to_pos (2 ^ k)) = 2 ^ k.
Proof.
  intros H. apply Z2Pos.id. apply Z.pow_pos_nonneg; lia.
Qed.

Lemma ceiling_of_finite (s : bool) (m : positive) (e : Z) :
  ceiling_of (S754_finite s m e) =
  if 0 <=? e then (if s then - (Zpos m * 2 ^ e) else Zpos m * 2 ^ e)
  else if s then - (Zpos m / 2 ^ (- e)) else - ((- Zpos m) / 2 ^ (- e)).
Proof.
  unfold ceiling_of, float64_value.
  destruct (0 <=? e) eqn:Ee.
  - rewrite Qceiling_Z. destruct s; lia.
  - unfold Qceiling, Qfloor, Qopp. simpl Qnum. simpl Qden.
    rewrite two_power_pos by lia. destruct s; reflexivity.
Qed.

(** Within the range of [int64], [int64(math.Ceil(p))] is the ceiling of the
    exact value of [p]. *)
Lemma int64_of_Ceil (rt : GoRuntime) (p : float64) :
  ceil_fits p = true ->
  int64_of_float64 rt (math_Ceil p) = ceiling_of p.
Proof.
  destruct p as [s|s| |s m e]; simpl; try discriminate.
  - intros _. reflexivity.
  - rewrite ceiling_of_finite. destruct (0 <=? e) eqn:Ee.
    + intros Hfit. apply int64_of_float64_finite; [|assumption].
      unfold float64_trunc_Z. rewrite Ee.
      rewrite Z.shiftl_mul_pow2 by lia. reflexivity.
    + destruct s; intros Hfit.
      * rewrite Z.shiftr_div_pow2 by lia.
        apply (int64_of_float64_scaled rt true); [|assumption].
        apply Z.div_pos; [lia|]. apply Z.pow_pos_nonneg; lia.
      * apply (int64_of_float64_scaled rt false); [|assumption].
        pose proof (Z.pow_pos_nonneg 2 (- e) ltac:(lia) ltac:(lia)) as HK.
        pose proof (Z.div_lt_upper_bound (- Zpos m) (2 ^ (- e)) 0 HK ltac:(lia)).
        lia.
Qed.

(** The ceiling of a number of sign [+] is not negative. *)
Lemma ceiling_of_nonneg (p : float64) : has_sign false p -> 0 <= ceiling_of p.
Proof.
  destruct p as [s|s| |s m e]; simpl; try contradiction.
  - intros _. change (ceiling_of (S754_zero s)) with (Qceiling (inject_Z 0)).
    rewrite Qceiling_Z. lia.
  - intros _. change (ceiling_of (S754_infinity s)) with (Qceiling (inject_Z 0)).
    rewrite Qceiling_Z. lia.
  - intros ->. rewrite ceiling_of_finite.
    destruct (0 <=? e) eqn:Ee.
    + pose proof (Z.pow_nonneg 2 e ltac:(lia)). lia.
    + pose proof (Z.pow_pos_nonneg 2 (- e) ltac:(lia) ltac:(lia)) as HK.
      pose proof (Z.div_lt_upper_bound (- Zpos m) (2 ^ (- e)) 0 HK ltac:(lia)).
      lia.
Qed.

(** ** Trimming ASCII text *)

Lemma class_space_asciiSpace (c : ascii) :
  class_space c = true -> is_ascii c = true /\ asciiSpace c = true.
Proof. class_arith. Qed.

Lemma trim_start_spaces (rt : GoRuntime) (l : list ascii) :
  forallb class_space l = true -> trim_start rt l = EmptyString.
Proof.
  induction l as [|c l IH]; simpl; [reflexivity|].
  intros H. apply andb_true_iff in H as [Hc Hl].
  apply class_space_asciiSpace in Hc as [Ha Hs]. rewrite Ha, Hs. simpl. now apply IH.
Qed.

Lemma strings_TrimSpace_spaces (rt : GoRuntime) (s : string) :
  forallb class_space (list_ascii_of_string s) = true ->
  strings_TrimSpace rt s = EmptyString.
Proof. apply trim_start_spaces. Qed.

Lemma forallb_rev {A : Type} (f : A -> bool) (l : list A) :
  forallb f (rev l) = forallb f l.
Proof.
  induction l as [|x l IH]; simpl; [reflexivity|].
  rewrite forallb_app, IH. simpl. rewrite andb_true_r. apply andb_comm.
Qed.

Lemma trim_stop_ascii (rt : GoRuntime) (rev_s : list ascii) :
  forallb is_ascii rev_s = true ->
  exists l, trim_stop rt rev_s = string_of_list_ascii l /\ forallb is_ascii l = true.
Proof.
  induction rev_s as [|c l IH]; simpl.
  - intros _. now exists [].
  - intros H. apply andb_true_iff in H as [Hc Hl]. rewrite Hc. simpl.
    destruct (asciiSpace c); [now apply IH|].
    exists (rev l ++ [c]). split; [reflexivity|].
    rewrite forallb_app, forallb_rev, Hl. simpl. now rewrite Hc.
Qed.

Lemma trim_start_ascii (rt : GoRuntime) (s : list ascii) :
  forallb is_ascii s = true ->
  exists l, trim_start rt s = string_of_list_ascii l /\ forallb is_ascii l = true.
Proof.
  induction s as [|c l IH]; simpl.
  - intros _. now exists [].
  - intros H. apply andb_true_iff in H as [Hc Hl]. rewrite Hc. simpl.
    destruct (asciiSpace c); [now apply IH|].
    apply (trim_stop_ascii rt (rev l ++ [c])).
    rewrite forallb_app, forallb_rev, Hl. simpl. now rewrite Hc.
Qed.

(** In ASCII text the number of bytes is the number of characters. *)
Lemma len_runes_ascii (l : list ascii) :
  forallb is_ascii l = true ->
  len (string_of_list_ascii l) = Z.of_nat (length (runes_of (string_of_list_ascii l))).
Proof.
  intros H. unfold len, runes_of.
  rewrite string_length_list, list_ascii_of_string_of_list_ascii.
  rewrite range_runes_ascii by assumption. now rewrite length_map.
Qed.

Lemma trimmed_description_characters (rt : GoRuntime) (data : string) (d : Description) :
  Description_UnmarshalJSON data = Ok d ->
  len (strings_TrimSpace rt d) = Z.of_nat (length (runes_of (strings_TrimSpace rt d))).
Proof.
  intros H. apply Description_UnmarshalJSON_Ok in H as [_ H].
  apply (forallb_impl _ _ _ class_description_ascii) in H.
  destruct (trim_start_ascii rt _ H) as (l & E & Hl).
  unfold strings_TrimSpace. rewrite E. now apply len_runes_ascii.
Qed.

(** ** The description-length rule *)

Lemma itemDescriptionLengthsPoints_sum (rt : GoRuntime) (r : Receipt) :
  itemDescriptionLengthsPoints rt r =
  wrap64 (sumZ (map (fun item =>
                       if qualifies rt item
                       then int64_of_float64 rt (math_Ceil (item_product item))
                       else 0)
                    (Receipt_Items r))).
Proof.
  unfold itemDescriptionLengthsPoints. change 0 with (wrap64 0) at 1.
  exact (fold_add64 (qualifies rt)
           (fun item => int64_of_float64 rt (math_Ceil (item_product item)))
           (Receipt_Items r) 0).
Qed.

Lemma itemDescriptionLengthsPoints_ceilings (rt : GoRuntime) (r : Receipt) :
  ceilings_fit rt (Receipt_Items r) ->
  itemDescriptionLengthsPoints rt r = wrap64 (sumZ (item_ceilings rt (Receipt_Items r))).
Proof.
  intros H. rewrite itemDescriptionLengthsPoints_sum. f_equal. f_equal.
  unfold item_ceilings. induction H as [|item items Hitem _ IH]; simpl; [reflexivity|].
  rewrite IH. f_equal.
  destruct (qualifies rt item); [|reflexivity].
  now apply int64_of_Ceil, Hitem.
Qed.

Lemma itemDescriptionLengthsPoints_is_int64 (rt : GoRuntime) (r : Receipt) :
  is_int64 (itemDescriptionLengthsPoints rt r) = true.
Proof. rewrite itemDescriptionLengthsPoints_sum. apply wrap64_is_int64. Qed.

Lemma single_item_points (rt : GoRuntime) (item : Item) :
  qualifies rt item = true -> ceil_fits (item_product item) = true ->
  itemDescriptionLengthsPoints rt (receipt_of_items [item]) = ceiling_of (item_product item).
Proof.
  intros Hq Hfit. rewrite itemDescriptionLengthsPoints_ceilings.
  - unfold item_ceilings. simpl. rewrite Hq. rewrite Z.add_0_r.
    apply wrap64_id. destruct (item_product item); try discriminate; [reflexivity | exact Hfit].
  - constructor; [auto | constructor].
Qed.

Lemma single_item_no_points (rt : GoRuntime) (item : Item) :
  qualifies rt item = false ->
  itemDescriptionLengthsPoints rt (receipt_of_items [item]) = 0.
Proof.
  intros Hq. rewrite itemDescriptionLengthsPoints_sum. simpl. now rewrite Hq.
Qed.

(** ** Exact values of floats *)

Lemma digits2_pos_size (p : positive) : digits2_pos p = Pos.size p.
Proof. induction p as [p IH | p IH |]; simpl; now rewrite ?IH. Qed.

Lemma Zdigits2_log2 (z : Z) : 0 < z -> Zdigits2 z = Z.log2 z + 1.
Proof.
  destruct z as [|p|p]; try lia. intros _. simpl Zdigits2. rewrite digits2_pos_size.
  destruct p as [p|p|]; simpl; lia.
Qed.

Lemma Zdigits2_bounds (z : Z) : 0 < z -> 2 ^ (Zdigits2 z - 1) <= z < 2 ^ Zdigits2 z.
Proof.
  intros H. rewrite Zdigits2_log2 by assumption.
  replace (Z.log2 z + 1 - 1) with (Z.log2 z) by lia.
  replace (Z.log2 z + 1) with (Z.succ (Z.log2 z)) by lia.
  now apply Z.log2_spec.
Qed.

Lemma Zdigits2_shiftl (z k : Z) : 0 < z -> 0 <= k -> Zdigits2 (Z.shiftl z k) = Zdigits2 z + k.
Proof.
  intros Hz Hk.
  assert (Hpos : 0 < Z.shiftl z k).
  { rewrite Z.shiftl_mul_pow2 by assumption.
    pose proof (Z.pow_pos_nonneg 2 k ltac:(lia) Hk). nia. }
  rewrite !Zdigits2_log2 by assumption.
  rewrite Z.shiftl_mul_pow2 by assumption. rewrite Z.log2_mul_pow2 by assumption. lia.
Qed.

Lemma Zdigits2_le (z : Z) (n : Z) : 0 < z -> z < 2 ^ n -> Zdigits2 z <= n.
Proof.
  intros Hz Hlt. rewrite Zdigits2_log2 by assumption.
  assert (0 <= n). { destruct (Z.le_gt_cases 0 n); [assumption|]. rewrite Z.pow_neg_r in Hlt; lia. }
  pose proof (proj1 (Z.log2_lt_pow2 z n Hz) Hlt). lia.
Qed.

Lemma float64_of_scaled_units (s : bool) (m e : Z) :
  0 <= m -> emin prec emax <= e ->
  units (float64_of_scaled s m e) = (if s then - m else m) * 2 ^ (e - emin prec emax).
Proof.
  intros Hm He. unfold float64_of_scaled.
  destruct m as [|p|p]; [now destruct s | | lia].
  set (sh := Z.min (prec - Zdigits2 (Zpos p)) (e - emin prec emax)).
  destruct (0 <=? sh) eqn:Esh; [|reflexivity].
  assert (Hsh : 0 <= sh) by lia.
  assert (Hpos : 0 < Z.shiftl (Zpos p) sh).
  { rewrite Z.shiftl_mul_pow2 by assumption.
    pose proof (Z.pow_pos_nonneg 2 sh ltac:(lia) Hsh). nia. }
  assert (E : 2 ^ (e - emin prec emax) = 2 ^ sh * 2 ^ (e - sh - emin prec emax)).
  { rewrite <- Z.pow_add_r by lia. f_equal. lia. }
  unfold units. rewrite Z2Pos.id by assumption.
  rewrite Z.shiftl_mul_pow2, E by assumption.
  destruct s; ring.
Qed.

Lemma float64_of_scaled_valid (s : bool) (m e : Z) :
  0 <= m -> Zdigits2 m <= prec -> emin prec emax <= e -> e <= emax - prec ->
  is_binary64 (float64_of_scaled s m e) = true.
Proof.
  intros Hm Hd He Hmax. unfold float64_of_scaled.
  destruct m as [|p|p]; [reflexivity | | lia].
  set (sh := Z.min (prec - Zdigits2 (Zpos p)) (e - emin prec emax)).
  assert (Hsh : 0 <= sh) by lia.
  replace (0 <=? sh) with true by lia.
  assert (Hpos : 0 < Z.shiftl (Zpos p) sh).
  { rewrite Z.shiftl_mul_pow2 by assumption.
    pose proof (Z.pow_pos_nonneg 2 sh ltac:(lia) Hsh). nia. }
  unfold is_binary64, valid_binary, bounded, canonical_mantissa.
  change (Zpos (digits2_pos (Z.to_pos (Z.shiftl (Zpos p) sh))))
    with (Zdigits2 (Zpos (Z.to_pos (Z.shiftl (Zpos p) sh)))).
  rewrite Z2Pos.id by assumption.
  rewrite Zdigits2_shiftl by lia.
  unfold fexp. apply andb_true_iff. split; lia.
Qed.

Lemma is_binary64_finite (s : bool) (m : positive) (e : Z) :
  is_binary64 (S754_finite s m e) = true ->
  emin prec emax <= e <= emax - prec
  /\ Zdigits2 (Zpos m) <= prec
  /\ (emin prec emax < e -> Zdigits2 (Zpos m) = prec).
Proof.
  unfold is_binary64, valid_binary, bounded, canonical_mantissa, fexp. simpl Zdigits2.
  intros H. apply andb_true_iff in H as [H1 H2]. lia.
Qed.

Lemma units_finite_pos (m : positive) (e : Z) :
  emin prec emax <= e -> 0 < units (S754_finite false m e).
Proof.
  intros He. unfold units.
  pose proof (Z.pow_pos_nonneg 2 (e - emin prec emax) ltac:(lia) ltac:(lia)). nia.
Qed.

Lemma units_finite_lt (m1 m2 : positive) (e1 e2 : Z) :
  is_binary64 (S754_finite false m1 e1) = true ->
  is_binary64 (S754_finite false m2 e2) = true ->
  e1 < e2 ->
  units (S754_finite false m1 e1) < units (S754_finite false m2 e2).
Proof.
  intros H1 H2 Hlt.
  apply is_binary64_finite in H1 as (He1 & Hd1 & _).
  apply is_binary64_finite in H2 as (He2 & _ & Hd2).
  specialize (Hd2 ltac:(lia)).
  pose proof (Zdigits2_bounds (Zpos m1) ltac:(lia)) as [_ Hm1].
  pose proof (Zdigits2_bounds (Zpos m2) ltac:(lia)) as [Hm2 _].
  rewrite Hd2 in Hm2.
  assert (Hm1' : Zpos m1 < 2 ^ prec).
  { eapply Z.lt_le_trans; [exact Hm1|]. apply Z.pow_le_mono_r; lia. }
  unfold units.
  set (A := 2 ^ (e1 - emin prec emax)).
  assert (HA : 0 < A) by (apply Z.pow_pos_nonneg; lia).
  assert (E : 2 ^ (e2 - emin prec emax) = A * 2 ^ (e2 - e1)).
  { unfold A. rewrite <- Z.pow_add_r by lia. f_equal. lia. }
  rewrite E.
  assert (H2' : 2 ^ 1 <= 2 ^ (e2 - e1)) by (apply Z.pow_le_mono_r; lia).
  change (2 ^ 1) with 2 in H2'.
  change (2 ^ (prec - 1)) with 4503599627370496 in Hm2.
  change (2 ^ prec) with 9007199254740992 in Hm1'.
  nia.
Qed.

Lemma f64_ltb_units (x y : float64) :
  is_amount x -> is_amount y ->
  is_binary64 x = true -> is_binary64 y = true ->
  f64_ltb x y = (units x <? units y).
Proof.
  intros Hx Hy Vx Vy.
  destruct x as [[|]|sx| |[|] m1 e1]; try contradiction;
    destruct y as [[|]|sy| |[|] m2 e2]; try contradiction.
  - reflexivity.
  - pose proof (units_finite_pos m2 e2
                  (proj1 (proj1 (is_binary64_finite _ _ _ Vy)))) as H.
    unfold f64_ltb, SFltb. simpl. change (units (S754_zero false)) with 0.
    symmetry. apply Z.ltb_lt. exact H.
  - pose proof (units_finite_pos m1 e1
                  (proj1 (proj1 (is_binary64_finite _ _ _ Vx)))) as H.
    unfold f64_ltb, SFltb. simpl. change (units (S754_zero false)) with 0.
    symmetry. apply Z.ltb_ge. lia.
  - unfold f64_ltb, SFltb, SFcompare.
    destruct (Z.compare_spec e1 e2) as [E | E | E].
    + subst e2. rewrite Pos.compare_cont_spec. unfold Pos.switch_Eq.
      unfold units.
      pose proof (Z.pow_pos_nonneg 2 (e1 - emin prec emax) ltac:(lia)
                    ltac:(pose proof (is_binary64_finite _ _ _ Vx); lia)) as HA.
      destruct (Pos.compare_spec m1 m2) as [Em | Em | Em]; symmetry.
      * rewrite Em. apply Z.ltb_irrefl.
      * apply Z.ltb_lt. nia.
      * apply Z.ltb_ge. nia.
    + symmetry. apply Z.ltb_lt. now apply units_finite_lt.
    + symmetry. apply Z.ltb_ge. apply Z.lt_le_incl. now apply units_finite_lt.
Qed.

Lemma float64_of_scaled_amount (m e : Z) : 0 <= m -> is_amount (float64_of_scaled false m e).
Proof.
  intros Hm. unfold float64_of_scaled. destruct m as [|p|p]; [exact I | | lia].
  destruct (0 <=? _); exact I.
Qed.

Lemma math_Mod_units (x : float64) (my : positive) (ey : Z) :
  is_amount x -> is_binary64 x = true ->
  is_binary64 (S754_finite false my ey) = true ->
  let r := math_Mod x (S754_finite false my ey) in
  is_amount r /\ is_binary64 r = true
  /\ units r = units x mod units (S754_finite false my ey).
Proof.
  intros Hx Vx Vy. cbv zeta.
  apply is_binary64_finite in Vy as (Hey & Hdy & _).
  destruct x as [[|]|sx| |[|] mx ex]; try contradiction.
  - simpl. repeat split. 
  - pose proof Vx as Vx'. apply is_binary64_finite in Vx' as (Hex & Hdx & _).
    unfold math_Mod.
    set (e0 := Z.min ex ey).
    set (X := Z.shiftl (Zpos mx) (ex - e0)).
    set (Y := Z.shiftl (Zpos my) (ey - e0)).
    assert (HX : X = Zpos mx * 2 ^ (ex - e0)) by (apply Z.shiftl_mul_pow2; lia).
    assert (HY : Y = Zpos my * 2 ^ (ey - e0)) by (apply Z.shiftl_mul_pow2; lia).
    assert (HYpos : 0 < Y).
    { rewrite HY. pose proof (Z.pow_pos_nonneg 2 (ey - e0) ltac:(lia) ltac:(lia)). nia. }
    assert (HXpos : 0 < X).
    { rewrite HX. pose proof (Z.pow_pos_nonneg 2 (ex - e0) ltac:(lia) ltac:(lia)). nia. }
    pose proof (Z.mod_pos_bound X Y HYpos) as HR.
    pose proof (Zdigits2_bounds (Zpos mx) ltac:(lia)) as [_ Hmx].
    pose proof (Zdigits2_bounds (Zpos my) ltac:(lia)) as [_ Hmy].
    assert (Hmx' : Zpos mx < 2 ^ prec).
    { eapply Z.lt_le_trans; [exact Hmx|]. apply Z.pow_le_mono_r; lia. }
    assert (Hmy' : Zpos my < 2 ^ prec).
    { eapply Z.lt_le_trans; [exact Hmy|]. apply Z.pow_le_mono_r; lia. }
    assert (HRlt : X mod Y < 2 ^ prec).
    { destruct (Z.le_gt_cases ex ey) as [Hle | Hgt].
      - assert (E : X = Zpos mx).
        { rewrite HX. replace (ex - e0) with 0 by lia. lia. }
        pose proof (Z.mod_le X Y ltac:(lia) HYpos). lia.
      - assert (E : Y = Zpos my).
        { rewrite HY. replace (ey - e0) with 0 by lia. lia. }
        lia. }
    assert (HRd : Zdigits2 (X mod Y) <= prec).
    { destruct (Z.eq_dec (X mod Y) 0) as [E0 | Hne]; [rewrite E0; discriminate|].
      apply Zdigits2_le; lia. }
    split; [apply float64_of_scaled_amount; lia|].
    split; [apply float64_of_scaled_valid; lia|].
    rewrite float64_of_scaled_units by lia.
    unfold units.
    set (c := 2 ^ (e0 - emin prec emax)).
    assert (Ex : Zpos mx * 2 ^ (ex - emin prec emax) = X * c).
    { rewrite HX. unfold c. rewrite <- Z.mul_assoc, <- Z.pow_add_r by lia.
      do 2 f_equal. lia. }
    assert (Ey : Zpos my * 2 ^ (ey - emin prec emax) = Y * c).
    { rewrite HY. unfold c. rewrite <- Z.mul_assoc, <- Z.pow_add_r by lia.
      do 2 f_equal. lia. }
    rewrite Ex, Ey.
    assert (Hc : 0 < c) by (apply Z.pow_pos_nonneg; lia).
    rewrite Z.mul_mod_distr_r by lia. reflexivity.
Qed.


(** ** Rounded results are binary64 data *)

Lemma shr_1_m (mrs : shr_record) :
  0 <= shr_m mrs -> shr_m (shr_1 mrs) = Z.div2 (shr_m mrs).
Proof.
  destruct mrs as [m r s]. simpl. intros H.
  destruct m as [|p|p]; [reflexivity | | lia]. destruct p; reflexivity.
Qed.

Lemma iter_shr_1_m (p : positive) (mrs : shr_record) :
  0 <= shr_m mrs ->
  shr_m (SpecFloat.iter_pos shr_1 p mrs) = Z.shiftr (shr_m mrs) (Zpos p)
  /\ 0 <= shr_m (SpecFloat.iter_pos shr_1 p mrs).
Proof.
  revert mrs. induction p as [p IH | p IH |]; intros mrs H; simpl SpecFloat.iter_pos.
  - pose proof (shr_1_nonneg mrs H) as H1.
    destruct (IH _ H1) as [E1 N1]. destruct (IH _ N1) as [E2 N2].
    split; [|assumption].
    rewrite E2, E1, shr_1_m by assumption.
    rewrite Z.div2_spec, !Z.shiftr_shiftr by lia. f_equal. lia.
  - destruct (IH _ H) as [E1 N1]. destruct (IH _ N1) as [E2 N2].
    split; [|assumption].
    rewrite E2, E1, Z.shiftr_shiftr by lia. f_equal. lia.
  - split; [|now apply shr_1_nonneg].
    rewrite shr_1_m by assumption. apply Z.div2_spec.
Qed.

Lemma fexp64_eq (x : Z) : fexp64 x = Z.max (x - 53) (-1074).
Proof. reflexivity. Qed.

Lemma shr_fexp_spec (m e : Z) (l : location) :
  0 <= m -> e <= fexp64 (Zdigits2 m + e) ->
  shr_m (fst (shr_fexp prec emax m e l)) = Z.shiftr m (fexp64 (Zdigits2 m + e) - e)
  /\ snd (shr_fexp prec emax m e l) = fexp64 (Zdigits2 m + e).
Proof.
  intros Hm He. unfold shr_fexp, shr. fold (fexp64 (Zdigits2 m + e)).
  set (n := fexp64 (Zdigits2 m + e) - e).
  assert (Hn : 0 <= n) by (unfold n; lia).
  destruct n as [|p|p] eqn:En; [| | lia].
  - simpl. rewrite shr_record_of_loc_m. rewrite Z.shiftr_0_r. split; [reflexivity | lia].
  - simpl fst. simpl snd.
    destruct (iter_shr_1_m p (shr_record_of_loc m l)) as [E _];
      [now rewrite shr_record_of_loc_m|].
    rewrite E, shr_record_of_loc_m. split; [reflexivity | lia].
Qed.

Lemma Zdigits2_nonneg (z : Z) : 0 <= Zdigits2 z.
Proof. destruct z; simpl; lia. Qed.

Lemma Zdigits2_mono (a b : Z) : 0 <= a <= b -> Zdigits2 a <= Zdigits2 b.
Proof.
  intros [Ha Hab]. destruct (Z.eq_dec a 0) as [-> | Hne]; [apply Zdigits2_nonneg|].
  rewrite !Zdigits2_log2 by lia. pose proof (Z.log2_le_mono a b Hab). lia.
Qed.

Lemma Zdigits2_shiftr (m n : Z) :
  0 <= n -> 0 < Z.shiftr m n -> Zdigits2 (Z.shiftr m n) = Zdigits2 m - n.
Proof.
  intros Hn Hpos.
  assert (Hm : 0 < m).
  { destruct (Z.lt_trichotomy m 0) as [Hlt | [-> | Hgt]]; [|now rewrite Z.shiftr_0_l in Hpos | assumption].
    pose proof (proj2 (Z.shiftr_neg m n) Hlt). lia. }
  rewrite !Zdigits2_log2 by assumption.
  rewrite Z.log2_shiftr by assumption.
  assert (n <= Z.log2 m).
  { destruct (Z.le_gt_cases n (Z.log2 m)) as [Hle | Hgt]; [assumption|].
    rewrite Z.shiftr_eq_0 in Hpos; lia. }
  lia.
Qed.

(** After [shr_fexp] the mantissa, when it is not 0, sits at its canonical
    exponent; when it is 0 the exponent is the least. *)
Lemma shr_fexp_canonical (m e : Z) (l : location) :
  0 <= m -> e <= fexp64 (Zdigits2 m + e) ->
  let m' := shr_m (fst (shr_fexp prec emax m e l)) in
  let e' := snd (shr_fexp prec emax m e l) in
  0 <= m' /\ e' = fexp64 (Zdigits2 m' + e').
Proof.
  intros Hm He. cbv zeta.
  destruct (shr_fexp_spec m e l Hm He) as [Em Ee]. rewrite Em, Ee.
  set (n := fexp64 (Zdigits2 m + e) - e).
  assert (Hn : 0 <= n) by (unfold n; lia).
  assert (Hm' : 0 <= Z.shiftr m n) by now apply Z.shiftr_nonneg.
  split; [assumption|].
  destruct (Z.eq_dec (Z.shiftr m n) 0) as [E0 | Hne].
  - rewrite E0. change (Zdigits2 0) with 0.
    assert (Hd : Zdigits2 m <= n).
    { destruct (Z.eq_dec m 0) as [-> | Hm0]; [exact Hn|].
      rewrite Zdigits2_log2 by lia.
      apply Z.shiftr_eq_0_iff in E0 as [E0 | [_ E0]]; lia. }
    unfold n in Hd. rewrite !fexp64_eq in *. lia.
  - rewrite Zdigits2_shiftr by lia. unfold n. rewrite !fexp64_eq. lia.
Qed.

Lemma round_nearest_even_bounds (m : Z) (l : location) :
  m <= round_nearest_even m l <= m + 1.
Proof.
  unfold round_nearest_even.
  destruct l as [|[| |]]; try lia. destruct (Z.even m); lia.
Qed.

Lemma fexp64_mono (a b : Z) : a <= b -> fexp64 a <= fexp64 b.
Proof. rewrite !fexp64_eq. lia. Qed.

Lemma binary_round_aux_valid (s : bool) (m e : Z) (l : location) :
  0 <= m -> e <= fexp64 (Zdigits2 m + e) ->
  is_binary64 (binary_round_aux prec emax s m e l) = true.
Proof.
  intros Hm He. unfold binary_round_aux.
  destruct (shr_fexp_canonical m e l Hm He) as [Hm1 He1].
  destruct (shr_fexp prec emax m e l) as [mrs' e'] eqn:E1. simpl in Hm1, He1.
  set (m1 := round_nearest_even (shr_m mrs') (loc_of_shr_record mrs')).
  pose proof (round_nearest_even_bounds (shr_m mrs') (loc_of_shr_record mrs')) as Hr.
  fold m1 in Hr.
  assert (Hm1' : 0 <= m1) by lia.
  assert (He1' : e' <= fexp64 (Zdigits2 m1 + e')).
  { rewrite He1 at 1. apply fexp64_mono.
    pose proof (Zdigits2_mono (shr_m mrs') m1 ltac:(lia)). lia. }
  destruct (shr_fexp_canonical m1 e' loc_Exact Hm1' He1') as [Hm2 He2].
  destruct (shr_fexp prec emax m1 e' loc_Exact) as [mrs'' e''] eqn:E2. simpl in Hm2, He2.
  destruct (shr_m mrs'') as [|p|p] eqn:Ep; [reflexivity | | lia].
  destruct (e'' <=? emax - prec) eqn:Emax; [|reflexivity].
  unfold is_binary64, valid_binary, bounded, canonical_mantissa.
  rewrite Emax, andb_true_r. apply Z.eqb_eq.
  symmetry. exact He2.
Qed.

Lemma SFdiv_core_binary_shape (m1 m2 : positive) (e1 e2 : Z) :
  let '(q, e', _) := SFdiv_core_binary prec emax (Zpos m1) e1 (Zpos m2) e2 in
  0 <= q /\ e' <= fexp64 (Zdigits2 q + e').
Proof.
  unfold SFdiv_core_binary.
  set (d1 := Zdigits2 (Zpos m1)). set (d2 := Zdigits2 (Zpos m2)).
  fold (fexp64 (d1 + e1 - (d2 + e2))).
  set (e' := Z.min (fexp64 (d1 + e1 - (d2 + e2))) (e1 - e2)).
  set (s := e1 - e2 - e').
  assert (Hs : 0 <= s) by (unfold s, e'; lia).
  set (m' := match s with Z0 => _ | Zpos _ => _ | Zneg _ => _ end).
  assert (Em' : m' = Zpos m1 * 2 ^ s).
  { subst m'. destruct s as [|p|p] eqn:Es; [lia | | lia].
    apply Z.shiftl_mul_pow2. lia. }
  pose proof (Z_div_mod m' (Zpos m2) ltac:(lia)) as Hdiv.
  destruct (Z.div_eucl m' (Zpos m2)) as [q r]. destruct Hdiv as [Hq Hr].
  assert (Hq0 : 0 <= q).
  { pose proof (Z.pow_pos_nonneg 2 s ltac:(lia) Hs). nia. }
  split; [assumption|].
  assert (Hd : d1 + s - d2 <= Zdigits2 q).
  { destruct (Z.le_gt_cases (d1 + s - d2) 0) as [Hle | Hgt].
    - pose proof (Zdigits2_nonneg q). lia.
    - pose proof (Zdigits2_bounds (Zpos m1) ltac:(lia)) as [Hm1 _].
      pose proof (Zdigits2_bounds (Zpos m2) ltac:(lia)) as [_ Hm2].
      fold d1 in Hm1. fold d2 in Hm2.
      assert (Hd1 : 1 <= d1) by (unfold d1; simpl; lia).
      assert (Hd2 : 1 <= d2) by (unfold d2; simpl; lia).
      assert (Hpow : 2 ^ (d1 - 1) * 2 ^ s = 2 ^ (d1 + s - d2 - 1) * 2 ^ d2).
      { rewrite <- !Z.pow_add_r by lia. f_equal. lia. }
      assert (Hqlow : 2 ^ (d1 + s - d2 - 1) <= q).
      { pose proof (Z.pow_pos_nonneg 2 (d1 + s - d2 - 1) ltac:(lia) ltac:(lia)) as HA.
        pose proof (Z.pow_pos_nonneg 2 s ltac:(lia) Hs) as HB.
        pose proof (Z.pow_pos_nonneg 2 d2 ltac:(lia) ltac:(lia)) as HC.
        assert (Hlt : 2 ^ (d1 + s - d2 - 1) * Zpos m2 < (q + 1) * Zpos m2) by nia.
        nia. }
      assert (Hqpos : 0 < q).
      { pose proof (Z.pow_pos_nonneg 2 (d1 + s - d2 - 1) ltac:(lia) ltac:(lia)). lia. }
      rewrite Zdigits2_log2 by assumption.
      pose proof (Z.log2_le_pow2 q (d1 + s - d2 - 1) Hqpos) as [Hlog _].
      specialize (Hlog Hqlow). lia. }
  eapply Z.le_trans; [apply Z.le_min_l|].
  apply fexp64_mono. unfold s in Hd. lia.
Qed.

Lemma float64_of_ratio_valid (k : Z) (d : positive) :
  is_binary64 (float64_of_ratio k d) = true.
Proof.
  unfold float64_of_ratio. destruct k as [|p|p]; try reflexivity.
  unfold SFdiv.
  pose proof (SFdiv_core_binary_shape p d 0 0) as H.
  destruct (SFdiv_core_binary prec emax (Zpos p) 0 (Zpos d) 0) as [[mz ez] lz].
  destruct H as [Hq He]. now apply binary_round_aux_valid.
Qed.

Lemma strconv_ParseFloat_valid (s : string) (v : float64) :
  strconv_ParseFloat s = Ok v -> is_binary64 v = true.
Proof.
  unfold strconv_ParseFloat.
  destruct (split_dot (list_ascii_of_string s)) as [i [f|]]; [|discriminate].
  destruct (negb _ || _); [discriminate|].
  pose proof (float64_of_ratio_valid
                (decimal_value 0 (i ++ f)) (Z.to_pos (10 ^ Z.of_nat (length f)))) as H.
  destruct (float64_of_ratio _ _) as [sx|sx| |sx mx ex]; try discriminate;
    intros E; injection E as <-; exact H.
Qed.

Lemma Amount_UnmarshalJSON_valid (data : string) (v : Amount) :
  Amount_UnmarshalJSON data = Ok v -> is_binary64 v = true.
Proof.
  unfold Amount_UnmarshalJSON. intros H. apply bind_Ok in H as (str & _ & H).
  destruct (MatchString twoDecimalFloatRegex str); simpl in H; [|discriminate].
  destruct (strconv_ParseFloat str) as [value|e] eqn:E; [|discriminate].
  injection H as <-. now apply strconv_ParseFloat_valid in E.
Qed.

Lemma valid_receipt_total (r : Receipt) :
  valid_receipt r ->
  is_amount (Receipt_Total r) /\ is_binary64 (Receipt_Total r) = true.
Proof.
  intros [raw H]. apply Receipt_Unmarshal_Ok in H as (_ & _ & _ & _ & H).
  destruct (raw_total raw) as [data|]; simpl in H.
  - split; [now apply Amount_UnmarshalJSON_Ok in H | now apply Amount_UnmarshalJSON_valid in H].
  - injection H as <-. now split.
Qed.

(** In exact arithmetic: the rule compares the remainder of the total by
    0.25 with the constant 1e-4. *)
Lemma totalMultipleOf25CentsPoints_exact (r : Receipt) :
  is_amount (Receipt_Total r) -> is_binary64 (Receipt_Total r) = true ->
  totalMultipleOf25CentsPoints r =
  if units (Receipt_Total r) mod units const_0_25 <? units const_1e_4 then 25 else 0.
Proof.
  intros Ha Hv. unfold totalMultipleOf25CentsPoints.
  destruct (math_Mod_units (Receipt_Total r) 4503599627370496 (-54) Ha Hv eq_refl)
    as (Hra & Hrv & Hru).
  fold const_0_25 in Hra, Hrv, Hru.
  assert (Habs : math_Abs (math_Mod (Receipt_Total r) const_0_25)
                 = math_Mod (Receipt_Total r) const_0_25).
  { destruct (math_Mod (Receipt_Total r) const_0_25) as [[|]|?| |[|] ? ?];
      try contradiction; reflexivity. }
  rewrite Habs, (f64_ltb_units _ const_1e_4 Hra I Hrv eq_refl), Hru. reflexivity.
Qed.

(** ** C4: the quarter-multiple rule *)

Lemma constants_rounded :
  const_0_2 = float64_of_ratio 2 10
  /\ const_0_25 = float64_of_ratio 25 100
  /\ const_1e_4 = float64_of_ratio 1 10000.
Proof. repeat split; vm_compute; reflexivity. Qed.

Lemma amount_25_25_decoded : Amount_UnmarshalJSON (quoted "25.25") = Ok amount_25_25.
Proof. vm_compute. reflexivity. Qed.

Lemma amount_25_26_decoded : Amount_UnmarshalJSON (quoted "25.26") = Ok amount_25_26.
Proof. vm_compute. reflexivity. Qed.

(** C4. The quarter-multiple rule gives 25 exactly when the absolute value of
    the remainder of the total by 0.25 is below 1e-4, and 0 otherwise: so it
    is computed in float64, and so it is in exact arithmetic for the total of
    every validly-constructed receipt (values counted in units of 2^-1074,
    0.25 and 1e-4 being the float64 constants).  The total decoded from 25.25
    gets the 25 points and the total decoded from 25.26 gets none. *)
Theorem quarter_multiple_rule :
  (forall r,
     (totalMultipleOf25CentsPoints r = 25 <->
      f64_ltb (math_Abs (math_Mod (Receipt_Total r) const_0_25)) const_1e_4 = true)
     /\ (totalMultipleOf25CentsPoints r = 0 <->
         f64_ltb (math_Abs (math_Mod (Receipt_Total r) const_0_25)) const_1e_4 = false))
  /\ (forall r, valid_receipt r ->
        (totalMultipleOf25CentsPoints r = 25 <->
         units (Receipt_Total r) mod units const_0_25 < units const_1e_4)
        /\ (totalMultipleOf25CentsPoints r = 0 <->
            units const_1e_4 <= units (Receipt_Total r) mod units const_0_25))
  /\ (forall r, Amount_UnmarshalJSON (quoted "25.25") = Ok (Receipt_Total r) ->
                totalMultipleOf25CentsPoints r = 25)
  /\ (forall r, Amount_UnmarshalJSON (quoted "25.26") = Ok (Receipt_Total r) ->
                totalMultipleOf25CentsPoints r = 0).
Proof.
  split; [|split; [|split]].
  - intros r. unfold totalMultipleOf25CentsPoints.
    destruct (f64_ltb _ const_1e_4); split; split; intros H;
      try reflexivity; discriminate.
  - intros r Hvalid. destruct (valid_receipt_total r Hvalid) as [Ha Hv].
    rewrite (totalMultipleOf25CentsPoints_exact r Ha Hv).
    destruct (Z.ltb_spec (units (Receipt_Total r) mod units const_0_25) (units const_1e_4));
      split; split; intros H'; try reflexivity; try assumption; try discriminate; lia.
  - intros r H. rewrite amount_25_25_decoded in H. injection H as H.
    unfold totalMultipleOf25CentsPoints. rewrite <- H. vm_compute. reflexivity.
  - intros r H. rewrite amount_25_26_decoded in H. injection H as H.
    unfold totalMultipleOf25CentsPoints. rewrite <- H. vm_compute. reflexivity.
Qed.

Lemma quarter_multiple_rule_witness :
  valid_receipt target_receipt
  /\ units const_1e_4 <= units (Receipt_Total target_receipt) mod units const_0_25
  /\ totalMultipleOf25CentsPoints target_receipt = 0.
Proof.
  assert (Hv : valid_receipt target_receipt).
  { exists target_raw. vm_compute. reflexivity. }
  assert (Hu : units const_1e_4 <= units (Receipt_Total target_receipt) mod units const_0_25).
  { vm_compute. discriminate. }
  destruct quarter_multiple_rule as (_ & Hexact & _).
  destruct (Hexact target_receipt Hv) as [_ H0].
  split; [exact Hv|]. split; [exact Hu|]. apply H0. exact Hu.
Defined.

(** ** C5: the description-length rule *)

Lemma emils_item_decoded : Item_Unmarshal emils_raw = Ok emils_item.
Proof. vm_compute. reflexivity. Qed.

Lemma emils_item_points (rt : GoRuntime) :
  qualifies rt emils_item = true
  /\ ceiling_of (item_product emils_item) = 3
  /\ itemDescriptionLengthsPoints rt (receipt_of_items [emils_item]) = 3.
Proof.
  assert (Hq : qualifies rt emils_item = true) by (vm_compute; reflexivity).
  assert (Hc : ceiling_of (item_product emils_item) = 3) by (vm_compute; reflexivity).
  split; [exact Hq|]. split; [exact Hc|].
  rewrite single_item_points; [exact Hc | exact Hq | vm_compute; reflexivity].
Qed.

Lemma gatorade_item_points (rt : GoRuntime) (item : Item) :
  Item_Description item = "Gatorade" ->
  qualifies rt item = false
  /\ itemDescriptionLengthsPoints rt (receipt_of_items [item]) = 0.
Proof.
  intros Hd.
  assert (Hq : qualifies rt item = false).
  { unfold qualifies. rewrite Hd. vm_compute. reflexivity. }
  split; [exact Hq | now apply single_item_no_points].
Qed.

(** C5. The description-length rule adds, for each item whose description
    has, once trimmed, a length that is a multiple of 3, the ceiling of the
    float64 product of its price by 0.2, and nothing for the other items,
    provided each such ceiling is a number that int64 holds; the amounts are
    summed modulo 2^64.  The length is counted in bytes, which for a
    validated description is the number of its characters.  The item Emils
    Cheese Pizza at 12.25 (trimmed length 18) gives 3 and an item named
    Gatorade (length 8) gives 0. *)
Theorem description_length_rule (rt : GoRuntime) :
  (forall r, ceilings_fit rt (Receipt_Items r) ->
             itemDescriptionLengthsPoints rt r =
             wrap64 (sumZ (item_ceilings rt (Receipt_Items r))))
  /\ (forall data d, Description_UnmarshalJSON data = Ok d ->
                     len (strings_TrimSpace rt d) =
                     Z.of_nat (length (runes_of (strings_TrimSpace rt d))))
  /\ (forall item, Item_Unmarshal emils_raw = Ok item ->
                   len (strings_TrimSpace rt (Item_Description item)) = 18
                   /\ qualifies rt item = true
                   /\ ceiling_of (item_product item) = 3
                   /\ itemDescriptionLengthsPoints rt (receipt_of_items [item]) = 3)
  /\ (forall item, Description_UnmarshalJSON (quoted "Gatorade") = Ok (Item_Description item) ->
                   len (strings_TrimSpace rt (Item_Description item)) = 8
                   /\ qualifies rt item = false
                   /\ itemDescriptionLengthsPoints rt (receipt_of_items [item]) = 0).
Proof.
  split; [apply itemDescriptionLengthsPoints_ceilings|].
  split; [apply trimmed_description_characters|].
  split.
  - intros item H. rewrite emils_item_decoded in H. injection H as <-.
    split; [vm_compute; reflexivity | apply emils_item_points].
  - intros item H. rewrite Description_UnmarshalJSON_quoted in H.
    change (MatchString descriptionRegex "Gatorade") with true in H.
    injection H as H. symmetry in H.
    split; [rewrite H; vm_compute; reflexivity | now apply gatorade_item_points].
Qed.

Lemma description_length_rule_witness :
  ceilings_fit example_runtime [emils_item]
  /\ itemDescriptionLengthsPoints example_runtime (receipt_of_items [emils_item]) = 3.
Proof.
  assert (H : ceilings_fit example_runtime [emils_item]).
  { constructor; [intros _; vm_compute; reflexivity | constructor]. }
  split; [exact H|].
  destruct (description_length_rule example_runtime) as (Hsum & _).
  rewrite (Hsum (receipt_of_items [emils_item]) H). vm_compute. reflexivity.
Defined.

Lemma huge_price_decoded :
  Amount_UnmarshalJSON (quoted "100000000000000000000000.00") = Ok huge_price.
Proof. vm_compute. reflexivity. Qed.

(** For an item at that price the rule cannot add the ceiling of the
    product, 20000000000000000000000: whatever the platform converts it to
    is an [int64]. *)
Lemma description_length_rule_overflow :
  Item_Unmarshal {| raw_shortDescription := Some (quoted "abc");
                    raw_price := Some (quoted "100000000000000000000000.00") |}
  = Ok huge_item
  /\ forall rt,
       qualifies rt huge_item = true
       /\ int64_max < ceiling_of (item_product huge_item)
       /\ itemDescriptionLengthsPoints rt (receipt_of_items [huge_item])
          <> ceiling_of (item_product huge_item).
Proof.
  split; [vm_compute; reflexivity|].
  intros rt.
  assert (Hc : int64_max < ceiling_of (item_product huge_item)) by (vm_compute; reflexivity).
  split; [vm_compute; reflexivity|]. split; [exact Hc|].
  pose proof (itemDescriptionLengthsPoints_is_int64 rt (receipt_of_items [huge_item])) as H.
  unfold is_int64 in H. lia.
Qed.

(** ** C10: descriptions made of whitespace *)

(** C10. A description made only of whitespace (one byte or more of the
    pattern's whitespace class) passes the validation of descriptions; its
    trimmed length is 0, a multiple of 3, so the description-length rule
    counts the item, and it awards the ceiling of the float64 product of the
    price by 0.2 whenever that ceiling is a number that int64 holds. *)
Theorem whitespace_description_scores (rt : GoRuntime) (s : string) (price : Amount) :
  s <> EmptyString ->
  forallb class_space (list_ascii_of_string s) = true ->
  Description_UnmarshalJSON (quoted s) = Ok s
  /\ len (strings_TrimSpace rt s) = 0
  /\ qualifies rt {| Item_Description := s; Item_Price := price |} = true
  /\ (ceil_fits (f64_mul price const_0_2) = true ->
      itemDescriptionLengthsPoints rt
        (receipt_of_items [{| Item_Description := s; Item_Price := price |}])
      = ceiling_of (f64_mul price const_0_2)).
Proof.
  intros Hne Hs.
  assert (Ht : strings_TrimSpace rt s = EmptyString) by now apply strings_TrimSpace_spaces.
  assert (Hq : qualifies rt {| Item_Description := s; Item_Price := price |} = true).
  { unfold qualifies. simpl. rewrite Ht. reflexivity. }
  split; [|split; [|split]].
  - rewrite Description_UnmarshalJSON_quoted.
    assert (Hm : MatchString descriptionRegex s = true).
    { apply MatchString_plus_class. split; [assumption|].
      apply (forallb_impl class_space); [|assumption].
      intros c Hc. unfold class_description. rewrite Hc. now rewrite orb_true_r. }
    now rewrite Hm.
  - now rewrite Ht.
  - exact Hq.
  - intros Hfit. now apply single_item_points.
Qed.

Lemma whitespace_description_scores_witness :
  "   " <> EmptyString
  /\ forallb class_space (list_ascii_of_string "   ") = true
  /\ Description_UnmarshalJSON (quoted "   ") = Ok "   "
  /\ Amount_UnmarshalJSON (quoted "5.00") = Ok amount_5_00
  /\ itemDescriptionLengthsPoints example_runtime
       (receipt_of_items [{| Item_Description := "   "; Item_Price := amount_5_00 |}]) = 1.
Proof.
  assert (H1 : "   " <> EmptyString) by discriminate.
  assert (H2 : forallb class_space (list_ascii_of_string "   ") = true) by reflexivity.
  destruct (whitespace_description_scores example_runtime "   " amount_5_00 H1 H2)
    as (Hd & _ & _ & Hp).
  split; [exact H1|]. split; [exact H2|]. split; [exact Hd|].
  split; [vm_compute; reflexivity|].
  rewrite Hp; vm_compute; reflexivity.
Defined.

(** A blank description at a price whose fifth is beyond [int64]: the item
    is counted, but what it is awarded is not the ceiling of the product. *)
Lemma whitespace_description_overflow :
  Item_Unmarshal {| raw_shortDescription := Some (quoted "   ");
                    raw_price := Some (quoted "100000000000000000000000.00") |}
  = Ok blank_huge_item
  /\ forall rt,
       qualifies rt blank_huge_item = true
       /\ itemDescriptionLengthsPoints rt (receipt_of_items [blank_huge_item])
          <> ceiling_of (f64_mul huge_price const_0_2).
Proof.
  split; [vm_compute; reflexivity|].
  intros rt. split; [vm_compute; reflexivity|].
  assert (Hc : int64_max < ceiling_of (f64_mul huge_price const_0_2)) by (vm_compute; reflexivity).
  pose proof (itemDescriptionLengthsPoints_is_int64 rt (receipt_of_items [blank_huge_item])) as H.
  unfold is_int64 in H. lia.
Qed.

(** ** C2: the contract of the scoring function *)

Lemma computeReceiptPoints_sum (rt : GoRuntime) (r : Receipt) :
  computeReceiptPoints rt r =
  wrap64 (alphanumericRetailerPoints rt r
          + totalRoundDollarAmountPoints r
          + totalMultipleOf25CentsPoints r
          + every2ItemsPoints r
          + itemDescriptionLengthsPoints rt r
          + purchaseDayOddPoints r
          + purchaseTimeBetween2And4Points r).
Proof.
  unfold computeReceiptPoints.
  generalize (alphanumericRetailerPoints rt r) (totalRoundDollarAmountPoints r)
    (totalMultipleOf25CentsPoints r) (every2ItemsPoints r)
    (itemDescriptionLengthsPoints rt r) (purchaseDayOddPoints r)
    (purchaseTimeBetween2And4Points r).
  intros a b c d e f g. unfold add64.
  rewrite (wrap64_add_l (a + b) c), (wrap64_add_l (a + b + c) d),
    (wrap64_add_l (a + b + c + d) e), (wrap64_add_l (a + b + c + d + e) f),
    (wrap64_add_l (a + b + c + d + e + f) g).
  reflexivity.
Qed.

Lemma valid_receipt_amounts (r : Receipt) :
  valid_receipt r -> Forall (fun item => is_amount (Item_Price item)) (Receipt_Items r).
Proof.
  intros [raw H]. apply Receipt_Unmarshal_Ok in H as (_ & _ & _ & H & _).
  destruct (raw_items raw) as [raws|]; [|injection H as <-; constructor].
  apply Items_Unmarshal_Ok in H.
  induction H as [|rawi item raws items Hi _ IH]; constructor; [|assumption].
  apply Item_Unmarshal_Ok in Hi as [_ Hp].
  destruct (raw_price rawi) as [data|]; simpl in Hp.
  - now apply Amount_UnmarshalJSON_Ok in Hp.
  - injection Hp as <-. exact I.
Qed.

Lemma item_ceilings_nonneg (rt : GoRuntime) (items : list Item) :
  Forall (fun item => is_amount (Item_Price item)) items ->
  0 <= sumZ (item_ceilings rt items).
Proof.
  intros H. apply sumZ_nonneg. unfold item_ceilings.
  induction H as [|item items Hitem _ IH]; simpl; constructor; [|assumption].
  destruct (qualifies rt item); [|lia].
  apply ceiling_of_nonneg, f64_mul_sign; [assumption | exact I].
Qed.

Lemma fixed_rules_bounds (r : Receipt) :
  0 <= totalRoundDollarAmountPoints r
  /\ 0 <= totalMultipleOf25CentsPoints r
  /\ 0 <= purchaseDayOddPoints r
  /\ 0 <= purchaseTimeBetween2And4Points r.
Proof.
  unfold totalRoundDollarAmountPoints, totalMultipleOf25CentsPoints,
    purchaseDayOddPoints, purchaseTimeBetween2And4Points.
  repeat split;
    match goal with |- 0 <= (if ?c then _ else _) => destruct c; lia
                  | |- 0 <= (let _ := _ in if ?c then _ else _) => cbv zeta; destruct c; lia
    end.
Qed.

Lemma computeReceiptPoints_exact (rt : GoRuntime) (r : Receipt) :
  valid_receipt r ->
  ceilings_fit rt (Receipt_Items r) ->
  exact_points rt r <= int64_max ->
  computeReceiptPoints rt r = exact_points rt r /\ 0 <= computeReceiptPoints rt r.
Proof.
  intros Hvalid Hfit Hmax.
  pose proof (item_ceilings_nonneg rt _ (valid_receipt_amounts r Hvalid)) as Hitems.
  destruct (fixed_rules_bounds r) as (Hb & Hc & Hf & Hg).
  assert (Hd : 0 <= 5 * (Z.of_nat (length (Receipt_Items r)) / 2)).
  { pose proof (Z.div_pos (Z.of_nat (length (Receipt_Items r))) 2 ltac:(lia) ltac:(lia)). lia. }
  unfold exact_points in Hmax.
  assert (Hsmall : forall z, 0 <= z <= int64_max -> wrap64 z = z).
  { intros z Hz. apply wrap64_id. unfold is_int64, int64_min, int64_max in *. lia. }
  rewrite computeReceiptPoints_sum.
  rewrite alphanumericRetailerPoints_count, itemDescriptionLengthsPoints_ceilings by assumption.
  unfold every2ItemsPoints.
  rewrite (Hsmall (Z.of_nat _)) by lia.
  rewrite (Hsmall (5 * _)) by lia.
  rewrite (Hsmall (sumZ _)) by lia.
  unfold exact_points. rewrite Hsmall by lia. split; [reflexivity | lia].
Qed.

(** C2. The scoring function gives every receipt one [int64] (it is a total
    function of the receipt), equal to the sum of the seven rule
    contributions (alphanumeric retailer characters, round-dollar total,
    quarter-multiple total, item pairs, description lengths, odd day,
    afternoon window) reduced modulo 2^64.  For a validly-constructed receipt
    whose counted items have ceilings that int64 holds and whose exact sum
    does not exceed the greatest int64, it is that exact sum and is not
    negative. *)
Theorem scoring_contract (rt : GoRuntime) (r : Receipt) :
  (exists p, computeReceiptPoints rt r = p /\ is_int64 p = true)
  /\ (forall r', r' = r -> computeReceiptPoints rt r' = computeReceiptPoints rt r)
  /\ computeReceiptPoints rt r =
     wrap64 (alphanumericRetailerPoints rt r
             + totalRoundDollarAmountPoints r
             + totalMultipleOf25CentsPoints r
             + every2ItemsPoints r
             + itemDescriptionLengthsPoints rt r
             + purchaseDayOddPoints r
             + purchaseTimeBetween2And4Points r)
  /\ (valid_receipt r ->
      ceilings_fit rt (Receipt_Items r) ->
      exact_points rt r <= int64_max ->
      computeReceiptPoints rt r = exact_points rt r
      /\ 0 <= computeReceiptPoints rt r).
Proof.
  split; [|split; [|split]].
  - eexists. split; [reflexivity|]. rewrite computeReceiptPoints_sum. apply wrap64_is_int64.
  - now intros r' ->.
  - apply computeReceiptPoints_sum.
  - apply computeReceiptPoints_exact.
Qed.

Lemma target_receipt_decoded : Receipt_Unmarshal target_raw = Ok target_receipt.
Proof. vm_compute. reflexivity. Qed.

Lemma scoring_contract_witness :
  valid_receipt target_receipt
  /\ ceilings_fit example_runtime (Receipt_Items target_receipt)
  /\ exact_points example_runtime target_receipt <= int64_max
  /\ computeReceiptPoints example_runtime target_receipt = 20
  /\ 0 <= computeReceiptPoints example_runtime target_receipt.
Proof.
  assert (H1 : valid_receipt target_receipt).
  { exists target_raw. exact target_receipt_decoded. }
  assert (H2 : ceilings_fit example_runtime (Receipt_Items target_receipt)).
  { repeat constructor; intros _; vm_compute; reflexivity. }
  assert (H3 : exact_points example_runtime target_receipt <= int64_max).
  { vm_compute. discriminate. }
  destruct (scoring_contract example_runtime target_receipt) as (_ & _ & _ & H).
  destruct (H H1 H2 H3) as [Heq Hpos].
  split; [exact H1|]. split; [exact H2|]. split; [exact H3|].
  split; [rewrite Heq; vm_compute; reflexivity | exact Hpos].
Defined.

(** The score of that receipt is negative, on every platform. *)
Lemma scoring_negative :
  Receipt_Unmarshal overflow_raw = Ok overflow_receipt
  /\ valid_receipt overflow_receipt
  /\ forall rt,
       itemDescriptionLengthsPoints rt overflow_receipt = -2446744073709551616
       /\ computeReceiptPoints rt overflow_receipt = -2446744073709551587
       /\ computeReceiptPoints rt overflow_receipt < 0.
Proof.
  assert (H : Receipt_Unmarshal overflow_raw = Ok overflow_receipt) by (vm_compute; reflexivity).
  split; [exact H|]. split; [now exists overflow_raw|].
  intros rt. repeat split; vm_compute; reflexivity.
Qed.

(** ** Runs of the store *)

Lemma submit_then_lookup_witness :
  Forall (fun call : string * Receipt => fst call <> "id-1") [("id-2", overflow_receipt)]
  /\ exists id db',
       writeReceipt example_runtime NewXDB "id-1" target_receipt = (Ok id, db')
       /\ getReceiptPoints db' id = Ok 20
       /\ getReceiptPoints
            (writeReceipts example_runtime db' [("id-2", overflow_receipt)]) id = Ok 20.
Proof.
  assert (H : Forall (fun call : string * Receipt => fst call <> "id-1")
                     [("id-2", overflow_receipt)]).
  { repeat constructor. simpl. discriminate. }
  split; [exact H|].
  destruct (submit_then_lookup example_runtime NewXDB "id-1" target_receipt _ H)
    as (id & db' & Hw & Hl & Hl').
  exists id, db'. split; [exact Hw|].
  assert (E : computeReceiptPoints example_runtime target_receipt = 20) by (vm_compute; reflexivity).
  rewrite E in Hl, Hl'. now split.
Defined.

Lemma example_store_reachable :
  reachable example_runtime
    (snd (writeReceipt example_runtime NewXDB "id-1" target_receipt)) ["id-1"].
Proof. apply reachable_write, reachable_new. Qed.

Lemma unknown_id_not_found_witness :
  ~ In "id-2" ["id-1"]
  /\ getReceiptPoints (snd (writeReceipt example_runtime NewXDB "id-1" target_receipt)) "id-2"
     = Err ErrNotFound.
Proof.
  assert (H : ~ In "id-2" ["id-1"]).
  { simpl. intros [E | []]. discriminate. }
  split; [exact H|].
  destruct (unknown_id_not_found example_runtime) as (_ & Hreach & _).
  exact (Hreach _ _ "id-2" example_store_reachable H).
Defined.

Lemma corrupt_unreachable_witness :
  reachable example_runtime
    (snd (writeReceipt example_runtime NewXDB "id-1" target_receipt)) ["id-1"]
  /\ getReceiptPoints (snd (writeReceipt example_runtime NewXDB "id-1" target_receipt)) "id-1"
     <> Err ErrCorrupt.
Proof.
  split; [exact example_store_reachable|].
  destruct (corrupt_unreachable example_runtime _ _ example_store_reachable) as (_ & H & _).
  apply H.
Defined.

(** * Further properties

    What the code shows beyond the statements above: the exact set of texts
    each decoder accepts, the two rules on the total in terms of the numeral
    the document writes, runs of inserts, and the two request handlers. *)

(** ** Quoting and its inverse *)

(** A string of [n + 1] bytes is its first [n] bytes followed by its last one. *)
Lemma string_last (s : string) (n : nat) (c : ascii) :
  String.length s = S n -> String.get n s = Some c ->
  s = substring 0 n s +:+ String c EmptyString.
Proof.
  revert n. induction s as [|a s IH]; intros n Hl Hg; [discriminate|].
  destruct n as [|n].
  - simpl in *. destruct s; [|discriminate]. now injection Hg as ->.
  - simpl in Hl, Hg.
    change (String a s = String a (substring 0 n s +:+ String c EmptyString)).
    f_equal. apply IH; [lia | exact Hg].
Qed.

(** A text that [isQuotedString] admits is the quoting of what lies between its
    first and last bytes. *)
Lemma isQuotedString_inv (data : string) :
  isQuotedString data = true -> data = quoted (slice data 1 (len data - 1)).
Proof.
  unfold isQuotedString. intros H.
  apply andb_prop in H as [H H2]. apply andb_prop in H as [H0 H1].
  apply Z.leb_le in H0.
  destruct data as [|c0 rest]; [unfold len in H0; simpl in H0; lia|].
  apply byte_is_true in H1. simpl in H1. injection H1 as ->.
  apply byte_is_true in H2. unfold byte_at in H2.
  unfold len in *. simpl String.length in *.
  destruct (String.length rest) as [|n] eqn:El; [lia|].
  replace (Z.of_nat (S (S n)) - 1 <? 0) with false in H2 by (symmetry; apply Z.ltb_ge; lia).
  replace (Z.to_nat (Z.of_nat (S (S n)) - 1)) with (S n) in H2 by lia.
  simpl in H2.
  unfold quoted, slice. f_equal.
  replace (Z.to_nat 1) with 1%nat by reflexivity.
  replace (Z.to_nat (Z.of_nat (S (S n)) - 1 - 1)) with n by lia.
  simpl. apply string_last; assumption.
Qed.

Lemma obtainQuotedString_inv (data str : string) :
  obtainQuotedString data = Ok str -> data = quoted str.
Proof.
  intros H. pose proof (obtainQuotedString_Ok _ _ H) as Hq.
  unfold obtainQuotedString in H. rewrite Hq in H. simpl in H.
  injection H as <-. now apply isQuotedString_inv.
Qed.

Lemma quoted_inj (s s' : string) : quoted s = quoted s' -> s = s'.
Proof.
  unfold quoted. intros H. injection H as H.
  revert s' H. induction s as [|c s IH]; intros [|c' s'] H; simpl in H.
  - reflexivity.
  - injection H as H1 H2. subst. destruct s'; discriminate.
  - injection H as H1 H2. subst. destruct s; discriminate.
  - injection H as -> H. f_equal. now apply IH.
Qed.

(** X1. [obtainQuotedString] succeeds exactly on the texts that are a string
    between two double quotes, and returns that string byte for byte: it is
    the inverse of [quoted] and interprets no escape sequence. *)
Theorem obtainQuotedString_inverts_quoting (data str : string) :
  obtainQuotedString data = Ok str <-> data = quoted str.
Proof.
  split; [apply obtainQuotedString_inv | intros ->; apply obtainQuotedString_quoted].
Qed.

(** ** The texts each decoder accepts *)

Lemma Retailer_UnmarshalJSON_iff (data : string) (s : Retailer) :
  Retailer_UnmarshalJSON data = Ok s
  <-> data = quoted s /\ s <> EmptyString
      /\ forallb class_retailer (list_ascii_of_string s) = true.
Proof.
  split.
  - intros H. pose proof (Retailer_UnmarshalJSON_Ok _ _ H) as [Hne Hall].
    repeat split; try assumption.
    unfold Retailer_UnmarshalJSON in H. apply bind_Ok in H as (str & Hq & H).
    destruct (MatchString retailerRegex str); simpl in H; [|discriminate].
    injection H as <-. now apply obtainQuotedString_inv.
  - intros (-> & Hne & Hall). rewrite Retailer_UnmarshalJSON_quoted.
    replace (MatchString retailerRegex s) with true; [reflexivity|].
    symmetry. apply MatchString_plus_class. now split.
Qed.

Lemma Description_UnmarshalJSON_iff (data : string) (s : Description) :
  Description_UnmarshalJSON data = Ok s
  <-> data = quoted s /\ s <> EmptyString
      /\ forallb class_description (list_ascii_of_string s) = true.
Proof.
  split.
  - intros H. pose proof (Description_UnmarshalJSON_Ok _ _ H) as [Hne Hall].
    repeat split; try assumption.
    unfold Description_UnmarshalJSON in H. apply bind_Ok in H as (str & Hq & H).
    destruct (MatchString descriptionRegex str); simpl in H; [|discriminate].
    injection H as <-. now apply obtainQuotedString_inv.
  - intros (-> & Hne & Hall). rewrite Description_UnmarshalJSON_quoted.
    replace (MatchString descriptionRegex s) with true; [reflexivity|].
    symmetry. apply MatchString_plus_class. now split.
Qed.

(** X2. The retailer decoder accepts exactly the quoted, non-empty strings whose
    bytes are word characters, whitespace, [&] or [-], and returns the string
    unchanged; the description decoder accepts the same strings without [&].
    An empty name is rejected by both. *)
Theorem names_accepted_exactly (data s : string) :
  (Retailer_UnmarshalJSON data = Ok s
   <-> data = quoted s /\ s <> EmptyString
       /\ forallb class_retailer (list_ascii_of_string s) = true)
  /\ (Description_UnmarshalJSON data = Ok s
      <-> data = quoted s /\ s <> EmptyString
          /\ forallb class_description (list_ascii_of_string s) = true)
  /\ (forall c, class_retailer c = class_description c || (byte_val c =? 38)).
Proof.
  split; [apply Retailer_UnmarshalJSON_iff|].
  split; [apply Description_UnmarshalJSON_iff|].
  intros c. unfold class_retailer, class_description.
  destruct (class_word c), (class_space c), (byte_val c =? 38), (byte_val c =? 45); reflexivity.
Qed.

Lemma digit_val_range (c : ascii) : is_ascii_digit c = true -> 0 <= digit_val c <= 9.
Proof. unfold digit_val. class_arith. Qed.

Lemma decimal_value_2 (c0 c1 : ascii) :
  decimal_value 0 [c0; c1] = digit_val c0 * 10 + digit_val c1.
Proof. simpl. lia. Qed.

Lemma decimal_value_1 (c0 : ascii) : decimal_value 0 [c0] = digit_val c0.
Proof. simpl. lia. Qed.

Lemma length_0_nil {A : Type} (l : list A) : (length l =? 0)%nat = true -> l = [].
Proof. destruct l; [reflexivity | discriminate]. Qed.

Lemma skip1_cons (c : ascii) (rest : list ascii) : skip1 (c :: rest) c = Some rest.
Proof. simpl. now rewrite Ascii.eqb_refl. Qed.

Lemma getnum_two_digits (c0 c1 : ascii) (rest : list ascii) (fixed : bool) :
  is_ascii_digit c0 = true -> is_ascii_digit c1 = true ->
  getnum (c0 :: c1 :: rest) fixed = Some (digit_val c0 * 10 + digit_val c1, rest).
Proof. intros H0 H1. simpl. now rewrite H0, H1. Qed.

(** What [time.Parse] accepts for the layout [15:04]. *)
Lemma time_Parse_clock_iff (s : string) (t : time_Time) :
  time_Parse_clock s = Some t
  <-> exists hour minute,
        clock_layout s hour minute /\ hour < 24 /\ minute < 60
        /\ t = {| Year := 0; Month := 1; Day := 1; Hour := hour; Minute := minute |}.
Proof.
  unfold time_Parse_clock, clock_layout. split.
  - destruct (getnum (list_ascii_of_string s) false) as [[hour v1]|] eqn:Eh; [|discriminate].
    destruct ((hour <? 0) || (24 <=? hour)) eqn:Er; [discriminate|].
    destruct (skip1 v1 ":"%char) as [v2|] eqn:Es; [|discriminate].
    apply skip1_Some in Es. subst v1.
    destruct (getnum v2 true) as [[mi v3]|] eqn:Em; [|discriminate].
    apply getnum_fixed in Em as (m0 & m1 & -> & Hm0 & Hm1 & ->).
    destruct ((digit_val m0 * 10 + digit_val m1 <? 0) || (60 <=? digit_val m0 * 10 + digit_val m1)) eqn:Er2;
      [discriminate|].
    destruct (negb (length v3 =? 0)%nat) eqn:El; [discriminate|].
    apply negb_false_iff, length_0_nil in El. subst v3.
    intros H. injection H as <-.
    apply orb_false_iff in Er as [_ Er]. apply Z.leb_gt in Er.
    apply orb_false_iff in Er2 as [_ Er2]. apply Z.leb_gt in Er2.
    exists hour, (digit_val m0 * 10 + digit_val m1).
    split; [|repeat split; assumption].
    unfold getnum in Eh.
    destruct (list_ascii_of_string s) as [|c0 rest]; [discriminate|].
    destruct (is_ascii_digit c0) eqn:H0; [|discriminate].
    destruct rest as [|c1 rest']; [congruence|].
    destruct (is_ascii_digit c1) eqn:H1.
    + injection Eh as <- ->. exists [c0; c1], m0, m1.
      repeat split; [now right | simpl; now rewrite H0, H1, Hm0, Hm1 | simpl; lia | simpl; lia].
    + injection Eh as <- -> ->. exists [c0], m0, m1.
      repeat split; [now left | simpl; now rewrite H0, Hm0, Hm1 | simpl; lia].
  - intros (hour & minute & (h & m0 & m1 & Hs & Hl & Hd & -> & ->) & Hh & Hm & ->).
    rewrite Hs. rewrite forallb_app in Hd. apply andb_prop in Hd as [Hd Hmm].
    simpl in Hmm. apply andb_prop in Hmm as [Hm0 Hmm]. apply andb_prop in Hmm as [Hm1 _].
    pose proof (digit_val_range _ Hm0) as Rm0. pose proof (digit_val_range _ Hm1) as Rm1.
    rewrite decimal_value_2 in *.
    assert (Em : (digit_val m0 * 10 + digit_val m1 <? 0)
                 || (60 <=? digit_val m0 * 10 + digit_val m1) = false)
      by (apply orb_false_iff; split; [apply Z.ltb_ge | apply Z.leb_gt]; lia).
    destruct Hl as [Hl|Hl].
    + destruct h as [|c0 [|? ?]]; try discriminate.
      simpl in Hd. apply andb_prop in Hd as [Hc0 _].
      pose proof (digit_val_range _ Hc0) as Rc0. rewrite decimal_value_1 in *.
      assert (Eh : (digit_val c0 <? 0) || (24 <=? digit_val c0) = false)
        by (apply orb_false_iff; split; [apply Z.ltb_ge | apply Z.leb_gt]; lia).
      repeat (simpl; rewrite ?Hc0, ?Hm0, ?Hm1, ?Eh, ?Em). reflexivity.
    + destruct h as [|c0 [|c1 [|? ?]]]; try discriminate.
      simpl in Hd. apply andb_prop in Hd as [Hc0 Hd]. apply andb_prop in Hd as [Hc1 _].
      pose proof (digit_val_range _ Hc0) as Rc0. pose proof (digit_val_range _ Hc1) as Rc1.
      rewrite decimal_value_2 in *.
      assert (Eh : (digit_val c0 * 10 + digit_val c1 <? 0)
                   || (24 <=? digit_val c0 * 10 + digit_val c1) = false)
        by (apply orb_false_iff; split; [apply Z.ltb_ge | apply Z.leb_gt]; lia).
      repeat (simpl; rewrite ?Hc0, ?Hc1, ?Hm0, ?Hm1, ?Eh, ?Em). reflexivity.
Qed.

Lemma Time_UnmarshalJSON_quoted (s : string) :
  Time_UnmarshalJSON (quoted s) =
  match time_Parse_clock s with
  | None => Err ErrInvalidTime
  | Some parsedTime => Ok parsedTime
  end.
Proof. unfold Time_UnmarshalJSON. now rewrite obtainQuotedString_quoted. Qed.

(** X3. The time decoder accepts exactly the quoted texts [H:MM] and [HH:MM]
    with an hour below 24 and a minute below 60, and yields that hour and
    minute: an hour written with a single digit is accepted. *)
Theorem time_accepted_exactly (data : string) (t : Time) :
  Time_UnmarshalJSON data = Ok t
  <-> exists s hour minute,
        data = quoted s /\ clock_layout s hour minute /\ hour < 24 /\ minute < 60
        /\ t = {| Year := 0; Month := 1; Day := 1; Hour := hour; Minute := minute |}.
Proof.
  split.
  - intros H. unfold Time_UnmarshalJSON in H. apply bind_Ok in H as (s & Hq & H).
    apply obtainQuotedString_inv in Hq.
    destruct (time_Parse_clock s) as [t'|] eqn:E; [|discriminate]. injection H as ->.
    apply time_Parse_clock_iff in E as (hour & minute & Hl & Hh & Hm & Ht).
    exists s, hour, minute. repeat split; assumption.
  - intros (s & hour & minute & -> & Hl & Hh & Hm & Ht).
    rewrite Time_UnmarshalJSON_quoted.
    replace (time_Parse_clock s) with (Some t); [reflexivity|].
    symmetry. apply time_Parse_clock_iff. exists hour, minute. repeat split; assumption.
Qed.

Lemma time_accepted_exactly_witness :
  Time_UnmarshalJSON (quoted "9:05")
  = Ok {| Year := 0; Month := 1; Day := 1; Hour := 9; Minute := 5 |}.
Proof.
  apply (proj2 (time_accepted_exactly _ _)).
  exists "9:05", 9, 5. repeat split; try lia.
  exists ["9"%char], "0"%char, "5"%char. repeat split. now left.
Defined.

(** What [time.Parse] accepts for the layout [2006-01-02]. *)
Lemma time_Parse_date_iff (s : string) (t : time_Time) :
  time_Parse_date s = Some t
  <-> exists year month day,
        date_fields s year month day
        /\ 1 <= month <= 12 /\ 1 <= day <= daysIn month year
        /\ t = {| Year := year; Month := month; Day := day; Hour := 0; Minute := 0 |}.
Proof.
  unfold time_Parse_date, date_fields. split.
  - destruct (list_ascii_of_string s) as [|y0 [|y1 [|y2 [|y3 v1]]]]; try discriminate.
    destruct (negb (forallb is_ascii_digit [y0; y1; y2; y3])) eqn:Hy; [discriminate|].
    apply negb_false_iff in Hy.
    destruct (skip1 v1 "-"%char) as [v2|] eqn:E1; [|discriminate].
    apply skip1_Some in E1. subst v1.
    destruct (getnum v2 true) as [[month v3]|] eqn:Em; [|discriminate].
    apply getnum_fixed in Em as (m0 & m1 & -> & Hm0 & Hm1 & ->).
    destruct ((digit_val m0 * 10 + digit_val m1 <=? 0) || (12 <? digit_val m0 * 10 + digit_val m1))
      eqn:Rm; [discriminate|].
    destruct (skip1 v3 "-"%char) as [v4|] eqn:E2; [|discriminate].
    apply skip1_Some in E2. subst v3.
    destruct (getnum v4 true) as [[day v5]|] eqn:Ed; [|discriminate].
    apply getnum_fixed in Ed as (d0 & d1 & -> & Hd0 & Hd1 & ->).
    destruct (negb (length v5 =? 0)%nat) eqn:El; [discriminate|].
    apply negb_false_iff, length_0_nil in El. subst v5.
    match goal with |- (if ?c then _ else _) = _ -> _ => destruct c eqn:Rd; [discriminate|] end.
    intros H. injection H as <-.
    apply orb_false_iff in Rm as [Rm1 Rm2]. apply Z.leb_gt in Rm1. apply Z.ltb_ge in Rm2.
    apply orb_false_iff in Rd as [Rd1 Rd2]. apply Z.ltb_ge in Rd1. apply Z.ltb_ge in Rd2.
    eexists _, _, _. split.
    + exists y0, y1, y2, y3, m0, m1, d0, d1. repeat split.
      simpl in Hy |- *. rewrite Hm0, Hm1, Hd0, Hd1.
      repeat (apply andb_prop in Hy as [-> Hy]). reflexivity.
    + rewrite !decimal_value_2. repeat split; lia.
  - intros (year & month & day & (y0 & y1 & y2 & y3 & m0 & m1 & d0 & d1 & Hs & Hd & -> & -> & ->)
            & Hm & Hday & ->).
    rewrite Hs. rewrite !decimal_value_2 in *.
    set (year := decimal_value 0 [y0; y1; y2; y3]) in *.
    change (forallb is_ascii_digit ([y0; y1; y2; y3] ++ [m0; m1; d0; d1]) = true) in Hd.
    rewrite forallb_app in Hd. apply andb_prop in Hd as [Hy Hd].
    simpl in Hd. apply andb_prop in Hd as [Hm0 Hd]. apply andb_prop in Hd as [Hm1 Hd].
    apply andb_prop in Hd as [Hd0 Hd]. apply andb_prop in Hd as [Hd1 _].
    rewrite Hy.
    assert (Rm : (digit_val m0 * 10 + digit_val m1 <=? 0) || (12 <? digit_val m0 * 10 + digit_val m1)
                 = false)
      by (apply orb_false_iff; split; [apply Z.leb_gt | apply Z.ltb_ge]; lia).
    assert (Rd : (digit_val d0 * 10 + digit_val d1 <? 1)
                 || (daysIn (digit_val m0 * 10 + digit_val m1) year <? digit_val d0 * 10 + digit_val d1)
                 = false)
      by (apply orb_false_iff; split; apply Z.ltb_ge; lia).
    cbn [negb]. rewrite skip1_cons, (getnum_two_digits m0 m1) by assumption.
    rewrite Rm, skip1_cons, (getnum_two_digits d0 d1) by assumption.
    cbn [length Nat.eqb negb]. now rewrite Rd.
Qed.

(** The bit formula of [daysIn] is the table of the calendar. *)
Lemma daysIn_table (month year : Z) :
  1 <= month <= 12 ->
  daysIn month year =
  if month =? 2 then (if isLeap year then 29 else 28)
  else if (month =? 4) || (month =? 6) || (month =? 9) || (month =? 11) then 30
  else 31.
Proof.
  intros H.
  assert (C : month = 1 \/ month = 2 \/ month = 3 \/ month = 4 \/ month = 5 \/ month = 6
              \/ month = 7 \/ month = 8 \/ month = 9 \/ month = 10 \/ month = 11 \/ month = 12)
    by lia.
  unfold daysIn.
  repeat (destruct C as [->|C]; [reflexivity|]). subst. reflexivity.
Qed.

(** X4. The date decoder accepts exactly the quoted texts [YYYY-MM-DD] whose
    month is in 1..12 and whose day exists in that month of that year, and
    yields that year, month and day at midnight; the months have 31 days,
    but April, June, September and November 30 and February 28, or 29 in a
    leap year. *)
Theorem date_accepted_exactly (data : string) (t : Date) :
  (Date_UnmarshalJSON data = Ok t
   <-> exists s year month day,
         data = quoted s /\ date_fields s year month day
         /\ 1 <= month <= 12 /\ 1 <= day <= daysIn month year
         /\ t = {| Year := year; Month := month; Day := day; Hour := 0; Minute := 0 |})
  /\ (forall month year, 1 <= month <= 12 ->
        daysIn month year =
        if month =? 2 then (if isLeap year then 29 else 28)
        else if (month =? 4) || (month =? 6) || (month =? 9) || (month =? 11) then 30
        else 31).
Proof.
  split; [|apply daysIn_table].
  split.
  - intros H. unfold Date_UnmarshalJSON in H. apply bind_Ok in H as (s & Hq & H).
    apply obtainQuotedString_inv in Hq.
    destruct (time_Parse_date s) as [t'|] eqn:E; [|discriminate]. injection H as ->.
    apply time_Parse_date_iff in E as (year & month & day & Hf & Hm & Hd & Ht).
    exists s, year, month, day. repeat split; try assumption; lia.
  - intros (s & year & month & day & -> & Hf & Hm & Hd & Ht).
    rewrite Date_UnmarshalJSON_quoted.
    replace (time_Parse_date s) with (Some t); [reflexivity|].
    symmetry. apply time_Parse_date_iff. exists year, month, day. repeat split; try assumption; lia.
Qed.

Lemma date_accepted_exactly_witness :
  Date_UnmarshalJSON (quoted "2024-02-29")
  = Ok {| Year := 2024; Month := 2; Day := 29; Hour := 0; Minute := 0 |}
  /\ daysIn 2 2024 = 29 /\ daysIn 2 2022 = 28.
Proof.
  split; [|split].
  - apply (proj1 (date_accepted_exactly _ _)).
    exists "2024-02-29", 2024, 2, 29. repeat split; try (vm_compute; congruence).
    exists "2"%char, "0"%char, "2"%char, "4"%char, "0"%char, "2"%char, "2"%char, "9"%char.
    repeat split.
  - rewrite (proj2 (date_accepted_exactly EmptyString zero_Time) 2 2024); [reflexivity | lia].
  - rewrite (proj2 (date_accepted_exactly EmptyString zero_Time) 2 2022); [reflexivity | lia].
Defined.

(** ** Amounts: the numeral and its magnitude *)

Lemma split_dot_digits (i f : list ascii) :
  forallb is_ascii_digit i = true -> split_dot (i ++ "."%char :: f) = (i, Some f).
Proof.
  induction i as [|c i IH]; intros H; [reflexivity|].
  simpl in H. apply andb_prop in H as [Hc Hi]. simpl.
  replace (class_dot c) with false by (symmetry; revert Hc; unfold class_dot; class_arith).
  now rewrite IH.
Qed.

Lemma filter_all {A : Type} (f : A -> bool) (l : list A) :
  forallb f l = true -> List.filter f l = l.
Proof.
  induction l as [|x l IH]; simpl; [reflexivity|].
  intros H. apply andb_prop in H as [-> H]. now rewrite IH.
Qed.

Lemma cents_numeral (s : string) (i : list ascii) (d1 d2 : ascii) :
  list_ascii_of_string s = i ++ ["."%char; d1; d2] ->
  forallb is_ascii_digit i = true -> is_ascii_digit d1 = true -> is_ascii_digit d2 = true ->
  cents s = decimal_value 0 (i ++ [d1; d2]).
Proof.
  intros Hs Hi H1 H2. unfold cents. rewrite Hs, List.filter_app. simpl.
  rewrite H1, H2, filter_all by assumption. reflexivity.
Qed.

(** On a numeral of the amount format, [strconv.ParseFloat] rounds the number
    of cents over 100. *)
Lemma strconv_ParseFloat_numeral (s : string) :
  two_decimal_numeral s ->
  strconv_ParseFloat s =
  match float64_of_ratio (cents s) 100 with
  | S754_infinity _ => Err (errors_New "strconv.ParseFloat: value out of range")
  | v => Ok v
  end.
Proof.
  intros (i & d1 & d2 & Hs & Hne & Hi & H1 & H2).
  rewrite (cents_numeral s i d1 d2) by assumption.
  unfold strconv_ParseFloat. rewrite Hs, split_dot_digits by assumption.
  replace (forallb is_ascii_digit (i ++ [d1; d2])) with true
    by (rewrite forallb_app, Hi; simpl; now rewrite H1, H2).
  replace (length (i ++ [d1; d2]) =? 0)%nat with false
    by (symmetry; apply Nat.eqb_neq; rewrite length_app; simpl; lia).
  reflexivity.
Qed.

(** The quotient computed before rounding lies within one binary order of
    magnitude of the ratio of the operands. *)
Lemma SFdiv_core_binary_magnitude (m1 m2 : positive) (e1 e2 : Z) :
  let '(q, e', _) := SFdiv_core_binary prec emax (Zpos m1) e1 (Zpos m2) e2 in
  let D := Zdigits2 (Zpos m1) + e1 - (Zdigits2 (Zpos m2) + e2) in
  D <= Zdigits2 q + e' <= Z.max (e1 - e2) (D + 1).
Proof.
  unfold SFdiv_core_binary.
  set (d1 := Zdigits2 (Zpos m1)). set (d2 := Zdigits2 (Zpos m2)).
  fold (fexp64 (d1 + e1 - (d2 + e2))).
  set (e' := Z.min (fexp64 (d1 + e1 - (d2 + e2))) (e1 - e2)).
  set (s := e1 - e2 - e').
  assert (Hs : 0 <= s) by (unfold s, e'; lia).
  set (m' := match s with Z0 => _ | Zpos _ => _ | Zneg _ => _ end).
  assert (Em' : m' = Zpos m1 * 2 ^ s).
  { subst m'. destruct s as [|p|p] eqn:Es; [lia | | lia].
    apply Z.shiftl_mul_pow2. lia. }
  pose proof (Z_div_mod m' (Zpos m2) ltac:(lia)) as Hdiv.
  destruct (Z.div_eucl m' (Zpos m2)) as [q r]. destruct Hdiv as [Hq Hr].
  cbv zeta.
  pose proof (Z.pow_pos_nonneg 2 s ltac:(lia) Hs) as HB.
  assert (Hq0 : 0 <= q) by nia.
  pose proof (Zdigits2_bounds (Zpos m1) ltac:(lia)) as [Hm1 Hm1'].
  pose proof (Zdigits2_bounds (Zpos m2) ltac:(lia)) as [Hm2' Hm2].
  fold d1 in Hm1, Hm1'. fold d2 in Hm2, Hm2'.
  assert (Hd1 : 1 <= d1) by (unfold d1; simpl; lia).
  assert (Hd2 : 1 <= d2) by (unfold d2; simpl; lia).
  pose proof (Z.pow_pos_nonneg 2 (d2 - 1) ltac:(lia) ltac:(lia)) as HC'.
  split.
  - assert (Hd : d1 + s - d2 <= Zdigits2 q).
    { destruct (Z.le_gt_cases (d1 + s - d2) 0) as [Hle | Hgt].
      - pose proof (Zdigits2_nonneg q). lia.
      - assert (Hpow : 2 ^ (d1 - 1) * 2 ^ s = 2 ^ (d1 + s - d2 - 1) * 2 ^ d2).
        { rewrite <- !Z.pow_add_r by lia. f_equal. lia. }
        assert (Hqlow : 2 ^ (d1 + s - d2 - 1) <= q).
        { pose proof (Z.pow_pos_nonneg 2 (d1 + s - d2 - 1) ltac:(lia) ltac:(lia)) as HA.
          pose proof (Z.pow_pos_nonneg 2 d2 ltac:(lia) ltac:(lia)) as HC.
          assert (Hlt : 2 ^ (d1 + s - d2 - 1) * Zpos m2 < (q + 1) * Zpos m2) by nia.
          nia. }
        assert (Hqpos : 0 < q).
        { pose proof (Z.pow_pos_nonneg 2 (d1 + s - d2 - 1) ltac:(lia) ltac:(lia)). lia. }
        rewrite Zdigits2_log2 by assumption.
        pose proof (Z.log2_le_pow2 q (d1 + s - d2 - 1) Hqpos) as [Hlog _].
        specialize (Hlog Hqlow). lia. }
    unfold s in Hd. lia.
  - destruct (Z.eq_dec q 0) as [->|Hq1].
    + simpl. unfold e'. lia.
    + assert (Hup : Zdigits2 q <= d1 + s - d2 + 1).
      { apply Zdigits2_le; [lia|].
        destruct (Z.le_gt_cases 0 (d1 + s - d2 + 1)) as [Hge | Hlt].
        - assert (Hpow : 2 ^ d1 * 2 ^ s = 2 ^ (d1 + s - d2 + 1) * 2 ^ (d2 - 1)).
          { rewrite <- !Z.pow_add_r by lia. f_equal. lia. }
          pose proof (Z.pow_pos_nonneg 2 (d1 + s - d2 + 1) ltac:(lia) ltac:(lia)) as HA.
          nia.
        - (* the dividend is below the divisor, so the quotient is 0 *)
          exfalso.
          assert (Hpow : 2 ^ d1 * 2 ^ s <= 2 ^ (d2 - 1)).
          { rewrite <- Z.pow_add_r by lia. apply Z.pow_le_mono_r; lia. }
          nia. }
      unfold s in Hup. lia.
Qed.

Lemma Zdigits2_succ (m : Z) : 0 <= m -> Zdigits2 (m + 1) <= Zdigits2 m + 1.
Proof.
  intros Hm. destruct (Z.eq_dec m 0) as [->|Hne]; [simpl; lia|].
  apply Zdigits2_le; [lia|].
  pose proof (Zdigits2_bounds m ltac:(lia)) as [_ Hb].
  pose proof (Zdigits2_nonneg m).
  rewrite Z.pow_add_r by lia. lia.
Qed.

(** A shift to the canonical exponent keeps the magnitude of a mantissa that
    does not vanish. *)
Lemma shr_fexp_digits (m e : Z) (l : location) :
  0 <= m -> e <= fexp64 (Zdigits2 m + e) ->
  let m' := shr_m (fst (shr_fexp prec emax m e l)) in
  let e' := snd (shr_fexp prec emax m e l) in
  e' = fexp64 (Zdigits2 m + e) /\ 0 <= m'
  /\ (0 < m' -> Zdigits2 m' + e' = Zdigits2 m + e)
  /\ (0 < m' \/ (m' = 0 /\ e' = emin prec emax)).
Proof.
  intros Hm He. cbv zeta.
  destruct (shr_fexp_spec m e l Hm He) as [Em Ee].
  destruct (shr_fexp_canonical m e l Hm He) as [Hm' Hc]. cbv zeta in Hm', Hc.
  repeat split; try assumption.
  - intros Hpos. rewrite Em in Hpos |- *. rewrite Zdigits2_shiftr by (assumption || lia).
    rewrite Ee. lia.
  - destruct (Z.eq_dec (shr_m (fst (shr_fexp prec emax m e l))) 0) as [E0|Hne]; [|left; lia].
    right. split; [assumption|]. rewrite E0 in Hc. simpl in Hc.
    rewrite fexp64_eq in Hc.
    generalize dependent (snd (shr_fexp prec emax m e l)). intros e' _ Hc.
    change (emin prec emax) with (-1074). lia.
Qed.

(** Rounding a value of magnitude beyond the greatest exponent overflows. *)
Lemma binary_round_aux_overflow (s : bool) (m e : Z) (l : location) :
  0 <= m -> e <= fexp64 (Zdigits2 m + e) -> emax < Zdigits2 m + e ->
  binary_round_aux prec emax s m e l = S754_infinity s.
Proof.
  intros Hm He Hbig. unfold binary_round_aux.
  destruct (shr_fexp_digits m e l Hm He) as (Ee1 & Hm1 & Hd1 & Hz1).
  destruct (shr_fexp prec emax m e l) as [mrs' e'] eqn:E1. simpl in Ee1, Hm1, Hd1, Hz1.
  assert (He'big : emax - prec < e').
  { rewrite Ee1, fexp64_eq. unfold emax, prec in *. lia. }
  set (m1 := round_nearest_even (shr_m mrs') (loc_of_shr_record mrs')).
  pose proof (round_nearest_even_bounds (shr_m mrs') (loc_of_shr_record mrs')) as Hr.
  fold m1 in Hr.
  assert (Hm1' : 0 <= m1) by lia.
  assert (Ee1c : e' = fexp64 (Zdigits2 (shr_m mrs') + e')).
  { pose proof (shr_fexp_canonical m e l Hm He) as [_ Hc]. rewrite E1 in Hc. exact Hc. }
  assert (He1' : e' <= fexp64 (Zdigits2 m1 + e')).
  { rewrite Ee1c at 1. apply fexp64_mono.
    pose proof (Zdigits2_mono (shr_m mrs') m1 ltac:(lia)). lia. }
  destruct (shr_fexp_digits m1 e' loc_Exact Hm1' He1') as (Ee2 & Hm2 & Hd2 & Hz2).
  destruct (shr_fexp prec emax m1 e' loc_Exact) as [mrs'' e''] eqn:E2.
  simpl in Ee2, Hm2, Hd2, Hz2.
  assert (He''big : emax - prec < e'') by lia.
  destruct Hz2 as [Hpos | [_ Hemin]]; [|unfold emin, emax, prec in *; lia].
  destruct (shr_m mrs'') as [|p|p]; [lia | | lia].
  replace (e'' <=? emax - prec) with false by (symmetry; apply Z.leb_gt; lia).
  reflexivity.
Qed.

(** Rounding a value of magnitude below the greatest exponent does not
    overflow. *)
Lemma binary_round_aux_finite (s : bool) (m e : Z) (l : location) :
  0 <= m -> e <= fexp64 (Zdigits2 m + e) -> Zdigits2 m + e < emax ->
  match binary_round_aux prec emax s m e l with
  | S754_zero _ | S754_finite _ _ _ => True
  | _ => False
  end.
Proof.
  intros Hm He Hsmall. unfold binary_round_aux.
  destruct (shr_fexp_digits m e l Hm He) as (Ee1 & Hm1 & Hd1 & Hz1).
  destruct (shr_fexp prec emax m e l) as [mrs' e'] eqn:E1. simpl in Ee1, Hm1, Hd1, Hz1.
  set (m1 := round_nearest_even (shr_m mrs') (loc_of_shr_record mrs')).
  pose proof (round_nearest_even_bounds (shr_m mrs') (loc_of_shr_record mrs')) as Hr.
  fold m1 in Hr.
  assert (Hm1' : 0 <= m1) by lia.
  assert (Ee1c : e' = fexp64 (Zdigits2 (shr_m mrs') + e')).
  { pose proof (shr_fexp_canonical m e l Hm He) as [_ Hc]. rewrite E1 in Hc. exact Hc. }
  assert (He1' : e' <= fexp64 (Zdigits2 m1 + e')).
  { rewrite Ee1c at 1. apply fexp64_mono.
    pose proof (Zdigits2_mono (shr_m mrs') m1 ltac:(lia)). lia. }
  assert (Hdig : Zdigits2 m1 + e' <= emax).
  { pose proof (Zdigits2_mono m1 (shr_m mrs' + 1) ltac:(lia)) as Hmono.
    pose proof (Zdigits2_succ (shr_m mrs') Hm1) as Hsucc.
    destruct Hz1 as [Hpos | [H0 Hemin]].
    - specialize (Hd1 Hpos). lia.
    - rewrite H0 in Hmono. change (Zdigits2 (0 + 1)) with 1 in Hmono.
      rewrite Hemin. change (emin prec emax) with (-1074). unfold emax. lia. }
  destruct (shr_fexp_digits m1 e' loc_Exact Hm1' He1') as (Ee2 & Hm2 & Hd2 & Hz2).
  destruct (shr_fexp prec emax m1 e' loc_Exact) as [mrs'' e''] eqn:E2.
  simpl in Ee2, Hm2, Hd2, Hz2.
  assert (He'' : e'' <= emax - prec).
  { rewrite Ee2, fexp64_eq. unfold emax, prec in *. lia. }
  destruct (shr_m mrs'') as [|p|p]; [exact I | | lia].
  replace (e'' <=? emax - prec) with true by (symmetry; apply Z.leb_le; lia).
  exact I.
Qed.

(** Hundredths: 2^1031 or more round to infinity, fewer than 2^1029 to a
    number. *)
Lemma float64_of_ratio_range (k : Z) :
  (2 ^ 1031 <= k -> float64_of_ratio k 100 = S754_infinity false)
  /\ (k < 2 ^ 1029 -> is_amount (float64_of_ratio k 100)).
Proof.
  unfold float64_of_ratio. destruct k as [|p|p].
  - split; [intros H; exfalso; revert H; apply Z.lt_nge; reflexivity | intros _; exact I].
  - unfold SFdiv.
    pose proof (SFdiv_core_binary_shape p 100 0 0) as Hshape.
    pose proof (SFdiv_core_binary_magnitude p 100 0 0) as Hmag.
    destruct (SFdiv_core_binary prec emax (Zpos p) 0 (Zpos 100) 0) as [[mz ez] lz].
    destruct Hshape as [Hq He]. cbv zeta in Hmag.
    change (Zdigits2 (Zpos 100)) with 7 in Hmag.
    change (xorb false false) with false.
    split; intros Hk.
    + apply binary_round_aux_overflow; try assumption.
      assert (1032 <= Zdigits2 (Zpos p)).
      { rewrite Zdigits2_log2 by lia.
        pose proof (Z.log2_le_pow2 (Zpos p) 1031 ltac:(lia)) as [Hlog _].
        specialize (Hlog Hk). lia. }
      unfold emax. lia.
    + assert (Zdigits2 (Zpos p) <= 1029) by (apply Zdigits2_le; [lia | assumption]).
      pose proof (binary_round_aux_finite false mz ez lz Hq He) as Hfin.
      pose proof (binary_round_aux_sign false mz ez lz Hq) as Hsign.
      destruct (binary_round_aux prec emax false mz ez lz) as [sx|sx| |sx mx ex];
        simpl in Hsign; subst; try exact I.
      * apply Hfin. unfold emax. lia.
      * exact Hsign.
  - split; [intros H; exfalso; pose proof (Z.pow_pos_nonneg 2 1031 ltac:(lia) ltac:(lia)); lia
           | intros _; exact I].
Qed.

Lemma Amount_UnmarshalJSON_iff (data : string) (v : Amount) :
  Amount_UnmarshalJSON data = Ok v
  <-> exists s, data = quoted s /\ two_decimal_numeral s
                /\ v = float64_of_ratio (cents s) 100 /\ is_amount v.
Proof.
  split.
  - intros H. pose proof (Amount_UnmarshalJSON_Ok _ _ H) as Ha.
    unfold Amount_UnmarshalJSON in H. apply bind_Ok in H as (s & Hq & H).
    apply obtainQuotedString_inv in Hq.
    destruct (MatchString twoDecimalFloatRegex s) eqn:Em; simpl in H; [|discriminate].
    apply MatchString_twoDecimalFloatRegex in Em.
    rewrite strconv_ParseFloat_numeral in H by assumption.
    exists s. repeat split; try assumption.
    destruct (float64_of_ratio (cents s) 100); try discriminate; now injection H as <-.
  - intros (s & -> & Hn & -> & Ha).
    rewrite Amount_UnmarshalJSON_quoted.
    replace (MatchString twoDecimalFloatRegex s) with true
      by (symmetry; now apply MatchString_twoDecimalFloatRegex).
    rewrite strconv_ParseFloat_numeral by assumption.
    destruct (float64_of_ratio (cents s) 100) as [[|]|sx| |[|] m e]; try contradiction; reflexivity.
Qed.

(** X5. The amount decoder accepts exactly the quoted numerals [digits.dd] whose
    nearest [float64] is finite, and yields that float: the rounding of the
    number of cents over 100, a number that is zero or positive and is a
    binary64 datum. *)
Theorem amount_accepted_exactly (data : string) (v : Amount) :
  Amount_UnmarshalJSON data = Ok v
  <-> exists s, data = quoted s /\ two_decimal_numeral s
                /\ v = float64_of_ratio (cents s) 100
                /\ is_amount v /\ is_binary64 v = true.
Proof.
  split.
  - intros H. pose proof (Amount_UnmarshalJSON_valid _ _ H) as Hv.
    apply Amount_UnmarshalJSON_iff in H as (s & Hd & Hn & Hr & Ha).
    exists s. repeat split; assumption.
  - intros (s & Hd & Hn & Hr & Ha & _). apply Amount_UnmarshalJSON_iff.
    exists s. repeat split; assumption.
Qed.

(** X6. A numeral of the amount format is accepted when it writes fewer than
    2^1029 cents, and is rejected as not a valid float when it writes 2^1031
    cents or more: the second error of the decoder can occur, for numerals
    of more than 300 digits only. *)
Theorem amount_magnitude (s : string) :
  two_decimal_numeral s ->
  (cents s < 2 ^ 1029 -> Amount_UnmarshalJSON (quoted s) = Ok (float64_of_ratio (cents s) 100))
  /\ (2 ^ 1031 <= cents s -> Amount_UnmarshalJSON (quoted s) = Err ErrAmountNotFloat).
Proof.
  intros Hn. destruct (float64_of_ratio_range (cents s)) as [Hbig Hsmall]. split; intros Hc.
  - apply Amount_UnmarshalJSON_iff. exists s. repeat split; auto.
  - rewrite Amount_UnmarshalJSON_quoted.
    replace (MatchString twoDecimalFloatRegex s) with true
      by (symmetry; now apply MatchString_twoDecimalFloatRegex).
    rewrite strconv_ParseFloat_numeral, Hbig by assumption. reflexivity.
Qed.

Lemma amount_magnitude_witness :
  two_decimal_numeral "35.35"
  /\ Amount_UnmarshalJSON (quoted "35.35") = Ok (float64_of_ratio 3535 100)
  /\ two_decimal_numeral "10000000000000000000000000000000000000000000000000000000000000000000000000000000000000000000000000000000000000000000000000000000000000000000000000000000000000000000000000000000000000000000000000000000000000000000000000000000000000000000000000000000000000000000000000000000000000000000000000000000000000000000000.00"
  /\ Amount_UnmarshalJSON (quoted "10000000000000000000000000000000000000000000000000000000000000000000000000000000000000000000000000000000000000000000000000000000000000000000000000000000000000000000000000000000000000000000000000000000000000000000000000000000000000000000000000000000000000000000000000000000000000000000000000000000000000000000000.00")
     = Err ErrAmountNotFloat.
Proof.
  assert (H1 : two_decimal_numeral "35.35")
    by (apply MatchString_twoDecimalFloatRegex; vm_compute; reflexivity).
  assert (H2 : two_decimal_numeral "10000000000000000000000000000000000000000000000000000000000000000000000000000000000000000000000000000000000000000000000000000000000000000000000000000000000000000000000000000000000000000000000000000000000000000000000000000000000000000000000000000000000000000000000000000000000000000000000000000000000000000000000.00")
    by (apply MatchString_twoDecimalFloatRegex; vm_compute; reflexivity).
  split; [exact H1|]. split; [|split; [exact H2|]].
  - apply (proj1 (amount_magnitude "35.35" H1)). apply Z.ltb_lt. vm_compute. reflexivity.
  - apply (proj2 (amount_magnitude _ H2)). apply Z.leb_le. vm_compute. reflexivity.
Defined.

(** ** Documents *)

(** A member whose decoding fails is given and rejected. *)
Lemma member_Err {A : Type} (decode : string -> result A) (zero : A)
    (m : option string) (e : error) :
  member decode zero m = Err e -> rejected decode m.
Proof.
  destruct m as [data|]; simpl; [|discriminate].
  intros H. exists data. split; [reflexivity | now rewrite H].
Qed.

Lemma Item_Unmarshal_Err (raw : RawItem) (e : error) :
  Item_Unmarshal raw = Err e ->
  rejected Description_UnmarshalJSON (raw_shortDescription raw)
  \/ rejected Amount_UnmarshalJSON (raw_price raw).
Proof.
  unfold Item_Unmarshal.
  destruct (member Description_UnmarshalJSON EmptyString (raw_shortDescription raw))
    as [d|e1] eqn:E1; simpl; [|intros _; left; now apply member_Err in E1].
  destruct (member Amount_UnmarshalJSON (S754_zero false) (raw_price raw))
    as [p|e2] eqn:E2; simpl; [discriminate|].
  intros _. right. now apply member_Err in E2.
Qed.

Lemma Items_Unmarshal_Err (raws : list RawItem) :
  is_ok (Items_Unmarshal raws) = false ->
  exists i, In i raws
            /\ (rejected Description_UnmarshalJSON (raw_shortDescription i)
                \/ rejected Amount_UnmarshalJSON (raw_price i)).
Proof.
  induction raws as [|raw raws IH]; simpl; [discriminate|].
  destruct (Item_Unmarshal raw) as [i|e1] eqn:E1; simpl.
  - destruct (Items_Unmarshal raws) as [rest|e2] eqn:E2; simpl; [discriminate|].
    intros _. destruct (IH eq_refl) as (i' & Hin & Hr). exists i'. split; [now right | exact Hr].
  - intros _. exists raw. split; [now left | now apply Item_Unmarshal_Err in E1].
Qed.

(** X7. A document is refused exactly when one of the members it gives, of the
    receipt or of one of its items, is rejected by its decoder; a member
    that is absent never causes a refusal. *)
Theorem document_refused_exactly (raw : RawReceipt) :
  is_ok (Receipt_Unmarshal raw) = false <-> field_rejected raw.
Proof.
  split; [|apply field_rejected_no_receipt].
  unfold Receipt_Unmarshal, field_rejected.
  destruct (member Retailer_UnmarshalJSON EmptyString (raw_retailer raw)) as [x1|e1] eqn:E1;
    simpl; [|intros _; left; now apply member_Err in E1].
  destruct (member Date_UnmarshalJSON zero_Time (raw_purchaseDate raw)) as [x2|e2] eqn:E2;
    simpl; [|intros _; right; left; now apply member_Err in E2].
  destruct (member Time_UnmarshalJSON zero_Time (raw_purchaseTime raw)) as [x3|e3] eqn:E3;
    simpl; [|intros _; right; right; left; now apply member_Err in E3].
  destruct (raw_items raw) as [raws|] eqn:Ei.
  - destruct (Items_Unmarshal raws) as [x4|e4] eqn:E4; simpl.
    + destruct (member Amount_UnmarshalJSON (S754_zero false) (raw_total raw)) as [x5|e5] eqn:E5;
        simpl; [discriminate|].
      intros _. right; right; right; left. now apply member_Err in E5.
    + intros _. right; right; right; right.
      destruct (Items_Unmarshal_Err raws) as (i & Hin & Hr); [now rewrite E4|].
      exists raws, i. auto.
  - simpl.
    destruct (member Amount_UnmarshalJSON (S754_zero false) (raw_total raw)) as [x5|e5] eqn:E5;
      simpl; [discriminate|].
    intros _. right; right; right; left. now apply member_Err in E5.
Qed.

(** X8. A member that the document omits leaves its field at the zero value, and
    the rules score that value: no retailer gives 0, no total gives 50 and
    25 (zero is a round amount and a multiple of 0.25), no items give 0, no
    date gives 6 (the zero date is a day 1) and no time gives 0.  The
    document without members is accepted and scores 81. *)
Theorem omitted_members_score (rt : GoRuntime) (raw : RawReceipt) (r : Receipt) :
  Receipt_Unmarshal raw = Ok r ->
  (raw_retailer raw = None -> alphanumericRetailerPoints rt r = 0)
  /\ (raw_total raw = None ->
      totalRoundDollarAmountPoints r = 50 /\ totalMultipleOf25CentsPoints r = 25)
  /\ (raw_items raw = None ->
      every2ItemsPoints r = 0 /\ itemDescriptionLengthsPoints rt r = 0)
  /\ (raw_purchaseDate raw = None -> purchaseDayOddPoints r = 6)
  /\ (raw_purchaseTime raw = None -> purchaseTimeBetween2And4Points r = 0)
  /\ (raw = empty_raw -> r = empty_receipt /\ computeReceiptPoints rt r = 81).
Proof.
  intros H. pose proof (Receipt_Unmarshal_Ok raw r H) as (H1 & H2 & H3 & H4 & H5).
  split; [|split; [|split; [|split; [|split]]]]; intros Hn.
  - rewrite Hn in H1. injection H1 as H1.
    unfold alphanumericRetailerPoints. now rewrite <- H1.
  - rewrite Hn in H5. injection H5 as H5.
    unfold totalRoundDollarAmountPoints, totalMultipleOf25CentsPoints. now rewrite <- H5.
  - rewrite Hn in H4. injection H4 as H4.
    unfold every2ItemsPoints, itemDescriptionLengthsPoints. now rewrite <- H4.
  - rewrite Hn in H2. injection H2 as H2.
    unfold purchaseDayOddPoints. now rewrite <- H2.
  - rewrite Hn in H3. injection H3 as H3.
    unfold purchaseTimeBetween2And4Points. now rewrite <- H3.
  - subst raw. injection H as <-. split; reflexivity.
Qed.

Lemma omitted_members_score_witness :
  Receipt_Unmarshal empty_raw = Ok empty_receipt
  /\ computeReceiptPoints example_runtime empty_receipt = 81
  /\ purchaseDayOddPoints empty_receipt = 6.
Proof.
  assert (H : Receipt_Unmarshal empty_raw = Ok empty_receipt) by reflexivity.
  destruct (omitted_members_score example_runtime empty_raw empty_receipt H)
    as (_ & _ & _ & Hd & _ & He).
  split; [exact H|]. split; [exact (proj2 (He eq_refl)) | exact (Hd eq_refl)].
Defined.

(** ** The round-dollar rule in exact arithmetic *)

(** [==] on two decoded amounts is equality of their exact values. *)
Lemma f64_eqb_units (x y : float64) :
  is_amount x -> is_amount y ->
  is_binary64 x = true -> is_binary64 y = true ->
  f64_eqb x y = (units x =? units y).
Proof.
  intros Hx Hy Vx Vy.
  destruct x as [[|]|sx| |[|] m1 e1]; try contradiction;
    destruct y as [[|]|sy| |[|] m2 e2]; try contradiction.
  - reflexivity.
  - pose proof (units_finite_pos m2 e2
                  (proj1 (proj1 (is_binary64_finite _ _ _ Vy)))) as H.
    change (f64_eqb (S754_zero false) (S754_finite false m2 e2)) with false.
    symmetry. apply Z.eqb_neq. change (units (S754_zero false)) with 0. lia.
  - pose proof (units_finite_pos m1 e1
                  (proj1 (proj1 (is_binary64_finite _ _ _ Vx)))) as H.
    change (f64_eqb (S754_finite false m1 e1) (S754_zero false)) with false.
    symmetry. apply Z.eqb_neq. change (units (S754_zero false)) with 0. lia.
  - unfold f64_eqb, SFeqb, SFcompare.
    destruct (Z.compare_spec e1 e2) as [E | E | E].
    + subst e2. rewrite Pos.compare_cont_spec. unfold Pos.switch_Eq.
      unfold units.
      pose proof (Z.pow_pos_nonneg 2 (e1 - emin prec emax) ltac:(lia)
                    ltac:(pose proof (is_binary64_finite _ _ _ Vx); lia)) as HA.
      destruct (Pos.compare_spec m1 m2) as [Em | Em | Em]; symmetry.
      * rewrite Em. apply Z.eqb_refl.
      * apply Z.eqb_neq. nia.
      * apply Z.eqb_neq. nia.
    + symmetry. apply Z.eqb_neq.
      pose proof (units_finite_lt m1 m2 e1 e2 Vx Vy E). lia.
    + symmetry. apply Z.eqb_neq.
      pose proof (units_finite_lt m2 m1 e2 e1 Vy Vx E). lia.
Qed.

Lemma units_const_1 : units const_1 = 2 ^ 1074.
Proof. reflexivity. Qed.

(** [math.Trunc] of a decoded amount is its value rounded down to a multiple of
    1, exactly. *)
Lemma math_Trunc_units (x : float64) :
  is_amount x -> is_binary64 x = true ->
  is_amount (math_Trunc x) /\ is_binary64 (math_Trunc x) = true
  /\ units (math_Trunc x) = units x / units const_1 * units const_1.
Proof.
  intros Hx Vx. rewrite units_const_1.
  destruct x as [[|]|sx| |[|] m e]; try contradiction.
  - repeat split.
  - pose proof Vx as Vx'. apply is_binary64_finite in Vx' as (He & Hd & _).
    change (emin prec emax) with (-1074) in He.
    unfold math_Trunc.
    destruct (0 <=? e) eqn:E0.
    + apply Z.leb_le in E0. repeat split; [assumption|].
      unfold units. change (emin prec emax) with (-1074).
      replace (e - -1074) with (e + 1074) by lia.
      rewrite Z.pow_add_r by lia.
      rewrite Z.mul_assoc, Z.div_mul; [reflexivity|].
      apply Z.pow_nonzero; lia.
    + apply Z.leb_gt in E0.
      assert (Hsh : 0 <= Z.shiftr (Zpos m) (- e)) by (apply Z.shiftr_nonneg; lia).
      assert (Hdig : Zdigits2 (Z.shiftr (Zpos m) (- e)) <= prec).
      { eapply Z.le_trans; [|exact Hd]. apply Zdigits2_mono. split; [assumption|].
        rewrite Z.shiftr_div_pow2 by lia.
        apply Z.div_le_upper_bound; [apply Z.pow_pos_nonneg; lia|].
        pose proof (Z.pow_pos_nonneg 2 (- e) ltac:(lia) ltac:(lia)). nia. }
      split; [apply float64_of_scaled_amount; assumption|].
      split; [apply float64_of_scaled_valid; try assumption; unfold emin, emax, prec; lia|].
      rewrite float64_of_scaled_units by (assumption || (unfold emin, emax, prec; lia)).
      unfold units. change (emin prec emax) with (-1074).
      replace (0 - -1074) with 1074 by lia. f_equal.
      rewrite Z.shiftr_div_pow2 by lia.
      replace (e - -1074) with (e + 1074) by lia.
      replace (2 ^ 1074) with (2 ^ (- e) * 2 ^ (e + 1074))
        by (rewrite <- Z.pow_add_r by lia; f_equal; lia).
      rewrite Z.div_mul_cancel_r; [reflexivity | |]; apply Z.pow_nonzero; lia.
Qed.

(** The test of the round-dollar rule, in exact arithmetic. *)
Lemma totalRoundDollarAmountPoints_exact (r : Receipt) :
  is_amount (Receipt_Total r) -> is_binary64 (Receipt_Total r) = true ->
  totalRoundDollarAmountPoints r =
  if units (Receipt_Total r) mod units const_1 =? 0 then 50 else 0.
Proof.
  intros Ha Hv. unfold totalRoundDollarAmountPoints.
  destruct (math_Trunc_units _ Ha Hv) as (Ha' & Hv' & Hu).
  rewrite f64_eqb_units, Hu by assumption.
  set (u := units (Receipt_Total r)). set (c := units const_1).
  assert (Hc : 0 < c) by (unfold c; rewrite units_const_1; apply Z.pow_pos_nonneg; lia).
  pose proof (Z.div_mod u c ltac:(lia)) as Hdm.
  destruct (u mod c =? 0) eqn:E.
  - apply Z.eqb_eq in E. replace (u =? u / c * c) with true; [reflexivity|].
    symmetry. apply Z.eqb_eq. lia.
  - apply Z.eqb_neq in E. replace (u =? u / c * c) with false; [reflexivity|].
    symmetry. apply Z.eqb_neq. lia.
Qed.

(** X9. For a validly-constructed receipt the round-dollar rule gives 50
    exactly when the total is a whole number in exact arithmetic (its value
    in units of 2^-1074 is a multiple of that of 1), and 0 otherwise. *)
Theorem round_dollar_rule_exact (r : Receipt) :
  valid_receipt r ->
  (totalRoundDollarAmountPoints r = 50 <-> units (Receipt_Total r) mod units const_1 = 0)
  /\ (totalRoundDollarAmountPoints r = 0 <-> units (Receipt_Total r) mod units const_1 <> 0).
Proof.
  intros Hv. destruct (valid_receipt_total r Hv) as [Ha Hb].
  rewrite (totalRoundDollarAmountPoints_exact r Ha Hb).
  destruct (units (Receipt_Total r) mod units const_1 =? 0) eqn:E.
  - apply Z.eqb_eq in E. repeat split; intros; try lia; try discriminate.
  - apply Z.eqb_neq in E. repeat split; intros; try lia; try discriminate.
Qed.

Lemma round_dollar_rule_exact_witness :
  valid_receipt target_receipt
  /\ units (Receipt_Total target_receipt) mod units const_1 <> 0
  /\ totalRoundDollarAmountPoints target_receipt = 0.
Proof.
  assert (Hv : valid_receipt target_receipt) by (exists target_raw; apply target_receipt_decoded).
  assert (Hu : units (Receipt_Total target_receipt) mod units const_1 <> 0)
    by (vm_compute; discriminate).
  split; [exact Hv|]. split; [exact Hu|].
  exact (proj2 (proj2 (round_dollar_rule_exact target_receipt Hv)) Hu).
Defined.

(** ** Rounding keeps binary grids

    When the quotient [k / d] is a multiple of [2^-t], so is the float it
    rounds to; and a quotient large enough rounds to a multiple of [2^-t]
    whatever its value. *)

Lemma divide_shiftr (a b m : Z) :
  0 <= a -> 0 <= b -> (2 ^ (a + b) | m) -> (2 ^ a | Z.shiftr m b).
Proof.
  intros Ha Hb [c Hc]. exists c. rewrite Z.shiftr_div_pow2 by assumption.
  subst m. rewrite Z.pow_add_r, Z.mul_assoc by assumption.
  apply Z.div_mul. apply Z.pow_nonzero; lia.
Qed.

Lemma divide_pow2_le (a b m : Z) : 0 <= a <= b -> (2 ^ b | m) -> (2 ^ a | m).
Proof.
  intros H Hd. eapply Z.divide_trans; [|exact Hd].
  exists (2 ^ (b - a)). rewrite <- Z.pow_add_r by lia. f_equal. lia.
Qed.

Lemma shr_1_exact (mrs : shr_record) :
  0 <= shr_m mrs -> shr_r mrs = false -> shr_s mrs = false -> (2 ^ 1 | shr_m mrs) ->
  shr_r (shr_1 mrs) = false /\ shr_s (shr_1 mrs) = false.
Proof.
  destruct mrs as [m r s]. simpl. intros Hm -> -> [c Hc].
  destruct m as [|[p|p|]|p]; try (split; reflexivity); lia.
Qed.

(** Shifting out bits that are all 0 leaves the round and sticky bits clear. *)
Lemma iter_shr_1_exact (p : positive) (mrs : shr_record) :
  0 <= shr_m mrs -> shr_r mrs = false -> shr_s mrs = false ->
  (2 ^ Zpos p | shr_m mrs) ->
  shr_r (SpecFloat.iter_pos shr_1 p mrs) = false
  /\ shr_s (SpecFloat.iter_pos shr_1 p mrs) = false.
Proof.
  revert mrs. induction p as [p IH | p IH |]; intros mrs Hm Hr Hs Hd;
    simpl SpecFloat.iter_pos.
  - assert (H1 : (2 ^ 1 | shr_m mrs)) by (apply (divide_pow2_le 1 (Zpos p~1)); [lia | assumption]).
    destruct (shr_1_exact mrs Hm Hr Hs H1) as [Hr1 Hs1].
    pose proof (shr_1_nonneg mrs Hm) as Hm1.
    assert (Hd1 : (2 ^ (Zpos p + Zpos p) | shr_m (shr_1 mrs))).
    { rewrite shr_1_m, Z.div2_spec by assumption.
      apply divide_shiftr; [lia | lia |].
      replace (Zpos p + Zpos p + 1) with (Zpos p~1) by lia. assumption. }
    destruct (iter_shr_1_m p (shr_1 mrs) Hm1) as [E2 Hm2].
    destruct (IH (shr_1 mrs) Hm1 Hr1 Hs1) as [Hr2 Hs2];
      [apply (divide_pow2_le (Zpos p) (Zpos p + Zpos p)); [lia | assumption]|].
    apply IH; try assumption.
    rewrite E2. apply divide_shiftr; [lia | lia | assumption].
  - assert (Hd1 : (2 ^ (Zpos p + Zpos p) | shr_m mrs))
      by (replace (Zpos p + Zpos p) with (Zpos p~0) by lia; assumption).
    destruct (iter_shr_1_m p mrs Hm) as [E2 Hm2].
    destruct (IH mrs Hm Hr Hs) as [Hr2 Hs2];
      [apply (divide_pow2_le (Zpos p) (Zpos p + Zpos p)); [lia | assumption]|].
    apply IH; try assumption.
    rewrite E2. apply divide_shiftr; [lia | lia | assumption].
  - now apply shr_1_exact.
Qed.

Lemma shr_fexp_exact (m e : Z) :
  0 <= m -> e <= fexp64 (Zdigits2 m + e) ->
  (2 ^ (fexp64 (Zdigits2 m + e) - e) | m) ->
  loc_of_shr_record (fst (shr_fexp prec emax m e loc_Exact)) = loc_Exact.
Proof.
  intros Hm He Hd. unfold shr_fexp, shr. fold (fexp64 (Zdigits2 m + e)).
  destruct (fexp64 (Zdigits2 m + e) - e) as [|p|p] eqn:En; try reflexivity.
  cbn [fst shr_record_of_loc].
  destruct (iter_shr_1_exact p {| shr_m := m; shr_r := false; shr_s := false |}) as [Hr Hs];
    try reflexivity; try assumption.
  destruct (SpecFloat.iter_pos shr_1 p {| shr_m := m; shr_r := false; shr_s := false |})
    as [m' r' s'].
  simpl in Hr, Hs. subst. reflexivity.
Qed.

(** A mantissa whose bits below the canonical exponent are all 0 is rounded to
    itself. *)
Lemma binary_round_aux_exact (m e : Z) :
  0 <= m -> e <= fexp64 (Zdigits2 m + e) ->
  (2 ^ (fexp64 (Zdigits2 m + e) - e) | m) ->
  fexp64 (Zdigits2 m + e) <= emax - prec ->
  units (binary_round_aux prec emax false m e loc_Exact)
  = Z.shiftr m (fexp64 (Zdigits2 m + e) - e) * 2 ^ (fexp64 (Zdigits2 m + e) + 1074).
Proof.
  intros Hm He Hd Hmax. unfold binary_round_aux.
  pose proof (shr_fexp_exact m e Hm He Hd) as Hloc.
  destruct (shr_fexp_spec m e loc_Exact Hm He) as [Em Ee].
  destruct (shr_fexp_canonical m e loc_Exact Hm He) as [Hm1 Hc]. cbv zeta in Hc, Hm1.
  destruct (shr_fexp prec emax m e loc_Exact) as [mrs' e'] eqn:E1.
  simpl in Hloc, Em, Ee, Hc, Hm1. rewrite Hloc.
  change (round_nearest_even (shr_m mrs') loc_Exact) with (shr_m mrs').
  unfold shr_fexp. fold (fexp64 (Zdigits2 (shr_m mrs') + e')). rewrite <- Hc, Z.sub_diag.
  simpl. rewrite Em, <- Ee.
  assert (Hsh : 0 <= Z.shiftr m (e' - e)) by (apply Z.shiftr_nonneg; exact Hm).
  destruct (Z.shiftr m (e' - e)) as [|p|p] eqn:Ep; [reflexivity | | lia].
  replace (e' <=? emax - prec) with true by (symmetry; apply Z.leb_le; lia).
  unfold units. change (emin prec emax) with (-1074).
  replace (e' - -1074) with (e' + 1074) by lia. reflexivity.
Qed.

(** A result whose canonical exponent is at least [-t] is a multiple of
    [2^-t]. *)
Lemma binary_round_aux_coarse (m e : Z) (l : location) (t : Z) :
  0 <= m -> e <= fexp64 (Zdigits2 m + e) ->
  t <= 1074 -> - t <= fexp64 (Zdigits2 m + e) ->
  (2 ^ (1074 - t) | units (binary_round_aux prec emax false m e l)).
Proof.
  intros Hm He Ht Hbig. unfold binary_round_aux.
  destruct (shr_fexp_digits m e l Hm He) as (Ee1 & Hm1 & Hd1 & Hz1).
  destruct (shr_fexp_canonical m e l Hm He) as [_ Hc]. cbv zeta in Hc.
  destruct (shr_fexp prec emax m e l) as [mrs' e'] eqn:E1. simpl in Ee1, Hm1, Hd1, Hz1, Hc.
  set (m1 := round_nearest_even (shr_m mrs') (loc_of_shr_record mrs')).
  pose proof (round_nearest_even_bounds (shr_m mrs') (loc_of_shr_record mrs')) as Hr.
  fold m1 in Hr.
  assert (Hm1' : 0 <= m1) by lia.
  assert (He1' : e' <= fexp64 (Zdigits2 m1 + e')).
  { rewrite Hc at 1. apply fexp64_mono.
    pose proof (Zdigits2_mono (shr_m mrs') m1 ltac:(lia)). lia. }
  destruct (shr_fexp_digits m1 e' loc_Exact Hm1' He1') as (Ee2 & Hm2 & Hd2 & Hz2).
  destruct (shr_fexp prec emax m1 e' loc_Exact) as [mrs'' e''] eqn:E2.
  simpl in Ee2, Hm2, Hd2, Hz2.
  destruct (shr_m mrs'') as [|p|p]; [apply Z.divide_0_r | | apply Z.divide_0_r].
  destruct (e'' <=? emax - prec); [|apply Z.divide_0_r].
  unfold units. change (emin prec emax) with (-1074).
  apply Z.divide_mul_r.
  exists (2 ^ (e'' - -1074 - (1074 - t))). rewrite <- Z.pow_add_r by lia. f_equal. lia.
Qed.

(** If [k / d] is a multiple of [2^-t], the float it rounds to is one too. *)
Lemma float64_of_ratio_grid (k : Z) (d : positive) (t : Z) :
  0 <= t <= 1074 -> (Zpos d | k * 2 ^ t) ->
  (2 ^ (1074 - t) | units (float64_of_ratio k d)).
Proof.
  intros Ht Hdiv. unfold float64_of_ratio.
  destruct k as [|p|p]; [apply Z.divide_0_r | | apply Z.divide_0_r].
  unfold SFdiv. change (xorb false false) with false.
  pose proof (SFdiv_core_binary_shape p d 0 0) as Hshape.
  unfold SFdiv_core_binary in *.
  set (d1 := Zdigits2 (Zpos p)) in *. set (d2 := Zdigits2 (Zpos d)) in *.
  fold (fexp64 (d1 + 0 - (d2 + 0))) in *.
  set (e' := Z.min (fexp64 (d1 + 0 - (d2 + 0))) (0 - 0)) in *.
  set (s := 0 - 0 - e') in *.
  assert (Hs : 0 <= s) by (unfold s, e'; lia).
  set (m' := match s with Z0 => _ | Zpos _ => _ | Zneg _ => _ end) in *.
  assert (Em' : m' = Zpos p * 2 ^ s).
  { subst m'. destruct s as [|ps|ps] eqn:Es; [lia | | lia].
    apply Z.shiftl_mul_pow2. lia. }
  pose proof (Z_div_mod m' (Zpos d) ltac:(lia)) as Hqr.
  destruct (Z.div_eucl m' (Zpos d)) as [q r]. destruct Hqr as [Hq Hr].
  destruct Hshape as [Hq0 He].
  destruct (Z.le_gt_cases (- t) (fexp64 (Zdigits2 q + e'))) as [Hcoarse | Hfine].
  - apply binary_round_aux_coarse; try assumption. lia.
  - assert (Hst : t < s) by (unfold s; lia).
    destruct Hdiv as [K HK].
    assert (Em'' : m' = Zpos d * (K * 2 ^ (s - t))).
    { rewrite Em'. replace (2 ^ s) with (2 ^ t * 2 ^ (s - t))
        by (rewrite <- Z.pow_add_r by lia; f_equal; lia).
      rewrite Z.mul_assoc, HK. ring. }
    assert (Hr0 : r = 0 /\ q = K * 2 ^ (s - t)).
    { assert (Hu : Zpos d * (q - K * 2 ^ (s - t)) + r = 0) by lia.
      assert (q - K * 2 ^ (s - t) = 0) by nia. lia. }
    destruct Hr0 as [-> Eq].
    assert (Eloc : new_location (Zpos d) 0 = loc_Exact)
      by (unfold new_location; destruct (Z.even (Zpos d)); reflexivity).
    rewrite Eloc.
    set (e1 := fexp64 (Zdigits2 q + e')) in *.
    assert (Hsh : 0 <= e1 - e' <= s - t) by (unfold s in *; lia).
    assert (Hdq : (2 ^ (e1 - e') | q)).
    { apply (divide_pow2_le _ (s - t)); [exact Hsh|]. exists K. exact Eq. }
    rewrite binary_round_aux_exact; try assumption; fold e1;
      [|unfold emax, prec; lia].
    assert (He1 : -1074 <= e1) by (unfold e1; rewrite fexp64_eq; lia).
    rewrite Z.shiftr_div_pow2 by lia.
    rewrite Eq.
    replace (2 ^ (s - t)) with (2 ^ (s - t - (e1 - e')) * 2 ^ (e1 - e'))
      by (rewrite <- Z.pow_add_r by lia; f_equal; lia).
    rewrite Z.mul_assoc, Z.div_mul by (apply Z.pow_nonzero; lia).
    exists K.
    rewrite <- Z.mul_assoc, <- Z.pow_add_r by lia.
    do 2 f_equal. unfold s. lia.
Qed.

Lemma units_divide_mod (u c : Z) : 0 < c -> (c | u) -> u mod c = 0.
Proof. intros Hc Hd. apply Z.mod_divide; [lia | exact Hd]. Qed.

(** From [2^(59 - t)] hundredths on, the rounded amount is a multiple of
    [2^-t]. *)
Lemma float64_of_ratio_coarse (k : Z) (t : Z) :
  0 <= t <= 1074 -> 2 ^ (59 - t) <= k ->
  (2 ^ (1074 - t) | units (float64_of_ratio k 100)).
Proof.
  intros Ht Hk. unfold float64_of_ratio.
  destruct k as [|p|p]; [apply Z.divide_0_r | | apply Z.divide_0_r].
  unfold SFdiv. change (xorb false false) with false.
  pose proof (SFdiv_core_binary_shape p 100 0 0) as Hshape.
  pose proof (SFdiv_core_binary_magnitude p 100 0 0) as Hmag.
  destruct (SFdiv_core_binary prec emax (Zpos p) 0 (Zpos 100) 0) as [[mz ez] lz].
  destruct Hshape as [Hq He]. cbv zeta in Hmag.
  change (Zdigits2 (Zpos 100)) with 7 in Hmag.
  apply binary_round_aux_coarse; try assumption; [lia|].
  assert (60 - t <= Zdigits2 (Zpos p)).
  { destruct (Z.le_gt_cases (59 - t) 0) as [Hle|Hgt].
    - assert (1 <= Zdigits2 (Zpos p)) by (simpl; lia). lia.
    - rewrite Zdigits2_log2 by lia.
      pose proof (Z.log2_le_pow2 (Zpos p) (59 - t) ltac:(lia)) as [Hlog _].
      specialize (Hlog Hk). lia. }
  rewrite fexp64_eq. lia.
Qed.

(** X10. A total whose numeral ends in [.00] scores the 50 points of the
    round-dollar rule, whatever its size; so does every total of 2^59 cents
    or more whatever its cents, for a [float64] of that size has no
    fractional part. *)
Theorem round_dollar_rule_numeral (r : Receipt) (s : string) :
  Amount_UnmarshalJSON (quoted s) = Ok (Receipt_Total r) ->
  (cents s mod 100 = 0 -> totalRoundDollarAmountPoints r = 50)
  /\ (2 ^ 59 <= cents s -> totalRoundDollarAmountPoints r = 50).
Proof.
  intros H. pose proof (Amount_UnmarshalJSON_valid _ _ H) as Hv.
  apply Amount_UnmarshalJSON_iff in H as (s' & Hq & Hn & Hr & Ha).
  apply quoted_inj in Hq. subst s'.
  rewrite (totalRoundDollarAmountPoints_exact r Ha Hv).
  assert (Hc : 0 < units const_1) by (rewrite units_const_1; apply Z.pow_pos_nonneg; lia).
  split; intros Hk.
  - rewrite units_divide_mod; [reflexivity | exact Hc |].
    rewrite Hr, units_const_1.
    apply (float64_of_ratio_grid (cents s) 100 0); [lia|].
    rewrite Z.mul_1_r. apply Z.mod_divide; [lia | exact Hk].
  - rewrite units_divide_mod; [reflexivity | exact Hc |].
    rewrite Hr, units_const_1.
    apply (float64_of_ratio_coarse (cents s) 0); [lia | exact Hk].
Qed.

Lemma round_dollar_rule_numeral_witness :
  Amount_UnmarshalJSON (quoted "100.00") = Ok (Receipt_Total (with_total empty_receipt amount_100_00))
  /\ cents "100.00" mod 100 = 0
  /\ totalRoundDollarAmountPoints (with_total empty_receipt amount_100_00) = 50
  /\ exists v, Amount_UnmarshalJSON (quoted "10000000000000000.01") = Ok v
               /\ 2 ^ 59 <= cents "10000000000000000.01"
               /\ totalRoundDollarAmountPoints (with_total empty_receipt v) = 50.
Proof.
  assert (Hd : Amount_UnmarshalJSON (quoted "100.00")
               = Ok (Receipt_Total (with_total empty_receipt amount_100_00)))
    by (vm_compute; reflexivity).
  assert (Hc : cents "100.00" mod 100 = 0) by (vm_compute; reflexivity).
  split; [exact Hd|]. split; [exact Hc|].
  split; [exact (proj1 (round_dollar_rule_numeral _ "100.00" Hd) Hc)|].
  exists (S754_finite false 5000000000000000 1).
  assert (Hd' : Amount_UnmarshalJSON (quoted "10000000000000000.01")
                = Ok (Receipt_Total (with_total empty_receipt (S754_finite false 5000000000000000 1))))
    by (vm_compute; reflexivity).
  assert (Hc' : 2 ^ 59 <= cents "10000000000000000.01")
    by (apply Z.leb_le; vm_compute; reflexivity).
  split; [exact Hd'|]. split; [exact Hc'|].
  exact (proj2 (round_dollar_rule_numeral _ "10000000000000000.01" Hd') Hc').
Defined.

Lemma units_const_0_25 : units const_0_25 = 2 ^ 1072.
Proof. reflexivity. Qed.

Lemma units_const_1e_4_pos : 0 < units const_1e_4.
Proof. reflexivity. Qed.

(** X11. A total whose number of cents is a multiple of 25 scores the 25 points
    of the quarter rule, whatever its size; so does every total of 2^57
    cents or more whatever its cents. *)
Theorem quarter_rule_numeral (r : Receipt) (s : string) :
  Amount_UnmarshalJSON (quoted s) = Ok (Receipt_Total r) ->
  (cents s mod 25 = 0 -> totalMultipleOf25CentsPoints r = 25)
  /\ (2 ^ 57 <= cents s -> totalMultipleOf25CentsPoints r = 25).
Proof.
  intros H. pose proof (Amount_UnmarshalJSON_valid _ _ H) as Hv.
  apply Amount_UnmarshalJSON_iff in H as (s' & Hq & Hn & Hr & Ha).
  apply quoted_inj in Hq. subst s'.
  rewrite (totalMultipleOf25CentsPoints_exact r Ha Hv).
  assert (Hc : 0 < units const_0_25) by (rewrite units_const_0_25; apply Z.pow_pos_nonneg; lia).
  pose proof units_const_1e_4_pos as Hp.
  split; intros Hk.
  - rewrite units_divide_mod; [now apply Z.ltb_lt in Hp; rewrite Hp | exact Hc |].
    rewrite Hr, units_const_0_25.
    apply (float64_of_ratio_grid (cents s) 100 2); [lia|].
    apply Z.mod_divide in Hk; [|lia]. destruct Hk as [j Hj].
    exists j. rewrite Hj. change (2 ^ 2) with 4. lia.
  - rewrite units_divide_mod; [now apply Z.ltb_lt in Hp; rewrite Hp | exact Hc |].
    rewrite Hr, units_const_0_25.
    apply (float64_of_ratio_coarse (cents s) 2); [lia | exact Hk].
Qed.

Lemma quarter_rule_numeral_witness :
  Amount_UnmarshalJSON (quoted "25.25") = Ok (Receipt_Total (with_total empty_receipt amount_25_25))
  /\ cents "25.25" mod 25 = 0
  /\ totalMultipleOf25CentsPoints (with_total empty_receipt amount_25_25) = 25.
Proof.
  assert (Hc : cents "25.25" mod 25 = 0) by (vm_compute; reflexivity).
  split; [exact amount_25_25_decoded|]. split; [exact Hc|].
  exact (proj1 (quarter_rule_numeral (with_total empty_receipt amount_25_25) "25.25"
                  amount_25_25_decoded) Hc).
Defined.

(** X12. For a validly-constructed receipt, a total that scores the 50 points of
    the round-dollar rule also scores the 25 points of the quarter rule: the
    two rules on the total give 0, 25 or 75 together. *)
Theorem round_dollar_implies_quarter (r : Receipt) :
  valid_receipt r ->
  totalRoundDollarAmountPoints r = 50 -> totalMultipleOf25CentsPoints r = 25.
Proof.
  intros Hv H. destruct (valid_receipt_total r Hv) as [Ha Hb].
  rewrite (totalRoundDollarAmountPoints_exact r Ha Hb) in H.
  rewrite (totalMultipleOf25CentsPoints_exact r Ha Hb).
  destruct (units (Receipt_Total r) mod units const_1 =? 0) eqn:E; [|discriminate].
  apply Z.eqb_eq in E.
  rewrite units_const_1 in E. apply Z.mod_divide in E; [|apply Z.pow_nonzero; lia].
  rewrite units_divide_mod.
  - pose proof units_const_1e_4_pos as Hp. apply Z.ltb_lt in Hp. now rewrite Hp.
  - rewrite units_const_0_25. apply Z.pow_pos_nonneg; lia.
  - rewrite units_const_0_25. apply (divide_pow2_le 1072 1074); [lia | exact E].
Qed.

Lemma round_dollar_implies_quarter_witness :
  valid_receipt empty_receipt
  /\ totalRoundDollarAmountPoints empty_receipt = 50
  /\ totalMultipleOf25CentsPoints empty_receipt = 25.
Proof.
  assert (Hv : valid_receipt empty_receipt) by (exists empty_raw; reflexivity).
  assert (H : totalRoundDollarAmountPoints empty_receipt = 50) by reflexivity.
  split; [exact Hv|]. split; [exact H|].
  exact (round_dollar_implies_quarter empty_receipt Hv H).
Defined.

(** ** The date and time rules on the text of the document *)

Lemma Z_rem_2_odd (n : Z) : 0 <= n -> (Z.rem n 2 =? 1) = Z.odd n.
Proof.
  intros Hn. rewrite Z.rem_mod_nonneg by lia. rewrite Zmod_odd.
  destruct (Z.odd n); reflexivity.
Qed.

(** X13. For a purchase date decoded from a text, the odd-day rule gives 6 when
    the last byte of the text, a digit, is odd and 0 when it is even. *)
Theorem odd_day_rule_by_last_digit (r : Receipt) (s : string) :
  Date_UnmarshalJSON (quoted s) = Ok (Receipt_PurchaseDate r) ->
  exists pre c, list_ascii_of_string s = pre ++ [c]
                /\ is_ascii_digit c = true
                /\ purchaseDayOddPoints r = if Z.odd (digit_val c) then 6 else 0.
Proof.
  intros H. rewrite Date_UnmarshalJSON_quoted in H.
  destruct (time_Parse_date s) as [t|] eqn:E; [|discriminate]. injection H as H.
  apply time_Parse_date_iff in E
    as (year & month & day
        & (y0 & y1 & y2 & y3 & m0 & m1 & d0 & d1 & Hs & Hd & _ & _ & Eday) & _ & Hday & Ht).
  exists [y0; y1; y2; y3; "-"; m0; m1; "-"; d0]%char, d1. split; [exact Hs|].
  split.
  { apply (proj1 (List.forallb_forall _ _) Hd). simpl. tauto. }
  unfold purchaseDayOddPoints. rewrite <- H, Ht. cbn [Day].
  rewrite Z_rem_2_odd by lia. rewrite Eday, decimal_value_2.
  replace (digit_val d0 * 10 + digit_val d1) with (digit_val d1 + 2 * (5 * digit_val d0)) by lia.
  now rewrite Z.odd_add_mul_2.
Qed.

Lemma odd_day_rule_by_last_digit_witness :
  Date_UnmarshalJSON (quoted "2022-01-01") = Ok (Receipt_PurchaseDate target_receipt)
  /\ exists pre c, list_ascii_of_string "2022-01-01" = pre ++ [c]
                   /\ is_ascii_digit c = true
                   /\ purchaseDayOddPoints target_receipt = if Z.odd (digit_val c) then 6 else 0.
Proof.
  assert (H : Date_UnmarshalJSON (quoted "2022-01-01") = Ok (Receipt_PurchaseDate target_receipt))
    by (vm_compute; reflexivity).
  split; [exact H|].
  exact (odd_day_rule_by_last_digit target_receipt "2022-01-01" H).
Defined.

Lemma digit_val_inv (c : ascii) (n : N) : digit_val c = Z.of_N n - 48 -> c = ascii_of_N n.
Proof. unfold digit_val. intros H. apply byte_val_inj. lia. Qed.

(** X14. For a purchase time decoded from a text, the afternoon rule gives 10
    exactly when the text is [14:MM] or [15:MM], whatever the minute, and 0
    otherwise. *)
Theorem afternoon_rule_by_hour_digits (r : Receipt) (s : string) :
  Time_UnmarshalJSON (quoted s) = Ok (Receipt_PurchaseTime r) ->
  (purchaseTimeBetween2And4Points r = 10
   <-> exists m0 m1, list_ascii_of_string s = ["1"; "4"; ":"; m0; m1]%char
                     \/ list_ascii_of_string s = ["1"; "5"; ":"; m0; m1]%char)
  /\ (purchaseTimeBetween2And4Points r = 10 \/ purchaseTimeBetween2And4Points r = 0).
Proof.
  intros H. rewrite Time_UnmarshalJSON_quoted in H.
  destruct (time_Parse_clock s) as [t|] eqn:E; [|discriminate]. injection H as H.
  apply time_Parse_clock_iff in E
    as (hour & minute & (h & m0 & m1 & Hs & Hl & Hd & Eh & _) & Hh & _ & Ht).
  unfold purchaseTimeBetween2And4Points. rewrite <- H, Ht. cbn [Hour].
  split; [|destruct ((14 <=? hour) && (hour <? 16)); auto].
  rewrite forallb_app in Hd. apply andb_prop in Hd as [Hd _].
  split.
  - destruct ((14 <=? hour) && (hour <? 16)) eqn:Er; [intros _|discriminate].
    apply andb_prop in Er as [E1 E2]. apply Z.leb_le in E1. apply Z.ltb_lt in E2.
    exists m0, m1. destruct Hl as [Hl|Hl].
    + destruct h as [|c0 [|? ?]]; try discriminate.
      simpl in Hd. apply andb_prop in Hd as [Hc0 _].
      pose proof (digit_val_range _ Hc0). rewrite decimal_value_1 in Eh. lia.
    + destruct h as [|c0 [|c1 [|? ?]]]; try discriminate.
      simpl in Hd. apply andb_prop in Hd as [Hc0 Hd]. apply andb_prop in Hd as [Hc1 _].
      pose proof (digit_val_range _ Hc0). pose proof (digit_val_range _ Hc1).
      rewrite decimal_value_2 in Eh.
      assert (E0 : c0 = "1"%char) by (apply (digit_val_inv c0 49); simpl; lia).
      assert (E1' : digit_val c1 = 4 \/ digit_val c1 = 5) by lia.
      destruct E1' as [E4|E5].
      * left. rewrite Hs, E0, (digit_val_inv c1 52) by (simpl; lia). reflexivity.
      * right. rewrite Hs, E0, (digit_val_inv c1 53) by (simpl; lia). reflexivity.
  - intros (n0 & n1 & Hs').
    assert (Eh' : hour = 14 \/ hour = 15).
    { destruct Hl as [Hl|Hl].
      - destruct h as [|c0 [|? ?]]; try discriminate.
        destruct Hs' as [Hs'|Hs']; rewrite Hs' in Hs; discriminate.
      - destruct h as [|c0 [|c1 [|? ?]]]; try discriminate.
        destruct Hs' as [Hs'|Hs']; rewrite Hs' in Hs; injection Hs as <- <- _ _;
          subst hour; [now left | now right]. }
    destruct Eh' as [->| ->]; reflexivity.
Qed.

Lemma afternoon_rule_by_hour_digits_witness :
  Time_UnmarshalJSON (quoted "14:33") = Ok (Receipt_PurchaseTime overflow_receipt)
  /\ purchaseTimeBetween2And4Points overflow_receipt = 10.
Proof.
  assert (H : Time_UnmarshalJSON (quoted "14:33") = Ok (Receipt_PurchaseTime overflow_receipt))
    by (vm_compute; reflexivity).
  split; [exact H|].
  apply (proj2 (proj1 (afternoon_rule_by_hour_digits overflow_receipt "14:33" H))).
  exists "3"%char, "3"%char. now left.
Defined.

(** ** Items *)

(** X15. The item-pair bonus is 5 for each whole pair of items, as long as
    [int64] holds it: two more items raise it by 5, and one more item raises
    it by 5 exactly when the count was odd. *)
Theorem pair_bonus_counts_pairs (r : Receipt) (items : list Item) (a b : Item) :
  5 * (Z.of_nat (length items) / 2 + 1) <= int64_max ->
  every2ItemsPoints (with_items r items) = 5 * (Z.of_nat (length items) / 2)
  /\ every2ItemsPoints (with_items r (items ++ [a; b]))
     = every2ItemsPoints (with_items r items) + 5
  /\ every2ItemsPoints (with_items r (items ++ [a]))
     = every2ItemsPoints (with_items r items)
       + (if Z.odd (Z.of_nat (length items)) then 5 else 0).
Proof.
  intros Hb. unfold every2ItemsPoints, with_items. cbn [Receipt_Items].
  rewrite !length_app. cbn [length].
  set (n := Z.of_nat (length items)) in *.
  assert (Hn : 0 <= n) by (unfold n; lia).
  replace (Z.of_nat (length items + 2)) with (n + 1 * 2) by (unfold n; lia).
  replace (Z.of_nat (length items + 1)) with (n + 1) by (unfold n; lia).
  rewrite Z.div_add by lia. clearbody n.
  assert (Hdiv : (n + 1) / 2 = n / 2 + n mod 2).
  { pose proof (Z.div_mod n 2 ltac:(lia)). pose proof (Z.mod_pos_bound n 2 ltac:(lia)).
    symmetry. apply (Z.div_unique (n + 1) 2 (n / 2 + n mod 2) (1 - n mod 2)); lia. }
  pose proof (Zmod_odd n) as Hodd.
  assert (H0 : 0 <= n / 2) by (apply Z.div_pos; lia).
  unfold int64_max in Hb.
  rewrite !wrap64_id by (unfold is_int64, int64_min, int64_max; destruct (Z.odd n); lia).
  repeat split; [lia|]. rewrite Hdiv, Hodd. destruct (Z.odd n); lia.
Qed.

Lemma pair_bonus_counts_pairs_witness :
  5 * (Z.of_nat (length (Receipt_Items target_receipt)) / 2 + 1) <= int64_max
  /\ every2ItemsPoints (with_items target_receipt (Receipt_Items target_receipt)) = 5
  /\ every2ItemsPoints (with_items target_receipt (Receipt_Items target_receipt ++ [emils_item]))
     = 5.
Proof.
  assert (H : 5 * (Z.of_nat (length (Receipt_Items target_receipt)) / 2 + 1) <= int64_max)
    by (vm_compute; discriminate).
  destruct (pair_bonus_counts_pairs target_receipt (Receipt_Items target_receipt)
              emils_item emils_item H) as (H1 & _ & H3).
  split; [exact H|]. split; [exact H1|]. rewrite H3, H1. reflexivity.
Defined.

Lemma sumZ_Permutation (l l' : list Z) : Permutation l l' -> sumZ l = sumZ l'.
Proof. induction 1; simpl; lia. Qed.

(** X16. The score does not depend on the order of the items: a permutation of
    the items leaves it unchanged, also when the sums wrap around. *)
Theorem score_ignores_item_order (rt : GoRuntime) (r : Receipt) (items items' : list Item) :
  Permutation items items' ->
  computeReceiptPoints rt (with_items r items) = computeReceiptPoints rt (with_items r items').
Proof.
  intros HP.
  assert (E1 : every2ItemsPoints (with_items r items) = every2ItemsPoints (with_items r items')).
  { unfold every2ItemsPoints. cbn [with_items Receipt_Items].
    now rewrite (Permutation_length HP). }
  assert (E2 : itemDescriptionLengthsPoints rt (with_items r items)
               = itemDescriptionLengthsPoints rt (with_items r items')).
  { rewrite !itemDescriptionLengthsPoints_sum. cbn [with_items Receipt_Items]. f_equal.
    apply sumZ_Permutation, Permutation_map, HP. }
  rewrite !computeReceiptPoints_sum, E1, E2. reflexivity.
Qed.

Lemma score_ignores_item_order_witness :
  Permutation (Receipt_Items target_receipt) (rev (Receipt_Items target_receipt))
  /\ computeReceiptPoints example_runtime
       (with_items target_receipt (rev (Receipt_Items target_receipt))) = 20.
Proof.
  assert (HP : Permutation (Receipt_Items target_receipt) (rev (Receipt_Items target_receipt)))
    by apply Permutation_rev.
  split; [exact HP|].
  rewrite <- (score_ignores_item_order example_runtime target_receipt _ _ HP).
  vm_compute. reflexivity.
Defined.

(** ** Runs of inserts *)

Section StoreRuns.

Variable rt : GoRuntime.

(** X17. After a run of inserts whose identifiers are pairwise distinct, into
    any store, each inserted receipt is found under its identifier with its
    own score. *)
Theorem distinct_inserts_all_found (db : xDB) (calls : list (string * Receipt)) :
  List.NoDup (map fst calls) ->
  forall uuid r, In (uuid, r) calls ->
    getReceiptPoints (writeReceipts rt db calls) uuid = Ok (computeReceiptPoints rt r).
Proof.
  revert db. induction calls as [|[u0 r0] calls IH]; intros db Hnd uuid r Hin; [contradiction|].
  simpl in Hnd. apply List.NoDup_cons_iff in Hnd as [Hnotin Hnd].
  cbn [writeReceipts]. destruct Hin as [E|Hin].
  - injection E as -> ->.
    rewrite getReceiptPoints_writes_other; [apply getReceiptPoints_write_same|].
    apply List.Forall_forall. intros [u' r'] Hin' Heq. simpl in Heq. subst u'.
    apply Hnotin. apply (in_map fst) in Hin'. exact Hin'.
  - now apply IH.
Qed.

(** X18. Were two inserts to draw the same identifier, the second would replace
    the first: the store is what the second insert alone gives, and the
    lookup returns the second score. *)
Theorem insert_overwrites_same_id (db : xDB) (uuid : string) (r1 r2 : Receipt) :
  snd (writeReceipt rt (snd (writeReceipt rt db uuid r1)) uuid r2)
  = snd (writeReceipt rt db uuid r2)
  /\ getReceiptPoints (snd (writeReceipt rt (snd (writeReceipt rt db uuid r1)) uuid r2)) uuid
     = Ok (computeReceiptPoints rt r2).
Proof.
  split; [|apply getReceiptPoints_write_same].
  unfold writeReceipt. simpl. f_equal. apply insert_insert_eq.
Qed.

(** X19. Two inserts with different identifiers commute: either order gives the
    same store. *)
Theorem inserts_commute (db : xDB) (uuid1 uuid2 : string) (r1 r2 : Receipt) :
  uuid1 <> uuid2 ->
  snd (writeReceipt rt (snd (writeReceipt rt db uuid1 r1)) uuid2 r2)
  = snd (writeReceipt rt (snd (writeReceipt rt db uuid2 r2)) uuid1 r1).
Proof.
  intros Hne. unfold writeReceipt. simpl. f_equal.
  apply insert_insert_ne. intros E. apply Hne. now injection E.
Qed.

(** X20. No record is ever deleted: an identifier that is found is still found
    after any run of further inserts. *)
Theorem found_stays_found (db : xDB) (calls : list (string * Receipt)) (id : string) :
  is_ok (getReceiptPoints db id) = true ->
  is_ok (getReceiptPoints (writeReceipts rt db calls) id) = true.
Proof.
  revert db. induction calls as [|[u0 r0] calls IH]; intros db H; [exact H|].
  cbn [writeReceipts]. apply IH.
  destruct (string_dec u0 id) as [->|Hne].
  - now rewrite getReceiptPoints_write_same.
  - now rewrite getReceiptPoints_write_other.
Qed.

(** X21. A run of inserts whose identifiers are pairwise distinct and new to the
    store adds one record for each. *)
Theorem fresh_inserts_grow_store (db : xDB) (calls : list (string * Receipt)) :
  List.NoDup (map fst calls) ->
  Forall (fun call => Data db !! receipt_key (fst call) = None) calls ->
  size (Data (writeReceipts rt db calls)) = (size (Data db) + length calls)%nat.
Proof.
  revert db. induction calls as [|[u0 r0] calls IH]; intros db Hnd Hfresh;
    cbn [writeReceipts length]; [lia|].
  simpl in Hnd. apply List.NoDup_cons_iff in Hnd as [Hnotin Hnd].
  inversion Hfresh as [|? ? H0 Hrest]; subst. cbn [fst] in H0.
  rewrite IH; [| exact Hnd |].
  - rewrite writeReceipt_Data, map_size_insert_None by exact H0. lia.
  - apply List.Forall_forall. intros [u' r'] Hin. cbn [fst].
    rewrite writeReceipt_Data, lookup_insert_ne.
    + rewrite List.Forall_forall in Hrest. exact (Hrest _ Hin).
    + intros E. apply receipt_key_inj in E. subst u'.
      apply Hnotin. apply (in_map fst) in Hin. exact Hin.
Qed.

End StoreRuns.

Lemma distinct_inserts_all_found_witness :
  List.NoDup (map fst [("id-1", target_receipt); ("id-2", overflow_receipt)])
  /\ getReceiptPoints
       (writeReceipts example_runtime NewXDB
          [("id-1", target_receipt); ("id-2", overflow_receipt)]) "id-1" = Ok 20.
Proof.
  assert (H : List.NoDup (map fst [("id-1", target_receipt); ("id-2", overflow_receipt)])).
  { repeat constructor; simpl; intuition discriminate. }
  split; [exact H|].
  exact (distinct_inserts_all_found example_runtime NewXDB _ H "id-1" target_receipt
           (or_introl eq_refl)).
Defined.

Lemma inserts_commute_witness :
  "id-1" <> "id-2"
  /\ snd (writeReceipt example_runtime
            (snd (writeReceipt example_runtime NewXDB "id-1" target_receipt))
            "id-2" overflow_receipt)
     = snd (writeReceipt example_runtime
              (snd (writeReceipt example_runtime NewXDB "id-2" overflow_receipt))
              "id-1" target_receipt).
Proof.
  assert (H : "id-1" <> "id-2") by discriminate.
  split; [exact H|].
  exact (inserts_commute example_runtime NewXDB "id-1" "id-2" target_receipt overflow_receipt H).
Defined.

Lemma found_stays_found_witness :
  is_ok (getReceiptPoints (snd (writeReceipt example_runtime NewXDB "id-1" target_receipt)) "id-1")
  = true
  /\ is_ok (getReceiptPoints
              (writeReceipts example_runtime
                 (snd (writeReceipt example_runtime NewXDB "id-1" target_receipt))
                 [("id-2", overflow_receipt); ("id-1", overflow_receipt)]) "id-1") = true.
Proof.
  assert (H : is_ok (getReceiptPoints
                       (snd (writeReceipt example_runtime NewXDB "id-1" target_receipt)) "id-1")
              = true) by (rewrite getReceiptPoints_write_same; reflexivity).
  split; [exact H|].
  exact (found_stays_found example_runtime _ _ "id-1" H).
Defined.

Lemma fresh_inserts_grow_store_witness :
  List.NoDup (map fst [("id-1", target_receipt); ("id-2", overflow_receipt)])
  /\ Forall (fun call : string * Receipt => Data NewXDB !! receipt_key (fst call) = None)
       [("id-1", target_receipt); ("id-2", overflow_receipt)]
  /\ size (Data (writeReceipts example_runtime NewXDB
                   [("id-1", target_receipt); ("id-2", overflow_receipt)])) = 2%nat.
Proof.
  assert (H : List.NoDup (map fst [("id-1", target_receipt); ("id-2", overflow_receipt)])).
  { repeat constructor; simpl; intuition discriminate. }
  assert (F : Forall (fun call : string * Receipt => Data NewXDB !! receipt_key (fst call) = None)
                [("id-1", target_receipt); ("id-2", overflow_receipt)]).
  { repeat constructor; apply lookup_empty. }
  split; [exact H|]. split; [exact F|].
  rewrite (fresh_inserts_grow_store example_runtime NewXDB _ H F).
  simpl. now rewrite map_size_empty.
Defined.

(** ** Paths *)

Lemma strings_Split_nonempty (s : string) (sep : ascii) : strings_Split s sep <> [].
Proof. destruct s as [|c s]; simpl; [discriminate|]. destruct (Ascii.eqb c sep); discriminate. Qed.

(** Joining the segments with the separator gives the text back. *)
Lemma strings_Split_join (s : string) (sep : ascii) :
  String.concat (String sep EmptyString) (strings_Split s sep) = s.
Proof.
  induction s as [|c s IH]; [reflexivity|].
  simpl strings_Split. pose proof (strings_Split_nonempty s sep) as Hne.
  destruct (strings_Split s sep) as [|seg segs]; [contradiction|].
  destruct (Ascii.eqb c sep) eqn:E.
  - apply Ascii.eqb_eq in E. subst c.
    change (String sep (String.concat (String sep EmptyString) (seg :: segs)) = String sep s).
    now rewrite IH.
  - simpl hd. simpl tl. simpl in IH |- *.
    destruct segs as [|seg' segs]; [now rewrite IH|].
    change (String c (seg +:+ String sep EmptyString +:+ String.concat (String sep EmptyString) (seg' :: segs))
            = String c s).
    now rewrite IH.
Qed.

Lemma strings_Split_no_sep (s : string) (sep : ascii) :
  forallb (fun c => negb (Ascii.eqb c sep)) (list_ascii_of_string s) = true ->
  strings_Split s sep = [s].
Proof.
  induction s as [|c s IH]; [reflexivity|].
  simpl. intros H. apply andb_prop in H as [Hc Hs].
  apply negb_true_iff in Hc. rewrite Hc, IH by assumption. reflexivity.
Qed.

(** The first segment of a text is what precedes its first separator. *)
Lemma strings_Split_append (s t : string) (sep : ascii) :
  forallb (fun c => negb (Ascii.eqb c sep)) (list_ascii_of_string s) = true ->
  strings_Split (s +:+ String sep t) sep = s :: strings_Split t sep.
Proof.
  induction s as [|c s IH]; intros H.
  - change (strings_Split (String sep t) sep = EmptyString :: strings_Split t sep).
    simpl. now rewrite Ascii.eqb_refl.
  - simpl in H. apply andb_prop in H as [Hc Hs]. apply negb_true_iff in Hc.
    change (strings_Split (String c (s +:+ String sep t)) sep = String c s :: strings_Split t sep).
    simpl. rewrite Hc, IH by assumption. reflexivity.
Qed.

(** No segment holds the separator. *)
Lemma strings_Split_segments (s : string) (sep : ascii) :
  Forall (fun segment =>
            forallb (fun c => negb (Ascii.eqb c sep)) (list_ascii_of_string segment) = true)
         (strings_Split s sep).
Proof.
  induction s as [|c s IH]; [repeat constructor|].
  simpl. pose proof (strings_Split_nonempty s sep) as Hne.
  destruct (strings_Split s sep) as [|seg segs]; [contradiction|].
  inversion IH as [|? ? Hseg Hsegs]; subst.
  destruct (Ascii.eqb c sep) eqn:E.
  - constructor; [reflexivity | assumption].
  - simpl. constructor; [|assumption]. simpl. now rewrite E, Hseg.
Qed.

Lemma strings_Split_one (s : string) (sep : ascii) (segment : string) :
  strings_Split s sep = [segment] -> s = segment.
Proof.
  intros H. pose proof (strings_Split_join s sep) as J. rewrite H in J. now symmetry.
Qed.

Lemma strings_Split_two (s : string) (sep : ascii) (a b : string) :
  strings_Split s sep = [a; b] ->
  s = a +:+ String sep b
  /\ forallb (fun c => negb (Ascii.eqb c sep)) (list_ascii_of_string a) = true.
Proof.
  intros H. pose proof (strings_Split_join s sep) as J.
  pose proof (strings_Split_segments s sep) as F. rewrite H in J, F.
  inversion F as [|? ? Ha _]. split; [|exact Ha].
  symmetry. exact J.
Qed.

Lemma strings_Split_receipts (rest : string) :
  strings_Split ("/receipts/" +:+ rest) "/"
  = EmptyString :: "receipts" :: strings_Split rest "/".
Proof.
  change ("/receipts/" +:+ rest) with (EmptyString +:+ String "/" ("receipts" +:+ String "/" rest)).
  rewrite strings_Split_append by reflexivity.
  rewrite strings_Split_append by reflexivity. reflexivity.
Qed.

Lemma getReceiptIDFromURLPath_points (id : string) :
  no_slash id = true ->
  getReceiptIDFromURLPath ("/receipts/" +:+ id +:+ "/points") = Some id.
Proof.
  intros H. unfold getReceiptIDFromURLPath.
  change ("/receipts/" +:+ id +:+ "/points") with ("/receipts/" +:+ (id +:+ String "/" "points")).
  rewrite strings_Split_receipts, strings_Split_append by exact H. reflexivity.
Qed.

Lemma getReceiptIDFromURLPath_no_slash (path id : string) :
  getReceiptIDFromURLPath path = Some id -> no_slash id = true.
Proof.
  unfold getReceiptIDFromURLPath. intros H. apply nth_error_In in H.
  pose proof (strings_Split_segments path "/") as F.
  rewrite List.Forall_forall in F. exact (F _ H).
Qed.

(** X22. [getReceiptIDFromURLPath] returns [id] for the path
    [/receipts/id/points] when [id] holds no slash; what it returns never
    holds a slash; it panics exactly on the paths of fewer than three
    segments; and the segments of a path, joined with slashes, are the
    path. *)
Theorem receipt_id_from_path :
  (forall id, no_slash id = true ->
     getReceiptIDFromURLPath ("/receipts/" +:+ id +:+ "/points") = Some id)
  /\ (forall path id, getReceiptIDFromURLPath path = Some id -> no_slash id = true)
  /\ (forall path, getReceiptIDFromURLPath path = None
                   <-> (length (strings_Split path "/") < 3)%nat)
  /\ (forall path, String.concat "/" (strings_Split path "/") = path).
Proof.
  split; [exact getReceiptIDFromURLPath_points|].
  split; [exact getReceiptIDFromURLPath_no_slash|].
  split; [|intros path; apply strings_Split_join].
  intros path. unfold getReceiptIDFromURLPath. rewrite nth_error_None. lia.
Qed.

Lemma receipt_id_from_path_witness :
  no_slash "7fb1377b-b223-49d9-a31a-5a02701dd310" = true
  /\ getReceiptIDFromURLPath "/receipts/7fb1377b-b223-49d9-a31a-5a02701dd310/points"
     = Some "7fb1377b-b223-49d9-a31a-5a02701dd310"
  /\ getReceiptIDFromURLPath "/receipts/" = Some EmptyString
  /\ getReceiptIDFromURLPath "/receipts" = None.
Proof.
  assert (H : no_slash "7fb1377b-b223-49d9-a31a-5a02701dd310" = true) by reflexivity.
  split; [exact H|]. split; [|split].
  - exact (proj1 receipt_id_from_path _ H).
  - reflexivity.
  - apply (proj1 (proj2 (proj2 receipt_id_from_path))). simpl. lia.
Defined.

(** ** The handlers *)

Section HandlerProperties.

Variable rt : GoRuntime.
Variable json_members : string -> option RawReceipt.

(** Under [/receipts/] the router looks at the segments of the rest of the
    path only. *)
Lemma receiptsSubresourceHandler_receipts
  (db : xDB) (uuid : string) (r : Request) (rest : string) :
  URL_Path r = "/receipts/" +:+ rest ->
  receiptsSubresourceHandler rt json_members db uuid r =
  match strings_Split rest "/" with
  | [segment] =>
      if String.eqb segment "process"
      then receiptsProcessHandler rt json_members db uuid r else (NoResponse, db)
  | [_; segment] =>
      if String.eqb segment "points"
      then (receiptsPointsHandler db r, db) else (NoResponse, db)
  | _ => (NoResponse, db)
  end.
Proof.
  intros H. unfold receiptsSubresourceHandler. rewrite H, strings_Split_receipts.
  destruct (strings_Split rest "/") as [|a [|b [|c l]]]; reflexivity.
Qed.



Lemma receiptsPointsHandler_no_panic (db : xDB) (r : Request) :
  length (strings_Split (URL_Path r) "/") = 4%nat ->
  receiptsPointsHandler db r <> Panic.
Proof.
  intros Hl. unfold receiptsPointsHandler, getReceiptIDFromURLPath.
  destruct (negb _); [discriminate|].
  destruct (strings_Split (URL_Path r) "/") as [|a [|b [|c l]]]; try discriminate.
  simpl. destruct (getReceiptPoints db c); discriminate.
Qed.

(** The two outcomes of the process handler. *)
Lemma receiptsProcessHandler_cases (db : xDB) (uuid : string) (r : Request) :
  (exists b, Method r = http_MethodPost /\ readUnmarshalRequestBody json_members r = Ok b
             /\ receiptsProcessHandler rt json_members db uuid r
                = (w_Write_Marshal (ProcessReceiptsResponseBody uuid),
                   snd (writeReceipt rt db uuid b)))
  \/ ((Method r <> http_MethodPost \/ is_ok (readUnmarshalRequestBody json_members r) = false)
      /\ receiptsProcessHandler rt json_members db uuid r
         = (http_Error "The receipt is invalid." http_StatusBadRequest, db)).
Proof.
  unfold receiptsProcessHandler.
  destruct (String.eqb (Method r) http_MethodPost) eqn:Em.
  - apply String.eqb_eq in Em. simpl.
    destruct (readUnmarshalRequestBody json_members r) as [b|e] eqn:Eb.
    + left. exists b. repeat split. exact Em.
    + right. split; [now right | reflexivity].
  - apply String.eqb_neq in Em. right. split; [now left | reflexivity].
Qed.


(** X23. Under [/receipts/] the router runs the process handler for the path
    [/receipts/process], the points handler for [/receipts/id/points] with
    [id] free of slashes, and for every other path writes nothing and leaves
    the store as it is. *)
Theorem router_dispatch
  (db : xDB) (uuid : string) (r : Request) (rest : string) :
  URL_Path r = "/receipts/" +:+ rest ->
  (rest = "process" ->
   receiptsSubresourceHandler rt json_members db uuid r
   = receiptsProcessHandler rt json_members db uuid r)
  /\ (forall id, no_slash id = true -> rest = id +:+ "/points" ->
      receiptsSubresourceHandler rt json_members db uuid r = (receiptsPointsHandler db r, db))
  /\ (rest <> "process" ->
      (forall id, no_slash id = true -> rest <> id +:+ "/points") ->
      receiptsSubresourceHandler rt json_members db uuid r = (NoResponse, db)).
Proof.
  intros H. rewrite (receiptsSubresourceHandler_receipts db uuid r rest H).
  repeat split.
  - intros ->. reflexivity.
  - intros id Hid ->.
    change (id +:+ "/points") with (id +:+ String "/" "points").
    rewrite strings_Split_append by exact Hid. reflexivity.
  - intros Hp Hq.
    destruct (strings_Split rest "/") as [|a [|b [|c l]]] eqn:E; try reflexivity.
    + apply strings_Split_one in E. subst a.
      destruct (String.eqb rest "process") eqn:Ee; [|reflexivity].
      apply String.eqb_eq in Ee. contradiction.
    + apply strings_Split_two in E as [E Ha].
      destruct (String.eqb b "points") eqn:Ee; [|reflexivity].
      apply String.eqb_eq in Ee. subst b. exfalso. exact (Hq a Ha E).
Qed.

(** X24. No request makes the router panic: the points handler, which indexes
    the third segment of the path, runs only behind the test that the path
    has four segments. *)
Theorem router_never_panics (db : xDB) (uuid : string) (r : Request) :
  panics (fst (receiptsSubresourceHandler rt json_members db uuid r)) = false.
Proof.
  unfold receiptsSubresourceHandler.
  destruct ((length (strings_Split (URL_Path r) "/") =? 3)%nat
            && segment_is (strings_Split (URL_Path r) "/") 2 "process").
  - destruct (receiptsProcessHandler_cases db uuid r)
      as [(b & _ & _ & ->) | (_ & ->)]; reflexivity.
  - destruct ((length (strings_Split (URL_Path r) "/") =? 4)%nat
              && segment_is (strings_Split (URL_Path r) "/") 3 "points") eqn:E; [|reflexivity].
    apply andb_prop in E as [E _]. apply Nat.eqb_eq in E.
    pose proof (receiptsPointsHandler_no_panic db r E) as Hp. cbn [fst].
    destruct (receiptsPointsHandler db r); try reflexivity. contradiction.
Qed.




End HandlerProperties.

Lemma router_dispatch_witness :
  URL_Path (example_get "id-1") = "/receipts/" +:+ "id-1/points"
  /\ receiptsSubresourceHandler example_runtime example_json_members NewXDB "id-9"
       (example_get "id-1")
     = (receiptsPointsHandler NewXDB (example_get "id-1"), NewXDB).
Proof.
  assert (H : URL_Path (example_get "id-1") = "/receipts/" +:+ "id-1/points") by reflexivity.
  split; [exact H|].
  exact (proj1 (proj2 (router_dispatch example_runtime example_json_members NewXDB "id-9"
                         (example_get "id-1") "id-1/points" H)) "id-1" eq_refl eq_refl).
Defined.



